(** * Acuity -> PassKit membership bridge: [lib/helpers.js]

    A shallow embedding of the order-reconciliation core of
    [src/lib/helpers.js]: the certificate extractor, the order activity
    classifier, the certificate->order mapping store, the wallet member
    resolver and the enroll / cancel protocols.

    Conventions.
    - JavaScript strings are [string]s read as ASCII text.  The case
      mappings ([toLowerCase], [toUpperCase]), the white space stripped by
      [trim] and the character classes of the regular expressions are
      modelled on the ASCII range; a byte above 127 is neither a letter, a
      digit nor white space and is left alone by the case mappings.
    - JSON payloads ([response.data] of an HTTP call) are trees of type
      [value]; numbers are the integers.  Objects keep their entries in
      order, as [Object.entries] enumerates them.
    - [async] functions become computations of the monad [M]: they thread
      the mapping store and the trace of outward calls, and either return
      or throw.  The booking system, the wallet provider, the failures
      of the store backend and the store client's reading of what is
      stored are fields of a [world], over which every statement is
      quantified. *)

From Stdlib Require Import Ascii String ZArith List Bool Lia.
From stdpp Require Import base strings pretty gmap.

Set Warnings "-register-all".

Open Scope string_scope.
Open Scope list_scope.

(** ** Strings *)

Module Str.

(** White space and line terminators of [String.prototype.trim]. *)
Definition is_white (a : ascii) : bool :=
  let n := nat_of_ascii a in
  (((9 <=? n) && (n <=? 13)) || (n =? 32))%nat.

Definition is_digit (a : ascii) : bool :=
  let n := nat_of_ascii a in ((48 <=? n) && (n <=? 57))%nat.

Definition is_upper (a : ascii) : bool :=
  let n := nat_of_ascii a in ((65 <=? n) && (n <=? 90))%nat.

Definition is_lower (a : ascii) : bool :=
  let n := nat_of_ascii a in ((97 <=? n) && (n <=? 122))%nat.

(** The character class [[A-Za-z0-9]]. *)
Definition is_alnum (a : ascii) : bool :=
  is_upper a || is_lower a || is_digit a.

Definition lower_char (a : ascii) : ascii :=
  if is_upper a then ascii_of_nat (nat_of_ascii a + 32) else a.

Definition upper_char (a : ascii) : ascii :=
  if is_lower a then ascii_of_nat (nat_of_ascii a - 32) else a.

Fixpoint map (f : ascii -> ascii) (s : string) : string :=
  match s with
  | EmptyString => EmptyString
  | String a s' => String (f a) (map f s')
  end.

Fixpoint forallb (p : ascii -> bool) (s : string) : bool :=
  match s with
  | EmptyString => true
  | String a s' => p a && forallb p s'
  end.

Definition toLowerCase : string -> string := map lower_char.
Definition toUpperCase : string -> string := map upper_char.

Fixpoint trimStart (s : string) : string :=
  match s with
  | EmptyString => EmptyString
  | String a s' => if is_white a then trimStart s' else s
  end.

(** Drops the white space at the end: a character is kept when it is not
    white space or when something is kept after it. *)
Fixpoint trimEnd (s : string) : string :=
  match s with
  | EmptyString => EmptyString
  | String a s' =>
      match trimEnd s' with
      | EmptyString => if is_white a then EmptyString else String a EmptyString
      | t => String a t
      end
  end.

Definition trim (s : string) : string := trimEnd (trimStart s).

(** [s.includes(p)] *)
Fixpoint includes (s p : string) : bool :=
  String.prefix p s
  || match s with
     | EmptyString => false
     | String _ s' => includes s' p
     end.

(** [s.split(sep)] for a one-character separator. *)
Fixpoint split (sep : ascii) (s : string) : list string :=
  match s with
  | EmptyString => [EmptyString]
  | String a s' =>
      if Ascii.eqb a sep then EmptyString :: split sep s'
      else match split sep s' with
           | [] => [String a EmptyString]
           | w :: ws => String a w :: ws
           end
  end.

(** JavaScript truthiness of a string. *)
Definition nonempty (s : string) : bool :=
  match s with EmptyString => false | _ => true end.

(** A string of ASCII characters only.  On these the case mappings and
    [trim] above are those of JavaScript; outside them JavaScript also
    maps some letters into the ASCII range (the long s to S) and strips
    further white space (the no-break space). *)
Definition ascii_only (s : string) : bool :=
  forallb (fun a => (nat_of_ascii a <? 128)%nat) s.

End Str.

(** ** JSON values *)

Inductive value : Type :=
| VUndefined
| VNull
| VBool (b : bool)
| VNum (n : Z)
| VStr (s : string)
| VArr (items : list value)
| VObj (fields : list (string * value)).

(** First entry of an object under a key. *)
Fixpoint assoc {A : Type} (k : string) (es : list (string * A)) : option A :=
  match es with
  | [] => None
  | (k', v) :: es' => if String.eqb k k' then Some v else assoc k es'
  end.

(** [v?.k] for the property names read by this module, none of which is an
    array index, [length] or a prototype method: only an object has them. *)
Definition prop (v : value) (k : string) : value :=
  match v with
  | VObj fs => match assoc k fs with Some x => x | None => VUndefined end
  | _ => VUndefined
  end.

(** [!!v] *)
Definition truthy (v : value) : bool :=
  match v with
  | VUndefined | VNull => false
  | VBool b => b
  | VNum n => negb (n =? 0)%Z
  | VStr s => Str.nonempty s
  | VArr _ | VObj _ => true
  end.

(** [a || b] on values. *)
Definition or_else (a b : value) : value := if truthy a then a else b.

(** [String(v)], where it returns (see [String_throws] below); a number is
    an integer, printed in decimal. *)
Fixpoint js_String (v : value) : string :=
  match v with
  | VUndefined => "undefined"
  | VNull => "null"
  | VBool true => "true"
  | VBool false => "false"
  | VNum n => pretty n
  | VStr s => s
  | VArr items =>
      (fix join (xs : list value) : string :=
         match xs with
         | [] => ""
         | x :: xs' =>
             let piece := match x with
                          | VUndefined | VNull => ""
                          | _ => js_String x
                          end in
             match xs' with
             | [] => piece
             | _ => piece +:+ "," +:+ join xs'
             end
         end) items
  | VObj _ => "[object Object]"
  end.

(** Where [String(v)] throws instead: on an object of a payload that has an
    entry [toString] of its own (that entry is no function, and the
    inherited [valueOf] yields no primitive, which is a [TypeError]), and
    on an array that holds such an object. *)
Fixpoint String_throws (v : value) : bool :=
  match v with
  | VObj fs => match assoc "toString" fs with Some _ => true | None => false end
  | VArr items => existsb String_throws items
  | _ => false
  end.

(** [Object.entries] of an array: its items under their indices. *)
Fixpoint indexed (i : nat) (items : list value) : list (string * value) :=
  match items with
  | [] => []
  | x :: xs => (pretty i, x) :: indexed (S i) xs
  end.

(** ** Certificate codes *)

(** [/^[A-Za-z0-9]{8}$/.test(s)] *)
Definition matches_code (s : string) : bool :=
  (String.length s =? 8)%nat && Str.forallb Str.is_alnum s.

Definition isCertificateCodeStr (s : string) : bool :=
  matches_code (Str.trim s).

Definition isCertificateCode (v : value) : bool :=
  match v with
  | VStr s => isCertificateCodeStr s
  | _ => false
  end.

Definition normalizeCertificateCode (v : value) : string :=
  Str.toUpperCase (Str.trim (js_String (or_else v (VStr "")))).

(** [/certificate|gift/i.test(key)] *)
Definition keyLooksRelevant (key : string) : bool :=
  Str.includes (Str.toLowerCase key) "certificate"
  || Str.includes (Str.toLowerCase key) "gift".


(** ** Certificate extractor *)

(** What a run of [extractCertificateCode] has produced after a bounded
    number of iterations of its [while] loop. *)
Inductive outcome : Type :=
| Running
| Returned (code : option string).

(** The extractor reads its argument through two observations only: whether
    a node is a string, and the entries of a node that is an object.  It is
    written once over these, for payload trees and for object graphs. *)
Section Traversal.

Context {V : Type}.
Variable as_string : V -> option string.
Variable entries_of : V -> option (list (string * V)).

(** [v?.k] *)
Definition field (v : V) (k : string) : option V :=
  match entries_of v with
  | Some es => assoc k es
  | None => None
  end.

(** [v?.k1?.k2] *)
Definition field2 (v : V) (k1 k2 : string) : option V :=
  match field v k1 with
  | Some w => field w k2
  | None => None
  end.

Definition directCandidates (order : V) : list (option V) :=
  [ field order "certificateCode";
    field order "certificate_code";
    field order "certificate";
    field order "giftCertificateCode";
    field order "gift_certificate_code";
    field order "giftCertificate";
    field2 order "certificate" "code";
    field2 order "giftCertificate" "code" ].

(** [for (const candidate of directCandidates) ...] *)
Fixpoint first_code (candidates : list (option V)) : option string :=
  match candidates with
  | [] => None
  | c :: cs =>
      match c with
      | Some v =>
          match as_string v with
          | Some s => if isCertificateCodeStr s then Some (Str.trim s)
                      else first_code cs
          | None => first_code cs
          end
      | None => first_code cs
      end
  end.

(** [for (const [key, value] of Object.entries(current)) ...]: either the
    loop returns a code, or it leaves the stack with the object-valued
    entries pushed on it.  The head of the list is the top of the stack. *)
Fixpoint scan_entries (es : list (string * V)) (stack : list V)
  : string + list V :=
  match es with
  | [] => inr stack
  | (key, v) :: rest =>
      match as_string v with
      | Some s =>
          if keyLooksRelevant key && isCertificateCodeStr s
          then inl (Str.trim s)
          else scan_entries rest stack
      | None =>
          match entries_of v with
          | Some _ => scan_entries rest (v :: stack)
          | None => scan_entries rest stack
          end
      end
  end.

(** [while (stack.length) { const current = stack.pop(); ... }], one unit
    of fuel per iteration. *)
Fixpoint walk (fuel : nat) (stack : list V) : outcome :=
  match fuel with
  | O => Running
  | S fuel' =>
      match stack with
      | [] => Returned None
      | current :: rest =>
          match entries_of current with
          | None => walk fuel' rest
          | Some es =>
              match scan_entries es rest with
              | inl code => Returned (Some code)
              | inr stack' => walk fuel' stack'
              end
          end
      end
  end.

Definition extract_run (fuel : nat) (order : V) : outcome :=
  match first_code (directCandidates order) with
  | Some code => Returned (Some code)
  | None => walk fuel [order]
  end.

End Traversal.

(** Payload trees. *)
Definition as_string (v : value) : option string :=
  match v with
  | VStr s => Some s
  | _ => None
  end.

Definition entries_of (v : value) : option (list (string * value)) :=
  match v with
  | VObj fs => Some fs
  | VArr items => Some (indexed 0 items)
  | _ => None
  end.

(** Number of nodes of a payload: a bound on the iterations of the loop. *)
Fixpoint weight (v : value) : nat :=
  match v with
  | VArr items => S (list_sum (List.map weight items))
  | VObj fs => S (list_sum (List.map (fun '(_, x) => weight x) fs))
  | _ => 1
  end.

(** [extractCertificateCode(order)] on a payload tree; the fuel given to
    the loop is enough ([extract_fuel_enough] below), so the [Running]
    branch is never taken. *)
Definition extractCertificateCode (order : value) : option string :=
  match extract_run as_string entries_of (S (weight order)) order with
  | Returned r => r
  | Running => None
  end.

(** Object graphs: objects live in a heap and are held by reference, so an
    object can be reached from itself. *)
Module Graph.

(** A string, another primitive, or the address of an object. *)
Inductive ref : Type :=
| RStr (s : string)
| ROther
| RObj (addr : nat).

Definition heap : Type := list (list (string * ref)).

Definition as_string (r : ref) : option string :=
  match r with
  | RStr s => Some s
  | _ => None
  end.

Definition entries_of (h : heap) (r : ref) : option (list (string * ref)) :=
  match r with
  | RObj a => h !! a
  | _ => None
  end.

Definition extract_run (h : heap) : nat -> ref -> outcome :=
  extract_run as_string (entries_of h).

(** [const o = {}; o.self = o;] *)
Definition self_loop : heap := [ [("self", RObj 0)] ].

End Graph.

(** ** Order activity classifier *)

Definition isTruthyFlag (v : value) : bool :=
  match v with
  | VBool b => b
  | VNum n => (n =? 1)%Z
  | VStr s =>
      let normalized := Str.toLowerCase (Str.trim s) in
      String.eqb normalized "true" || String.eqb normalized "1"
      || String.eqb normalized "yes"
  | _ => false
  end.

Definition INACTIVE_ORDER_STATUS : list string :=
  [ "cancelled"; "canceled"; "expired"; "inactive"; "voided"; "refunded";
    "failed" ].

(** [{ active: true }] or [{ active: false, reason }]. *)
Inductive activity : Type :=
| Active
| Inactive (reason : string).

Definition active (a : activity) : bool :=
  match a with
  | Active => true
  | Inactive _ => false
  end.

Definition cancellationFlags : list string :=
  [ "cancelled"; "canceled"; "isCancelled"; "isCanceled" ].

(** [for (const flag of cancellationFlags) if (isTruthyFlag(order?.[flag])) ...] *)
Fixpoint first_truthy_flag (order : value) (flags : list string)
  : option string :=
  match flags with
  | [] => None
  | flag :: rest =>
      if isTruthyFlag (prop order flag) then Some flag
      else first_truthy_flag order rest
  end.

(** [v === false] *)
Definition is_false (v : value) : bool :=
  match v with
  | VBool false => true
  | _ => false
  end.

Definition statusFields (order : value) : list value :=
  [ prop order "status"; prop order "orderStatus";
    prop order "subscriptionStatus"; prop order "membershipStatus" ].

Definition status_is_inactive (normalized : string) : bool :=
  existsb (String.eqb normalized) INACTIVE_ORDER_STATUS
  || Str.includes normalized "cancel"
  || Str.includes normalized "expire".

(** [for (const value of statusFields) ...]: the first status value that
    indicates an inactive order, as written in the payload. *)
Fixpoint first_inactive_status (values : list value) : option string :=
  match values with
  | [] => None
  | VStr value :: rest =>
      let normalized := Str.toLowerCase (Str.trim value) in
      if negb (Str.nonempty normalized) then first_inactive_status rest
      else if status_is_inactive normalized then Some value
      else first_inactive_status rest
  | _ :: rest => first_inactive_status rest
  end.

Definition evaluateOrderActivity (order : value) : activity :=
  match first_truthy_flag order cancellationFlags with
  | Some flag => Inactive ("Acuity order flag " +:+ flag +:+ "=true")
  | None =>
      if is_false (prop order "active") || is_false (prop order "isActive")
      then Inactive "Acuity order marked inactive"
      else
        match first_inactive_status (statusFields order) with
        | Some value => Inactive ("Acuity status indicates inactive: " +:+ value)
        | None => Active
        end
  end.

(** The fields of an order that [evaluateOrderActivity] reads. *)
Definition activityFields : list string :=
  cancellationFlags
  ++ [ "active"; "isActive"; "status"; "orderStatus"; "subscriptionStatus";
       "membershipStatus" ].

(** ** Outward calls, the mapping store and the monad of [async] code *)

Inductive level : Type := info | warn | error.

(** A thrown error: [err.message] and [err.response?.data] (undefined for
    an error that carries no HTTP response). *)
Record js_error : Type := JsError {
  message : string;
  response_data : value
}.

(** [new Error(msg)] *)
Definition Error (msg : string) : js_error := JsError msg VUndefined.

Inductive http_method : Type := GET | POST | PUT | DELETE.

(** Commands sent to the mapping store. *)
Inductive redis_cmd : Type :=
| RedisSet (key val : string) (ex : Z)
| RedisGet (key : string)
| RedisDel (key : string).

(** What a run does that is visible outside: log entries handed to
    [appendLog] (whose own persistence is best effort and never throws),
    the order fetch, requests made through [passKitRequest] and commands
    sent to the mapping store. *)
Inductive event : Type :=
| Log (l : level) (msg : string) (data : value)
| AcuityGet (path : string)
| PassKit (m : http_method) (endpoint : string) (data : value)
| Redis (c : redis_cmd).

(** The configuration and the collaborators.  An answer may depend on
    everything the process has done so far.  [deserialize] is the store
    client's reading of a stored string: [get] hands back not the string
    but what the client makes of it (it parses what it reads as JSON where
    it can, so that a stored numeral comes back as a number). *)
Record world : Type := World {
  PASSKIT_PROGRAM_ID : option string;
  MEMBERSHIP_PRODUCT_FILTER : string;
  redis_configured : bool;
  now : string;
  acuity : list event -> string -> js_error + value;
  passkit : list event -> http_method -> string -> value -> js_error + value;
  redis_fails : list event -> redis_cmd -> bool;
  deserialize : string -> value
}.

Record state : Type := State {
  store : gmap string string;
  trace : list event
}.

Inductive result (A : Type) : Type :=
| Ok (a : A)
| Throw (e : js_error).
Arguments Ok {A} a.
Arguments Throw {A} e.

Definition M (A : Type) : Type := state -> result A * state.

Definition ret {A : Type} (a : A) : M A := fun s => (Ok a, s).

Definition throw {A : Type} (e : js_error) : M A := fun s => (Throw e, s).

Definition bind {A B : Type} (m : M A) (k : A -> M B) : M B :=
  fun s =>
    match m s with
    | (Ok a, s') => k a s'
    | (Throw e, s') => (Throw e, s')
    end.

(** [try { m } catch (err) { handler(err) }] *)
Definition try_catch {A : Type} (m : M A) (handler : js_error -> M A) : M A :=
  fun s =>
    match m s with
    | (Ok a, s') => (Ok a, s')
    | (Throw e, s') => handler e s'
    end.

Declare Scope js_scope.
Delimit Scope js_scope with js.
Notation "x <- m ;; k" := (bind m (fun x => k))
  (at level 100, m at next level, right associativity) : js_scope.
Notation "m ;;; k" := (bind m (fun _ => k))
  (at level 100, right associativity) : js_scope.
Open Scope js_scope.

Definition emit (e : event) : M unit :=
  fun s => (Ok tt, State (store s) (trace s ++ [e])).

Definition CERT_TO_ORDER_KEY_PREFIX : string := "acuity_cert_to_order:".
Definition CERT_TO_ORDER_TTL_SECONDS : Z := 60 * 60 * 24 * 90.

Definition programIdConfigured (w : world) : bool :=
  match PASSKIT_PROGRAM_ID w with
  | Some p => Str.nonempty p
  | None => false
  end.

Definition programId (w : world) : string :=
  match PASSKIT_PROGRAM_ID w with
  | Some p => p
  | None => "undefined"
  end.

Section Effects.

Variable w : world.

(** [appendLog(level, message, data)]: the entry is written to the console
    and, when a durable store is configured, pushed on the capped log list,
    whose failures the function swallows; it never throws.  The whole is
    one [Log] event. *)
Definition appendLog (l : level) (msg : string) (data : value) : M unit :=
  emit (Log l msg data).

(** [passKitRequest(method, endpoint, data)]; the result is
    [response.data]. *)
Definition passKitRequest (m : http_method) (endpoint : string)
    (data : value) : M value :=
  fun s =>
    let s' := State (store s) (trace s ++ [PassKit m endpoint data]) in
    match passkit w (trace s) m endpoint data with
    | inl e => (Throw e, s')
    | inr d => (Ok d, s')
    end.

(** [acuity.get(path)]; the result is [response.data]. *)
Definition acuityGet (path : string) : M value :=
  fun s =>
    let s' := State (store s) (trace s ++ [AcuityGet path]) in
    match acuity w (trace s) path with
    | inl e => (Throw e, s')
    | inr d => (Ok d, s')
    end.

(** A command of the store client: refused by the backend, or applied. *)
Definition redis {A : Type} (c : redis_cmd)
    (apply : gmap string string -> A * gmap string string) : M A :=
  fun s =>
    let tr := trace s ++ [Redis c] in
    if redis_fails w (trace s) c
    then (Throw (Error "redis command failed"), State (store s) tr)
    else let (a, st) := apply (store s) in (Ok a, State st tr).

Definition redis_set (key val : string) (ex : Z) : M unit :=
  redis (RedisSet key val ex) (fun st => (tt, <[key := val]> st)).

(** [redis.get(key)]: null for a key that is not there, and otherwise the
    client's reading of what is stored. *)
Definition redis_get (key : string) : M value :=
  redis (RedisGet key)
    (fun st => (match st !! key with
                | Some raw => deserialize w raw
                | None => VNull
                end, st)).

Definition redis_del (key : string) : M unit :=
  redis (RedisDel key) (fun st => (tt, delete key st)).

(** *** Certificate -> order mapping store *)

Definition storeCertificateOrderMapping (certificateCode : value)
    (orderId : string) : M unit :=
  try_catch
    (if negb (redis_configured w) then ret tt
     else
       let code := normalizeCertificateCode certificateCode in
       if negb (isCertificateCode (VStr code)) then ret tt
       else redis_set (CERT_TO_ORDER_KEY_PREFIX +:+ code) orderId
              CERT_TO_ORDER_TTL_SECONDS)
    (fun _ => ret tt).

Definition resolveOrderIdByCertificateCode (certificateCode : value)
  : M (option string) :=
  let code := normalizeCertificateCode certificateCode in
  if negb (isCertificateCode (VStr code)) then ret None
  else
    try_catch
      (if negb (redis_configured w) then ret None
       else
         orderId <- redis_get (CERT_TO_ORDER_KEY_PREFIX +:+ code) ;;
         if negb (truthy orderId) then ret None
         else if String_throws orderId
              then throw (Error "Cannot convert object to primitive value")
              else ret (Some (js_String orderId)))
      (fun _ => ret None).

Definition removeCertificateOrderMapping (certificateCode : value)
  : M unit :=
  try_catch
    (if negb (redis_configured w) then ret tt
     else
       let code := normalizeCertificateCode certificateCode in
       if negb (isCertificateCode (VStr code)) then ret tt
       else redis_del (CERT_TO_ORDER_KEY_PREFIX +:+ code))
    (fun _ => ret tt).

End Effects.

(** ** Wallet member resolver *)

Definition hex_digit (n : nat) : ascii :=
  if (n <? 10)%nat then ascii_of_nat (48 + n) else ascii_of_nat (55 + n).

(** Characters that [encodeURIComponent] leaves alone. *)
Definition uri_unreserved (a : ascii) : bool :=
  Str.is_alnum a
  || existsb (Ascii.eqb a)
       [ "-"; "_"; "."; "!"; "~"; "*"; "'"; "("; ")" ]%char.

Fixpoint encodeURIComponent (s : string) : string :=
  match s with
  | EmptyString => EmptyString
  | String a s' =>
      if uri_unreserved a then String a (encodeURIComponent s')
      else
        let n := nat_of_ascii a in
        String "%" (String (hex_digit (n / 16)) (String (hex_digit (n mod 16))
          (encodeURIComponent s')))
  end.

(** [{ id, emailAddress, externalId }] *)
Record member_ref : Type := MemberRef {
  id : string;
  emailAddress : value;
  externalId : value
}.

(** [v && typeof v === 'object'] *)
Definition is_object (v : value) : bool :=
  match v with
  | VArr _ | VObj _ => true
  | _ => false
  end.

Definition isArray (v : value) : bool :=
  match v with
  | VArr _ => true
  | _ => false
  end.

(** [Array.isArray(v) ? v : null], as the list of items. *)
Definition as_array (v : value) : option (list value) :=
  match v with
  | VArr items => Some items
  | _ => None
  end.

Definition toMemberRef (candidate : value) : option member_ref :=
  if negb (is_object candidate) then None
  else
    let id := or_else (or_else (prop candidate "id") (prop candidate "memberId"))
                VNull in
    if negb (truthy id) then None
    else
      Some (MemberRef (js_String id)
              (or_else (or_else (prop (prop candidate "person") "emailAddress")
                                (prop candidate "emailAddress")) VNull)
              (or_else (prop candidate "externalId") VNull)).

(** [for (const x of xs) { const r = f(x); if (r) return r; }] *)
Fixpoint first_ref {A : Type} (f : A -> option member_ref) (xs : list A)
  : option member_ref :=
  match xs with
  | [] => None
  | x :: xs' =>
      match f x with
      | Some r => Some r
      | None => first_ref f xs'
      end
  end.

(** The body of the loop over [listCandidates]. *)
Definition ref_of_rows (rows : list value) : option member_ref :=
  match rows with
  | [] => None
  | VStr first :: _ => Some (MemberRef first VNull VNull)
  | first :: _ => toMemberRef first
  end.

Definition parseMemberRefFromPayload (data : value) : option member_ref :=
  if negb (truthy data) then None
  else
    match toMemberRef data with
    | Some direct => Some direct
    | None =>
        let nestedCandidates :=
          List.filter truthy
            [ prop data "member"; prop data "item"; prop data "result";
              if truthy (prop data "data") && negb (isArray (prop data "data"))
              then prop data "data" else VNull ] in
        match first_ref toMemberRef nestedCandidates with
        | Some nestedRef => Some nestedRef
        | None =>
            match as_array (prop data "memberIds") with
            | Some (first :: _) =>
                Some (MemberRef (js_String first) VNull VNull)
            | _ =>
                let listCandidates :=
                  omap as_array
                    [ data; prop data "members"; prop data "results";
                      prop data "items"; prop data "data" ] in
                first_ref ref_of_rows listCandidates
            end
        end
    end.

(** The [payload] of [queryMemberByField]. *)
Definition listPayload (filterField filterValue : string) : value :=
  VObj [ ("filters", VObj
    [ ("limit", VNum 1);
      ("offset", VNum 0);
      ("orderBy", VStr "updated");
      ("orderAsc", VBool false);
      ("filterGroups", VArr [ VObj
         [ ("condition", VStr "AND");
           ("fieldFilters", VArr [ VObj
              [ ("filterField", VStr filterField);
                ("filterValue", VStr filterValue);
                ("filterOperator", VStr "eq") ] ]) ] ]) ]) ].

Section Resolver.

Variable w : world.

Definition listEndpoint : string :=
  "/members/member/list/" +:+ programId w.

Definition directEndpoint (externalId : string) : string :=
  "/members/member/externalId/" +:+ programId w +:+ "/"
  +:+ encodeURIComponent externalId.

Definition queryMemberByField (filterField filterValue : string)
  : M (option member_ref) :=
  response <- passKitRequest w POST listEndpoint
                (listPayload filterField filterValue) ;;
  ret (parseMemberRefFromPayload response).

Definition directLookup (externalId : string) : M (option member_ref) :=
  direct <- passKitRequest w GET (directEndpoint externalId) VNull ;;
  ret (parseMemberRefFromPayload direct).

(** [try { const r = await lookup; if (r) return r; } catch {}]: the
    reference found, or [None] to go on with the next lookup. *)
Definition attempt (lookup : M (option member_ref)) : M (option member_ref) :=
  try_catch lookup (fun _ => ret None).

Definition findPassKitMemberByExternalId (externalId : string)
  : M (option member_ref) :=
  if negb (programIdConfigured w)
  then throw (Error "Missing PASSKIT_PROGRAM_ID for PassKit member lookup")
  else
    byDirectLookup <- attempt (directLookup externalId) ;;
    match byDirectLookup with
    | Some m => ret (Some m)
    | None =>
        byMemberId <- attempt (queryMemberByField "memberId" externalId) ;;
        match byMemberId with
        | Some m => ret (Some m)
        | None =>
            byExternalId <-
              attempt (queryMemberByField "externalId" externalId) ;;
            match byExternalId with
            | Some m => ret (Some m)
            | None => ret None
            end
        end
    end.

End Resolver.

(** ** Cancel protocol *)

(** The [context] argument of the cancellation functions; a field that is
    not given is [VUndefined]. *)
Record context : Type := Context {
  orderId : value;
  reason : value;
  sourceAction : value
}.

(** Result of [deactivatePassKitMembershipByExternalId]. *)
Record deactivation : Type := Deactivation {
  success : bool;
  method : string;
  passKitId : value
}.

(** Result of [cancelMembershipByCertificateCode]:
    [{ success: true, externalId: code, ...deactivation }]. *)
Record cancellation : Type := Cancellation {
  c_success : bool;
  c_externalId : string;
  c_method : string;
  c_passKitId : value
}.

Definition cancellationMeta (w : world) (ctx : context) : value :=
  VObj ([ ("cancelledAt", VStr (now w));
          ("cancellationReason",
           or_else (reason ctx) (VStr "Membership cancelled")) ]
        ++ (if truthy (orderId ctx)
            then [ ("acuityOrderId", VStr (js_String (orderId ctx))) ]
            else [])
        ++ (if truthy (sourceAction ctx)
            then [ ("acuityAction", sourceAction ctx) ]
            else [])).

Definition cancellationPayload (w : world) (member : member_ref)
    (externalId : string) (ctx : context) : value :=
  VObj ([ ("id", VStr (id member));
          ("programId", VStr (programId w));
          ("externalId", VStr externalId);
          ("status", VStr "CANCELLED");
          ("metaData", cancellationMeta w ctx) ]
        ++ (if truthy (emailAddress member)
            then [ ("person", VObj [ ("emailAddress", emailAddress member) ]) ]
            else [])).

(** The data logged with the warning that precedes the delete fallback. *)
Definition fallbackData (externalId : string) (member : member_ref)
    (statusErr : js_error) : value :=
  VObj [ ("externalId", VStr externalId);
         ("memberId", VStr (id member));
         ("error", or_else (response_data statusErr)
                     (VStr (message statusErr))) ].

(** The data logged at the end of a cancellation. *)
Definition cancellationData (code : string) (d : deactivation) (ctx : context)
  : value :=
  VObj [ ("externalId", VStr code);
         ("method", VStr (method d));
         ("passKitId", passKitId d);
         ("orderId", or_else (orderId ctx) VNull) ].

Section Cancel.

Variable w : world.

Definition deactivatePassKitMembershipByExternalId (externalId : string)
    (ctx : context) : M deactivation :=
  if negb (programIdConfigured w)
  then throw (Error "Missing PASSKIT_PROGRAM_ID for PassKit cancellation")
  else
    found <- findPassKitMemberByExternalId w externalId ;;
    match found with
    | None => ret (Deactivation true "member_not_found" VNull)
    | Some member =>
        if negb (Str.nonempty (id member))
        then ret (Deactivation true "member_not_found" VNull)
        else
          try_catch
            (response <- passKitRequest w PUT "/members/member"
                           (cancellationPayload w member externalId ctx) ;;
             ret (Deactivation true "status_update"
                    (or_else (prop response "id") (VStr (id member)))))
            (fun statusErr =>
               appendLog warn
                 "PassKit status update to CANCELLED failed, trying delete fallback"
                 (fallbackData externalId member statusErr) ;;;
               response <- passKitRequest w DELETE "/members/member"
                             (VObj [ ("id", VStr (id member)) ]) ;;
               ret (Deactivation true "delete"
                      (or_else (prop response "id") (VStr (id member)))))
    end.

Definition cancelMembershipByCertificateCode (certificateCode : value)
    (ctx : context) : M cancellation :=
  let code := normalizeCertificateCode certificateCode in
  if negb (isCertificateCode (VStr code))
  then throw (Error
         "Invalid certificate code (expected 8 alphanumeric characters)")
  else
    d <- deactivatePassKitMembershipByExternalId code ctx ;;
    removeCertificateOrderMapping w (VStr code) ;;;
    appendLog info "Membership cancellation processed"
      (cancellationData code d ctx) ;;;
    ret (Cancellation (success d) code (method d) (passKitId d)).

End Cancel.

(** ** Enroll protocol *)

(** Result of [processNewMembershipOrder]: [{ skipped: true, reason }],
    with [cancellationResult] when the cancellation flow ran, or
    [{ success: true, passKitId, member }]. *)
Inductive order_result : Type :=
| Skipped (reason : string) (cancellationResult : option cancellation)
| Enrolled (passKitId : value) (member : string).

(** [v === null || v === undefined] *)
Definition nullish (v : value) : bool :=
  match v with
  | VUndefined | VNull => true
  | _ => false
  end.

Definition filterProducts (w : world) : list string :=
  if Str.nonempty (MEMBERSHIP_PRODUCT_FILTER w)
  then List.map (fun p => Str.toLowerCase (Str.trim p))
         (Str.split "," (MEMBERSHIP_PRODUCT_FILTER w))
  else [].

(** [filterProducts.some(p => orderTitle.includes(p))] *)
Definition isMatch (w : world) (orderTitle : string) : bool :=
  existsb (fun p => Str.includes orderTitle p) (filterProducts w).

Definition displayName (order : value) : string :=
  Str.trim (js_String (or_else (prop order "firstName") (VStr "")) +:+ " "
            +:+ js_String (or_else (prop order "lastName") (VStr ""))).

Definition memberData (w : world) (orderId : string) (order : value)
    (certificateCode : string) : value :=
  VObj [ ("programId", match PASSKIT_PROGRAM_ID w with
                       | Some p => VStr p
                       | None => VUndefined
                       end);
         ("tierId", VStr "membership");
         ("externalId", VStr certificateCode);
         ("person", VObj
            ([ ("forename", or_else (prop order "firstName") (VStr ""));
               ("surname", or_else (prop order "lastName") (VStr ""));
               ("emailAddress", or_else (prop order "email") (VStr ""));
               ("displayName", VStr (displayName order)) ]
             ++ (if truthy (prop order "phone")
                 then [ ("mobileNumber", prop order "phone") ]
                 else [])));
         ("metaData", VObj
            [ ("acuityOrderId", VStr orderId);
              ("certificateCode", VStr certificateCode);
              ("membershipType", or_else (prop order "title") (VStr ""));
              ("signupDate", VStr (now w)) ]) ].

Section Enroll.

Variable w : world.

(** Step 1: the order fetch, with its [try]/[catch]. *)
Definition fetchOrder (orderId : string) : M value :=
  try_catch
    (order <- acuityGet w ("/orders/" +:+ orderId) ;;
     if nullish order
     then throw (Error "Cannot read properties of null (reading 'firstName')")
     else
       appendLog info ("Fetched order #" +:+ orderId +:+ " from Acuity")
         (VObj [ ("name", VStr (js_String (prop order "firstName") +:+ " "
                                +:+ js_String (prop order "lastName")));
                 ("email", prop order "email");
                 ("title", prop order "title") ]) ;;;
       ret order)
    (fun err =>
       appendLog error
         ("Failed to fetch order #" +:+ orderId +:+ " from Acuity")
         (VStr (message err)) ;;;
       throw err).

(** Steps 3 and 4: build the member record and upsert it. *)
Definition enrol (orderId : string) (order : value)
    (certificateCode : string) : M order_result :=
  let data := memberData w orderId order certificateCode in
  appendLog info
    ("Creating PassKit member for " +:+ displayName order +:+ "...")
    (VObj [ ("email", or_else (prop order "email") (VStr ""));
            ("externalId", VStr certificateCode);
            ("membership", or_else (prop order "title") (VStr "")) ]) ;;;
  try_catch
    (response <- passKitRequest w PUT "/members/member" data ;;
     storeCertificateOrderMapping w (VStr certificateCode) orderId ;;;
     appendLog info "Successfully created PassKit member!"
       (VObj [ ("passKitId", or_else (prop response "id") response);
               ("name", VStr (displayName order));
               ("email", or_else (prop order "email") (VStr "")) ]) ;;;
     ret (Enrolled (or_else (prop response "id") response)
            (displayName order)))
    (fun err =>
       appendLog error "Failed to create PassKit member"
         (or_else (response_data err) (VStr (message err))) ;;;
       throw err).

(** What follows the product filter: extraction, classification, and the
    cancellation flow or the enrolment. *)
Definition reconcile (orderId : string) (order : value) : M order_result :=
  match extractCertificateCode order with
  | None =>
      appendLog error
        ("Order #" +:+ orderId +:+ " is missing a valid certificate code")
        (VObj [ ("expectedFormat", VStr "8 alphanumeric characters") ]) ;;;
      throw (Error
        "Missing or invalid Acuity certificate code (expected 8 alphanumeric characters)")
  | Some extractedCertificateCode =>
      let certificateCode :=
        normalizeCertificateCode (VStr extractedCertificateCode) in
      match evaluateOrderActivity order with
      | Inactive why =>
        appendLog warn
          ("Order #" +:+ orderId
           +:+ " appears inactive/cancelled. Running cancellation flow.")
          (VObj [ ("reason", VStr why);
                  ("certificateCode", VStr certificateCode) ]) ;;;
        cancellationResult <-
          cancelMembershipByCertificateCode w (VStr certificateCode)
            (Context (VStr orderId) (VStr why) (VStr "order.reprocess")) ;;
        ret (Skipped why (Some cancellationResult))
      | Active => enrol orderId order certificateCode
      end
  end.

Definition processNewMembershipOrder (orderId : string) : M order_result :=
  appendLog info ("Processing order #" +:+ orderId +:+ "...") VNull ;;;
  order <- fetchOrder orderId ;;
  match filterProducts w with
  | [] => reconcile orderId order
  | _ =>
      match or_else (prop order "title") (VStr "") with
      | VStr title =>
          let orderTitle := Str.toLowerCase title in
          if negb (isMatch w orderTitle)
          then
            appendLog info
              ("Order #" +:+ orderId +:+ " doesn't match filter. Skipping.")
              (VObj [ ("orderTitle", prop order "title");
                      ("filter", VStr (MEMBERSHIP_PRODUCT_FILTER w)) ]) ;;;
            ret (Skipped "Product filter mismatch" None)
          else reconcile orderId order
      | _ =>
          throw (Error "(order.title || '').toLowerCase is not a function")
      end
  end.

End Enroll.

(** ** Vocabulary of the statements *)

(** Measures of the traversal: the weight of the entries of an object and
    of the stack, for a weight [wt] of the nodes. *)
Definition entries_weight {V : Type} (wt : V -> nat)
    (es : list (string * V)) : nat :=
  list_sum (List.map (fun e => wt (snd e)) es).

Definition stack_weight {V : Type} (wt : V -> nat) (stack : list V) : nat :=
  list_sum (List.map wt stack).

(** A string that does not start with white space. *)
Definition headed (s : string) : Prop :=
  match s with
  | EmptyString => True
  | String a _ => Str.is_white a = false
  end.

(** The warning logged before the delete fallback. *)
Definition fallbackWarning (externalId : string) (member : member_ref)
    (statusErr : js_error) : event :=
  Log warn "PassKit status update to CANCELLED failed, trying delete fallback"
    (fallbackData externalId member statusErr).

(** The entry logged at the end of a cancellation. *)
Definition cancellationLog (code : string) (d : deactivation) (ctx : context)
  : event :=
  Log info "Membership cancellation processed" (cancellationData code d ctx).

(** A certificate code as it is used downstream: 8 characters, each an
    upper-case letter or a digit. *)
Definition code_shape (c : string) : Prop :=
  String.length c = 8
  /\ Str.forallb (fun a => Str.is_upper a || Str.is_digit a) c = true.

Definition mappingKey (code : string) : string :=
  CERT_TO_ORDER_KEY_PREFIX +:+ code.

(** Wherever an event carries a certificate code, the code is well shaped:
    the external id of a wallet upsert, the id looked up or searched for in
    the wallet, the key of a store command. *)
Definition uses_valid_code (w : world) (e : event) : Prop :=
  match e with
  | PassKit PUT _ data =>
      exists c, prop data "externalId" = VStr c /\ code_shape c
  | PassKit GET endpoint _ =>
      exists c, endpoint = directEndpoint w c /\ code_shape c
  | PassKit POST _ data =>
      exists filterField c, data = listPayload filterField c /\ code_shape c
  | Redis (RedisSet key _ _) | Redis (RedisGet key) | Redis (RedisDel key) =>
      exists c, key = mappingKey c /\ code_shape c
  | _ => True
  end.

(** The same for the commands of the store alone. *)
Definition valid_store_call (e : event) : Prop :=
  match e with
  | Redis (RedisSet key _ _) | Redis (RedisGet key) | Redis (RedisDel key) =>
      exists c, key = mappingKey c /\ code_shape c
  | _ => False
  end.

(** An enrolment upsert: a [PUT /members/member] of a member record, which
    carries the tier. *)
Definition is_enrollment_upsert (e : event) : bool :=
  match e with
  | PassKit PUT endpoint data =>
      String.eqb endpoint "/members/member" && negb (nullish (prop data "tierId"))
  | _ => false
  end.

Definition is_wallet_call (e : event) : bool :=
  match e with
  | PassKit _ _ _ => true
  | _ => false
  end.

Definition is_store_call (e : event) : bool :=
  match e with
  | Redis _ => true
  | _ => false
  end.

(** Every event that a computation adds to the trace satisfies [P]. *)
Definition emits_only {A : Type} (P : event -> Prop) (m : M A) : Prop :=
  forall s, exists evs, trace (snd (m s)) = trace s ++ evs /\ Forall P evs.

(** What an answer of the wallet provider yields to the resolver: nothing
    when the request threw or the payload holds no member. *)
Definition produces (answer : js_error + value) : option member_ref :=
  match answer with
  | inl _ => None
  | inr data => parseMemberRefFromPayload data
  end.

(** The order passes the product filter: none is configured, or the title
    contains one of its entries. *)
Definition passes_filter (w : world) (order : value) : Prop :=
  filterProducts w = []
  \/ exists title, or_else (prop order "title") (VStr "") = VStr title
                   /\ isMatch w (Str.toLowerCase title) = true.

(** The log entries of [processNewMembershipOrder]. *)
Definition processingLog (orderId : string) : event :=
  Log info ("Processing order #" +:+ orderId +:+ "...") VNull.

Definition fetchedLog (orderId : string) (order : value) : event :=
  Log info ("Fetched order #" +:+ orderId +:+ " from Acuity")
    (VObj [ ("name", VStr (js_String (prop order "firstName") +:+ " "
                           +:+ js_String (prop order "lastName")));
            ("email", prop order "email");
            ("title", prop order "title") ]).

Definition mismatchLog (w : world) (orderId : string) (order : value) : event :=
  Log info ("Order #" +:+ orderId +:+ " doesn't match filter. Skipping.")
    (VObj [ ("orderTitle", prop order "title");
            ("filter", VStr (MEMBERSHIP_PRODUCT_FILTER w)) ]).

Definition inactiveLog (orderId why certificateCode : string) : event :=
  Log warn
    ("Order #" +:+ orderId
     +:+ " appears inactive/cancelled. Running cancellation flow.")
    (VObj [ ("reason", VStr why); ("certificateCode", VStr certificateCode) ]).

Definition missingCodeLog (orderId : string) : event :=
  Log error ("Order #" +:+ orderId +:+ " is missing a valid certificate code")
    (VObj [ ("expectedFormat", VStr "8 alphanumeric characters") ]).

(** ** A sample deployment

    A wallet that holds one member, found by the [externalId] search only,
    refuses to set a member's status and forgets the member once it has
    been deleted; a booking system with three orders; a store that holds
    the mapping of the member's code. *)
Module Sample.

Definition member : value :=
  VObj [ ("id", VStr "pk_1");
         ("externalId", VStr "AB12CD34");
         ("person", VObj [ ("emailAddress", VStr "t@example.com") ]) ].

Definition http_error (status : string) : js_error :=
  JsError ("Request failed with status code " +:+ status)
          (VObj [ ("error", VStr status) ]).

Definition deleted (history : list event) : bool :=
  existsb (fun e => match e with
                    | PassKit DELETE _ _ => true
                    | _ => false
                    end) history.

(** The [filterField] of a search payload. *)
Definition filterFieldOf (payload : value) : value :=
  match prop (prop payload "filters") "filterGroups" with
  | VArr (group :: _) =>
      match prop group "fieldFilters" with
      | VArr (f :: _) => prop f "filterField"
      | _ => VUndefined
      end
  | _ => VUndefined
  end.

Definition wallet (history : list event) (m : http_method)
    (endpoint : string) (data : value) : js_error + value :=
  match m with
  | GET => inl (http_error "404")
  | POST =>
      match filterFieldOf data with
      | VStr "externalId" =>
          if deleted history then inr (VObj [ ("members", VArr []) ])
          else inr (VObj [ ("members", VArr [ member ]) ])
      | _ => inr (VObj [ ("members", VArr []) ])
      end
  | PUT =>
      match prop data "status" with
      | VStr "CANCELLED" => inl (http_error "400")
      | _ => inr (VObj [ ("id", VStr "pk_2") ])
      end
  | DELETE => inr (VObj [])
  end.

Definition cancelledOrder : value :=
  VObj [ ("id", VNum 42);
         ("firstName", VStr "Tina");
         ("lastName", VStr "Cevizovic");
         ("email", VStr "t@example.com");
         ("title", VStr "Gold Membership");
         ("certificateCode", VStr "ab12cd34");
         ("status", VStr "cancelled") ].

Definition trialOrder : value :=
  VObj [ ("id", VNum 7); ("title", VStr "Trial Class") ].

Definition platinumOrder : value :=
  VObj [ ("id", VNum 8);
         ("title", VStr "Platinum Annual Membership");
         ("certificateCode", VStr "ZZ99YY88") ].

Definition booking (history : list event) (path : string)
  : js_error + value :=
  if String.eqb path "/orders/42" then inr cancelledOrder
  else if String.eqb path "/orders/7" then inr trialOrder
  else if String.eqb path "/orders/8" then inr platinumOrder
  else inl (http_error "404").

(** The store client of the sample runs.  It reads a stored decimal
    numeral of at most 15 digits (a safe integer), without a leading zero,
    as the number, and [true], [false] and [null] as the constants, as
    JSON does; the runs store no other JSON text, and any other string is
    handed back as it is. *)
Definition is_numeral (s : string) : bool :=
  Str.nonempty s && Str.forallb Str.is_digit s
  && (String.length s <=? 15)%nat
  && match s with
     | String "0" (String _ _) => false
     | _ => true
     end.

Fixpoint numeral_value (acc : Z) (s : string) : Z :=
  match s with
  | EmptyString => acc
  | String a s' =>
      numeral_value (10 * acc + Z.of_nat (nat_of_ascii a - 48)) s'
  end.

Definition client_reads (raw : string) : value :=
  if is_numeral raw then VNum (numeral_value 0 raw)
  else if String.eqb raw "true" then VBool true
  else if String.eqb raw "false" then VBool false
  else if String.eqb raw "null" then VNull
  else VStr raw.

Definition deployment : world :=
  {| PASSKIT_PROGRAM_ID := Some "prog1";
     MEMBERSHIP_PRODUCT_FILTER := "gold,platinum";
     redis_configured := true;
     now := "2026-01-01T00:00:00.000Z";
     acuity := booking;
     passkit := wallet;
     redis_fails := fun _ _ => false;
     deserialize := client_reads |}.

Definition start : state :=
  {| store := {[ mappingKey "AB12CD34" := "42" ]}; trace := [] |}.

Definition manual : context :=
  Context VUndefined (VStr "Manual cancellation request")
          (VStr "manual.cancel").

(** The state left by a first cancellation of the member's code. *)
Definition afterCancel : state :=
  snd (cancelMembershipByCertificateCode deployment (VStr "AB12CD34")
         manual start).

End Sample.

(** ** The classification rules, as the specification words them *)

(** Rule 1: one of the cancellation flags is truthy. *)
Definition rule_flag (order : value) : Prop :=
  exists flag, In flag cancellationFlags
               /\ isTruthyFlag (prop order flag) = true.

(** Rule 2: [active === false] or [isActive === false]. *)
Definition rule_marked (order : value) : Prop :=
  prop order "active" = VBool false \/ prop order "isActive" = VBool false.

(** A status value that indicates a terminal state: trimmed and in lower
    case it is one of the keywords, or contains "cancel" or "expire". *)
Definition indicates_inactive (v : value) : Prop :=
  exists s, v = VStr s
            /\ status_is_inactive (Str.toLowerCase (Str.trim s)) = true.

(** Rule 3: one of the status fields indicates a terminal state. *)
Definition rule_status (order : value) : Prop :=
  exists k, In k [ "status"; "orderStatus"; "subscriptionStatus";
                   "membershipStatus" ]
            /\ indicates_inactive (prop order k).

(** ** The rest of the module and its callers *)

(** [parseBoolean(value, fallback)] *)
Definition parseBoolean (v : value) (fallback : bool) : bool :=
  match v with
  | VBool b => b
  | VNum n => negb (n =? 0)%Z
  | VStr s =>
      let normalized := Str.toLowerCase (Str.trim s) in
      if existsb (String.eqb normalized) [ "true"; "1"; "yes"; "on"; "enabled" ]
      then true
      else if existsb (String.eqb normalized)
                [ "false"; "0"; "no"; "off"; "disabled" ]
      then false
      else fallback
  | _ => fallback
  end.

(** [parseToggleValue(value)] of the toggle endpoint; [None] is its null. *)
Definition parseToggleValue (v : value) : option bool :=
  match v with
  | VBool b => Some b
  | VStr s =>
      let normalized := Str.toLowerCase (Str.trim s) in
      if existsb (String.eqb normalized) [ "true"; "1"; "yes"; "on"; "enabled" ]
      then Some true
      else if existsb (String.eqb normalized)
                [ "false"; "0"; "no"; "off"; "disabled" ]
      then Some false
      else None
  | _ => None
  end.

(** Result of [processMembershipCancellation]:
    [{ skipped: true, reason }] or the result of the cancellation. *)
Inductive cancel_order_result : Type :=
| NotCancelled (reason : string)
| Cancelled (c : cancellation).

Definition cancellationFetchedData (order : value) : value :=
  VObj [ ("name", VStr (Str.trim
                          (js_String (or_else (prop order "firstName") (VStr ""))
                           +:+ " "
                           +:+ js_String (or_else (prop order "lastName")
                                            (VStr "")))));
         ("email", or_else (prop order "email") VNull);
         ("status", or_else (or_else (prop order "status")
                                     (prop order "orderStatus")) VNull);
         ("title", or_else (prop order "title") VNull) ].

Section CancelOrder.

Variable w : world.

Definition processMembershipCancellation (orderId : string) (ctx : context)
  : M cancel_order_result :=
  appendLog info ("Processing cancellation for order #" +:+ orderId +:+ "...")
    (VObj [ ("sourceAction", or_else (sourceAction ctx) VNull) ]) ;;;
  order <-
    try_catch
      (order <- acuityGet w ("/orders/" +:+ orderId) ;;
       if nullish order
       then throw (Error "Cannot read properties of null (reading 'firstName')")
       else
         appendLog info
           ("Fetched cancellation order #" +:+ orderId +:+ " from Acuity")
           (cancellationFetchedData order) ;;;
         ret order)
      (fun err =>
         appendLog error
           ("Failed to fetch cancellation order #" +:+ orderId +:+ " from Acuity")
           (VStr (message err)) ;;;
         throw err) ;;
  match extractCertificateCode order with
  | None =>
      appendLog warn
        ("No certificate code found for cancellation order #" +:+ orderId
         +:+ "; skipping PassKit update") VNull ;;;
      ret (NotCancelled "No certificate code on order")
  | Some certificateCode =>
      c <- cancelMembershipByCertificateCode w (VStr certificateCode)
             (Context (VStr orderId)
                (or_else (reason ctx) (VStr "Acuity cancellation event"))
                (or_else (sourceAction ctx) VNull)) ;;
      ret (Cancelled c)
  end.

End CancelOrder.

(** *** The manual endpoints *)

(** The objects handed to [res.json]. *)
Definition cancellation_json (c : cancellation) : value :=
  VObj [ ("success", VBool (c_success c));
         ("externalId", VStr (c_externalId c));
         ("method", VStr (c_method c));
         ("passKitId", c_passKitId c) ].

Definition cancel_order_result_json (r : cancel_order_result) : value :=
  match r with
  | NotCancelled reason =>
      VObj [ ("skipped", VBool true); ("reason", VStr reason) ]
  | Cancelled c => cancellation_json c
  end.

Definition order_result_json (r : order_result) : value :=
  match r with
  | Skipped reason None =>
      VObj [ ("skipped", VBool true); ("reason", VStr reason) ]
  | Skipped reason (Some c) =>
      VObj [ ("skipped", VBool true); ("reason", VStr reason);
             ("cancellationResult", cancellation_json c) ]
  | Enrolled passKitId member =>
      VObj [ ("success", VBool true); ("passKitId", passKitId);
             ("member", VStr member) ]
  end.

(** [req.method] and [req.query] of a request. *)
Record request : Type := Request {
  req_method : string;
  query : value
}.

(** [res.status(code).json(body)] *)
Record response : Type := Response {
  status : Z;
  body : value
}.

(** [typeof req.query.name === 'string' ? req.query.name.trim() : ''] *)
Definition query_param (req : request) (name : string) : string :=
  match prop (query req) name with
  | VStr s => Str.trim s
  | _ => ""
  end.

Definition manualContext : context :=
  Context VUndefined (VStr "Manual cancellation request") (VStr "manual.cancel").

(** [api/cancel-membership.js].  The helpers module exports the three
    functions the handler looks up, so its branches for a missing helper
    are not taken. *)
Module CancelMembership.

Definition looksLikeCertificateCode (v : value) : bool :=
  match v with
  | VStr s => matches_code (Str.trim s)
  | _ => false
  end.

Definition handler (w : world) (req : request) : M response :=
  if negb (String.eqb (req_method req) "POST")
  then ret (Response 405 (VObj [ ("error", VStr "Method not allowed") ]))
  else
    let rawOrderId := query_param req "orderId" in
    let rawCertificateCode := query_param req "certificateCode" in
    try_catch
      (if Str.nonempty rawCertificateCode
          || looksLikeCertificateCode (VStr rawOrderId)
       then
         let certificateCode :=
           Str.toUpperCase (if Str.nonempty rawCertificateCode
                            then rawCertificateCode else rawOrderId) in
         result <- cancelMembershipByCertificateCode w (VStr certificateCode)
                     manualContext ;;
         ret (Response 200
                (VObj [ ("status", VStr "ok");
                        ("result", cancellation_json result) ]))
       else if Str.nonempty rawOrderId
       then
         result <- processMembershipCancellation w rawOrderId manualContext ;;
         ret (Response 200
                (VObj [ ("status", VStr "ok");
                        ("orderId", VStr rawOrderId);
                        ("result", cancel_order_result_json result) ]))
       else
         ret (Response 400
                (VObj [ ("error",
                         VStr "Missing orderId or certificateCode query parameter") ])))
      (fun err =>
         ret (Response 500
                (VObj [ ("status", VStr "error");
                        ("message", VStr (message err)) ]))).

End CancelMembership.

(** [api/process-order.js] *)
Module ProcessOrder.

Definition is_letter (a : ascii) : bool := Str.is_upper a || Str.is_lower a.

Fixpoint has_letter (s : string) : bool :=
  match s with
  | EmptyString => false
  | String a s' => is_letter a || has_letter s'
  end.

(** [/^(?=.*[A-Za-z])[A-Za-z0-9]{8}$/.test(value.trim())]: a purely numeric
    order id is not taken for a certificate code. *)
Definition looksLikeCertificateCode (v : value) : bool :=
  match v with
  | VStr s => has_letter (Str.trim s) && matches_code (Str.trim s)
  | _ => false
  end.

Definition handler (w : world) (req : request) : M response :=
  if negb (String.eqb (req_method req) "POST")
  then ret (Response 405 (VObj [ ("error", VStr "Method not allowed") ]))
  else
    let rawOrderId := query_param req "orderId" in
    let rawCertificateCode := query_param req "certificateCode" in
    let certificateCode :=
      if Str.nonempty rawCertificateCode then rawCertificateCode
      else if looksLikeCertificateCode (VStr rawOrderId) then rawOrderId
      else "" in
    let process (orderId : string) (resolvedBy : list (string * value))
      : M response :=
      try_catch
        (result <- processNewMembershipOrder w orderId ;;
         ret (Response 200
                (VObj ([ ("status", VStr "ok"); ("orderId", VStr orderId) ]
                       ++ resolvedBy
                       ++ [ ("result", order_result_json result) ]))))
        (fun err =>
           ret (Response 500
                  (VObj [ ("status", VStr "error");
                          ("message", VStr (message err)) ]))) in
    if Str.nonempty certificateCode
    then
      resolved <- resolveOrderIdByCertificateCode w (VStr certificateCode) ;;
      match resolved with
      | None =>
          ret (Response 404
                 (VObj [ ("error",
                          VStr "Could not resolve orderId from certificate code yet. Try after the order is processed once via webhook.") ]))
      | Some orderId =>
          process orderId [ ("resolvedBy", VStr "certificateCode") ]
      end
    else if negb (Str.nonempty rawOrderId)
    then ret (Response 400
                (VObj [ ("error",
                         VStr "Missing orderId or certificateCode query parameter") ]))
    else process rawOrderId [].

End ProcessOrder.

(** *** The webhook receiver

    [api/webhook.js].  What the receiver takes from outside this code is a
    parameter: the parser of the form-encoded body ([querystring.parse])
    and the keyed hash of the signature check (HMAC-SHA256 in base 64, of
    the [crypto] module), with the API key the check reads from the
    configuration. *)
Record webhook_env : Type := WebhookEnv {
  ACUITY_API_KEY : option string;
  parse : string -> value;
  hmac : string -> string -> string
}.

(** [req.method], the raw body ([None] when reading it failed) and the
    [x-acuity-signature] header. *)
Record webhook_request : Type := WebhookRequest {
  wh_method : string;
  wh_rawBody : option string;
  wh_signature : value
}.

Definition verifyAcuitySignature (env : webhook_env) (rawBody : string)
    (signature : value) : bool :=
  match ACUITY_API_KEY env with
  | Some key =>
      if negb (Str.nonempty key) || negb (truthy signature) then false
      else match signature with
           | VStr given => String.eqb (hmac env key rawBody) given
           | _ => false
           end
  | None => false
  end.

Module Webhook.

Definition isOrderCompleted (action : string) : bool :=
  String.eqb action "order.completed".

Definition isOrderCancellation (action : string) : bool :=
  String.eqb action "order.cancelled" || String.eqb action "order.canceled".

(** [String(body.action || '').trim().toLowerCase()] *)
Definition actionOf (body : value) : string :=
  Str.toLowerCase (Str.trim (js_String (or_else (prop body "action") (VStr "")))).

Definition received (body : value) : event :=
  Log info "Received Acuity webhook"
    (VObj [ ("action", prop body "action"); ("id", prop body "id") ]).

Definition ok (orderId result : value) : response :=
  Response 200 (VObj [ ("status", VStr "ok"); ("orderId", orderId);
                       ("result", result) ]).

Definition errored (orderId : value) (err : js_error) : response :=
  Response 200 (VObj [ ("status", VStr "error"); ("orderId", orderId);
                       ("error", VStr (message err)) ]).

(** The processing of a recognized event.  The order id reaches the two
    protocols as the string it prints to, which is how they use it. *)
Definition dispatch (w : world) (action : string) (orderId : value)
  : M response :=
  try_catch
    (if isOrderCancellation action
     then
       result <- processMembershipCancellation w (js_String orderId)
                   (Context VUndefined VUndefined (VStr action)) ;;
       ret (ok orderId (cancel_order_result_json result))
     else
       result <- processNewMembershipOrder w (js_String orderId) ;;
       ret (ok orderId (order_result_json result)))
    (fun err =>
       appendLog error ("Error processing order #" +:+ js_String orderId)
         (VStr (message err)) ;;;
       ret (errored orderId err)).

Definition handler (env : webhook_env) (w : world) (req : webhook_request)
  : M response :=
  if negb (String.eqb (wh_method req) "POST")
  then ret (Response 405 (VObj [ ("error", VStr "Method not allowed") ]))
  else
    match wh_rawBody req with
    | None =>
        ret (Response 400
               (VObj [ ("error", VStr "Could not read request body") ]))
    | Some rawBody =>
        let body := parse env rawBody in
        appendLog info "Received Acuity webhook"
          (VObj [ ("action", prop body "action"); ("id", prop body "id") ]) ;;;
        let signature := wh_signature req in
        if truthy signature
           && negb (verifyAcuitySignature env rawBody signature)
        then
          appendLog error "Invalid Acuity webhook signature" VNull ;;;
          ret (Response 401 (VObj [ ("error", VStr "Invalid signature") ]))
        else
          let action := actionOf body in
          if negb (Str.nonempty action)
          then
            appendLog warn "Ignoring webhook with missing action" VNull ;;;
            ret (Response 200
                   (VObj [ ("status", VStr "ignored");
                           ("reason", VStr "missing_action") ]))
          else if negb (isOrderCompleted action)
                  && negb (isOrderCancellation action)
          then
            appendLog info
              ("Ignoring webhook action: " +:+ js_String (prop body "action"))
              VNull ;;;
            ret (Response 200
                   (VObj [ ("status", VStr "ignored");
                           ("action", prop body "action") ]))
          else
            let orderId := prop body "id" in
            if negb (truthy orderId)
            then
              appendLog error "No order ID in webhook payload" VNull ;;;
              ret (Response 400 (VObj [ ("error", VStr "Missing order ID") ]))
            else dispatch w action orderId
    end.

(** A receiver whose parser knows two bodies. *)
Definition sampleEnv : webhook_env :=
  {| ACUITY_API_KEY := Some "secret";
     parse := fun rawBody =>
       if String.eqb rawBody "action=order.completed&id=8"
       then VObj [ ("action", VStr "order.completed"); ("id", VStr "8") ]
       else if String.eqb rawBody "action=%20Order.Canceled&id=8"
       then VObj [ ("action", VStr " Order.Canceled"); ("id", VStr "8") ]
       else VObj [];
     hmac := fun key rawBody => key +:+ "|" +:+ rawBody |}.

End Webhook.

(** ** Vocabulary of the further statements *)

Definition is_log (e : event) : bool :=
  match e with
  | Log _ _ _ => true
  | _ => false
  end.

(** A webhook request whose signature check lets it through: it carries no
    signature, or one that verifies. *)
Definition signature_passes (env : webhook_env) (rawBody : string)
    (signature : value) : Prop :=
  truthy signature = false
  \/ verifyAcuitySignature env rawBody signature = true.


(** An entry [key: s] with a string value in some object of a payload, at
    any depth, through objects and arrays. *)
Inductive found_at (key s : string) : value -> Prop :=
| found_here (fs : list (string * value)) :
    In (key, VStr s) fs -> found_at key s (VObj fs)
| found_in_field (fs : list (string * value)) (k : string) (x : value) :
    In (k, x) fs -> found_at key s x -> found_at key s (VObj fs)
| found_in_item (items : list value) (x : value) :
    In x items -> found_at key s x -> found_at key s (VArr items).

(** A computation changes the mapping store at the keys [keys] at most. *)
Definition writes_only {A : Type} (keys : list string) (m : M A) : Prop :=
  forall s k, ~ In k keys -> store (snd (m s)) !! k = store s !! k.

(** A store whose backend accepts every command. *)
Definition store_up (w : world) : Prop :=
  redis_configured w = true
  /\ forall history c, redis_fails w history c = false.

(** A stored string that the store client hands back as a value that
    prints to the same string: the string itself, or the number that it is
    the numeral of. *)
Definition reads_back (w : world) (o : string) : Prop :=
  truthy (deserialize w o) = true
  /\ String_throws (deserialize w o) = false
  /\ js_String (deserialize w o) = o.

Definition creatingLog (order : value) (certificateCode : string) : event :=
  Log info ("Creating PassKit member for " +:+ displayName order +:+ "...")
    (VObj [ ("email", or_else (prop order "email") (VStr ""));
            ("externalId", VStr certificateCode);
            ("membership", or_else (prop order "title") (VStr "")) ]).

Definition createdLog (order response : value) : event :=
  Log info "Successfully created PassKit member!"
    (VObj [ ("passKitId", or_else (prop response "id") response);
            ("name", VStr (displayName order));
            ("email", or_else (prop order "email") (VStr "")) ]).

Definition createFailedLog (err : js_error) : event :=
  Log error "Failed to create PassKit member"
    (or_else (response_data err) (VStr (message err))).

(** The log entries of [processMembershipCancellation] and of a failed
    order fetch. *)
Definition cancellationProcessingLog (orderId : string) (ctx : context)
  : event :=
  Log info ("Processing cancellation for order #" +:+ orderId +:+ "...")
    (VObj [ ("sourceAction", or_else (sourceAction ctx) VNull) ]).

Definition cancellationFetchedLog (orderId : string) (order : value) : event :=
  Log info ("Fetched cancellation order #" +:+ orderId +:+ " from Acuity")
    (cancellationFetchedData order).

Definition cancellationFetchFailedLog (orderId : string) (err : js_error)
  : event :=
  Log error
    ("Failed to fetch cancellation order #" +:+ orderId +:+ " from Acuity")
    (VStr (message err)).

Definition noCodeLog (orderId : string) : event :=
  Log warn
    ("No certificate code found for cancellation order #" +:+ orderId
     +:+ "; skipping PassKit update") VNull.

Definition fetchFailedLog (orderId : string) (err : js_error) : event :=
  Log error ("Failed to fetch order #" +:+ orderId +:+ " from Acuity")
    (VStr (message err)).

(** The context that [processMembershipCancellation] hands on. *)
Definition orderContext (orderId : string) (ctx : context) : context :=
  Context (VStr orderId)
    (or_else (reason ctx) (VStr "Acuity cancellation event"))
    (or_else (sourceAction ctx) VNull).

(** The answers of the manual endpoints. *)
Definition notAllowed : response :=
  Response 405 (VObj [ ("error", VStr "Method not allowed") ]).

Definition failed (err : js_error) : response :=
  Response 500 (VObj [ ("status", VStr "error");
                       ("message", VStr (message err)) ]).

Definition cancelledByCode (c : cancellation) : response :=
  Response 200 (VObj [ ("status", VStr "ok");
                       ("result", cancellation_json c) ]).

Definition processed (orderId : string) (resolvedBy : list (string * value))
    (r : order_result) : response :=
  Response 200 (VObj ([ ("status", VStr "ok"); ("orderId", VStr orderId) ]
                      ++ resolvedBy
                      ++ [ ("result", order_result_json r) ])).


(** A request of the manual endpoints. *)
Definition post (params : list (string * value)) : request :=
  Request "POST" (VObj params).

(** Two more deployments: a wallet that accepts every request and answers
    a lookup with the member, and one that finds the member but refuses
    every write. *)
Module Lenient.

Definition wallet (history : list event) (m : http_method)
    (endpoint : string) (data : value) : js_error + value :=
  match m with
  | GET | POST => inr (VObj [ ("member", Sample.member) ])
  | PUT => inr (VObj [ ("id", VStr "pk_1") ])
  | DELETE => inr (VObj [])
  end.

Definition deployment : world :=
  {| PASSKIT_PROGRAM_ID := Some "prog1";
     MEMBERSHIP_PRODUCT_FILTER := "";
     redis_configured := true;
     now := "2026-01-01T00:00:00.000Z";
     acuity := Sample.booking;
     passkit := wallet;
     redis_fails := fun _ _ => false;
     deserialize := Sample.client_reads |}.

End Lenient.

Module Readonly.

Definition wallet (history : list event) (m : http_method)
    (endpoint : string) (data : value) : js_error + value :=
  match m with
  | GET | POST => inr (VObj [ ("member", Sample.member) ])
  | PUT | DELETE => inl (Sample.http_error "403")
  end.

Definition deployment : world :=
  {| PASSKIT_PROGRAM_ID := Some "prog1";
     MEMBERSHIP_PRODUCT_FILTER := "";
     redis_configured := true;
     now := "2026-01-01T00:00:00.000Z";
     acuity := Sample.booking;
     passkit := wallet;
     redis_fails := fun _ _ => false;
     deserialize := Sample.client_reads |}.

End Readonly.

(** * Properties *)

(** ** The certificate extractor *)

Lemma matches_code_shape (s : string) :
  matches_code s = true ->
  String.length s = 8 /\ Str.forallb Str.is_alnum s = true.
Proof.
  unfold matches_code. intros H.
  apply andb_prop in H as [Hlen Hal].
  split; [ now apply Nat.eqb_eq | exact Hal ].
Qed.

Section TraversalFacts.

Context {V : Type}.
Variable as_str : V -> option string.
Variable entries : V -> option (list (string * V)).

Lemma first_code_shape (cs : list (option V)) (code : string) :
  first_code as_str cs = Some code -> matches_code code = true.
Proof.
  induction cs as [| c cs IH]; simpl; [ discriminate |].
  destruct c as [v |]; [| exact IH].
  destruct (as_str v) as [s |]; [| exact IH].
  destruct (isCertificateCodeStr s) eqn:Hs; [| exact IH].
  intros [= <-]. exact Hs.
Qed.

Lemma scan_entries_shape (es : list (string * V)) (stack : list V)
    (code : string) :
  scan_entries as_str entries es stack = inl code ->
  matches_code code = true.
Proof.
  revert stack. induction es as [| [key v] es IH]; intros stack; simpl.
  - discriminate.
  - destruct (as_str v) as [s |].
    + destruct (keyLooksRelevant key && isCertificateCodeStr s) eqn:Hk.
      * intros [= <-]. apply andb_prop in Hk. apply Hk.
      * apply IH.
    + destruct (entries v); apply IH.
Qed.

Lemma walk_shape (fuel : nat) (stack : list V) (code : string) :
  walk as_str entries fuel stack = Returned (Some code) ->
  matches_code code = true.
Proof.
  revert stack. induction fuel as [| fuel IH]; intros stack; simpl.
  - discriminate.
  - destruct stack as [| current rest]; [ discriminate |].
    destruct (entries current) as [es |]; [| apply IH].
    destruct (scan_entries as_str entries es rest) as [c | stack'] eqn:Hscan.
    + intros [= <-]. eapply scan_entries_shape, Hscan.
    + apply IH.
Qed.

(** Once the loop has returned, more fuel does not change its result. *)
Lemma walk_more_fuel (fuel fuel' : nat) (stack : list V) (r : option string) :
  walk as_str entries fuel stack = Returned r ->
  fuel <= fuel' ->
  walk as_str entries fuel' stack = Returned r.
Proof.
  revert fuel' stack. induction fuel as [| fuel IH]; intros fuel' stack; simpl.
  - discriminate.
  - intros H Hle. destruct fuel' as [| fuel']; [ lia |]. simpl.
    destruct stack as [| current rest]; [ exact H |].
    destruct (entries current) as [es |].
    + destruct (scan_entries as_str entries es rest); [ exact H |].
      apply IH; [ exact H | lia ].
    + apply IH; [ exact H | lia ].
Qed.

(** A measure under which every object is heavier than its entries
    together: the loop then stops. *)
Variable wt : V -> nat.

Hypothesis wt_pos : forall v, 0 < wt v.
Hypothesis wt_entries :
  forall v es, entries v = Some es -> entries_weight wt es < wt v.

Lemma scan_entries_weight (es : list (string * V)) (stack stack' : list V) :
  scan_entries as_str entries es stack = inr stack' ->
  stack_weight wt stack' <= entries_weight wt es + stack_weight wt stack.
Proof.
  revert stack. induction es as [| [key v] es IH]; intros stack; simpl.
  - intros [= <-]. unfold entries_weight. simpl. lia.
  - unfold entries_weight in *. simpl.
    destruct (as_str v) as [s |].
    + destruct (keyLooksRelevant key && isCertificateCodeStr s);
        [ discriminate |].
      intros H. apply IH in H. lia.
    + destruct (entries v).
      * intros H. apply IH in H. unfold stack_weight in *. simpl in H. lia.
      * intros H. apply IH in H. lia.
Qed.

Lemma walk_terminates (fuel : nat) (stack : list V) :
  stack_weight wt stack < fuel ->
  exists r, walk as_str entries fuel stack = Returned r.
Proof.
  revert stack. induction fuel as [| fuel IH]; intros stack Hlt; [ lia |].
  simpl. destruct stack as [| current rest]; [ now exists None |].
  unfold stack_weight in Hlt. simpl in Hlt.
  destruct (entries current) as [es |] eqn:Hes.
  - destruct (scan_entries as_str entries es rest) as [c | stack'] eqn:Hscan.
    + now exists (Some c).
    + apply IH. apply scan_entries_weight in Hscan.
      apply wt_entries in Hes. unfold stack_weight in *. lia.
  - apply IH. specialize (wt_pos current). unfold stack_weight. lia.
Qed.

End TraversalFacts.

Lemma indexed_weight (i : nat) (items : list value) :
  entries_weight weight (indexed i items) = list_sum (List.map weight items).
Proof.
  revert i. induction items as [| x xs IH]; intros i; [ reflexivity |].
  unfold entries_weight in *. simpl. now rewrite IH.
Qed.

Lemma weight_entries (v : value) (es : list (string * value)) :
  entries_of v = Some es -> entries_weight weight es < weight v.
Proof.
  destruct v as [| | b | n | s | items | fs]; simpl; try discriminate.
  - intros [= <-]. rewrite indexed_weight. lia.
  - intros [= <-]. unfold entries_weight.
    enough (List.map (fun e : string * value => weight (snd e)) fs
            = List.map (fun '(_, x) => weight x) fs) as -> by lia.
    apply map_ext. now intros [k x].
Qed.

Lemma extract_fuel_enough (order : value) (fuel : nat) :
  weight order < fuel ->
  exists r, extract_run as_string entries_of fuel order = Returned r.
Proof.
  intros Hlt. unfold extract_run.
  destruct (first_code as_string (directCandidates entries_of order)).
  - eauto.
  - apply walk_terminates with (wt := weight);
      [ intros v; destruct v; simpl; lia
      | apply weight_entries
      | unfold stack_weight; simpl; lia ].
Qed.

Lemma extract_run_shape (fuel : nat) (order : value) (code : string) :
  extract_run as_string entries_of fuel order = Returned (Some code) ->
  matches_code code = true.
Proof.
  unfold extract_run.
  destruct (first_code as_string (directCandidates entries_of order)) eqn:Hd.
  - intros [= <-]. eapply first_code_shape, Hd.
  - apply walk_shape.
Qed.

Lemma extract_run_more_fuel (fuel fuel' : nat) (order : value)
    (r : option string) :
  extract_run as_string entries_of fuel order = Returned r ->
  fuel <= fuel' ->
  extract_run as_string entries_of fuel' order = Returned r.
Proof.
  unfold extract_run.
  destruct (first_code as_string (directCandidates entries_of order));
    [ trivial | apply walk_more_fuel ].
Qed.

Lemma extractCertificateCode_shape (order : value) (code : string) :
  extractCertificateCode order = Some code -> matches_code code = true.
Proof.
  unfold extractCertificateCode.
  destruct (extract_run as_string entries_of (S (weight order)) order)
    as [| r] eqn:Hrun; [ discriminate |].
  intros ->. eapply extract_run_shape, Hrun.
Qed.

(** C1, as amended.  On every payload tree (whatever its shape: a
    primitive, an array, objects nested to any depth) the loop of
    [extractCertificateCode] returns within a number of iterations bounded
    by the size of the payload, with the same result for every larger
    bound, and that result is either null or a string of exactly 8
    alphanumeric characters.  The embedding has no throwing step. *)
Theorem extractCertificateCode_tree_total (order : value) :
  exists r : option string,
    (forall fuel, weight order < fuel ->
       extract_run as_string entries_of fuel order = Returned r)
    /\ extractCertificateCode order = r
    /\ match r with
       | None => True
       | Some code =>
           String.length code = 8 /\ Str.forallb Str.is_alnum code = true
       end.
Proof.
  destruct (extract_fuel_enough order (S (weight order))) as [r Hr]; [ lia |].
  exists r. split; [| split ].
  - intros fuel Hlt. eapply extract_run_more_fuel; [ exact Hr | lia ].
  - unfold extractCertificateCode. now rewrite Hr.
  - destruct r as [code |]; [| exact I].
    apply matches_code_shape. eapply extract_run_shape, Hr.
Qed.

Lemma self_loop_walk (fuel : nat) :
  walk Graph.as_string (Graph.entries_of Graph.self_loop) fuel [Graph.RObj 0]
  = Running.
Proof.
  induction fuel as [| fuel IH]; [ reflexivity | exact IH ].
Qed.

(** C1, counterexample.  On the object that refers to itself
    ([o.self = o]) no number of iterations makes the loop return: each
    iteration pops [o] and pushes it again. *)
Lemma extractCertificateCode_cyclic_diverges :
  ~ exists fuel r,
      Graph.extract_run Graph.self_loop fuel (Graph.RObj 0) = Returned r.
Proof.
  intros (fuel & r & H).
  unfold Graph.extract_run, extract_run in H. simpl in H.
  rewrite self_loop_walk in H. discriminate.
Qed.

(** ** The order activity classifier *)

Lemma isTruthyFlag_number (n : Z) : isTruthyFlag (VNum n) = true <-> n = 1%Z.
Proof. simpl. apply Z.eqb_eq. Qed.

(** The flag loop returns the first truthy flag of its list. *)
Lemma first_truthy_flag_Some (order : value) (flags : list string) (g : string) :
  first_truthy_flag order flags = Some g <->
  exists pre post,
    flags = pre ++ g :: post
    /\ isTruthyFlag (prop order g) = true
    /\ Forall (fun f => isTruthyFlag (prop order f) = false) pre.
Proof.
  induction flags as [| f flags IH]; simpl.
  - split; [ discriminate |].
    intros (pre & post & H & _). now destruct pre.
  - destruct (isTruthyFlag (prop order f)) eqn:Hf.
    + split.
      * intros [= <-]. exists [], flags. auto.
      * intros (pre & post & H & Hg & Hpre).
        destruct pre as [| f' pre]; simpl in H.
        -- now injection H as -> _.
        -- injection H as <- _. inversion Hpre; congruence.
    + rewrite IH. split.
      * intros (pre & post & -> & Hg & Hpre).
        exists (f :: pre), post. auto.
      * intros (pre & post & H & Hg & Hpre).
        destruct pre as [| f' pre]; simpl in H.
        -- injection H as -> _. congruence.
        -- injection H as <- ->. inversion Hpre; subst. eauto.
Qed.

Lemma first_truthy_flag_None (order : value) (flags : list string) :
  first_truthy_flag order flags = None <->
  Forall (fun f => isTruthyFlag (prop order f) = false) flags.
Proof.
  induction flags as [| f flags IH]; simpl.
  - split; auto.
  - destruct (isTruthyFlag (prop order f)) eqn:Hf.
    + split; [ discriminate |]. inversion 1; congruence.
    + rewrite IH. split; [ auto | now inversion 1 ].
Qed.

Lemma first_truthy_flag_found (order : value) (flags : list string)
    (flag : string) :
  In flag flags -> isTruthyFlag (prop order flag) = true ->
  exists g, first_truthy_flag order flags = Some g.
Proof.
  intros Hin Ht.
  destruct (first_truthy_flag order flags) as [g |] eqn:H; [ eauto |].
  apply first_truthy_flag_None in H.
  rewrite List.Forall_forall in H. specialize (H flag Hin). congruence.
Qed.

(** C2, as amended.  When one of the cancellation flag fields holds the
    number 1, [evaluateOrderActivity] returns inactive and its reason names
    the first truthy flag of the order (the field itself when no flag
    before it is truthy).  1 is the only number that counts as truthy. *)
Theorem evaluateOrderActivity_flag_one (order : value) (flag : string) :
  In flag cancellationFlags ->
  prop order flag = VNum 1 ->
  (exists g pre post,
      cancellationFlags = pre ++ g :: post
      /\ isTruthyFlag (prop order g) = true
      /\ Forall (fun f => isTruthyFlag (prop order f) = false) pre
      /\ evaluateOrderActivity order
         = Inactive ("Acuity order flag " +:+ g +:+ "=true"))
  /\ (forall n, isTruthyFlag (VNum n) = true <-> n = 1%Z).
Proof.
  intros Hin Hone. split; [| apply isTruthyFlag_number ].
  destruct (first_truthy_flag_found order cancellationFlags flag Hin)
    as [g Hg]; [ now rewrite Hone |].
  pose proof Hg as Hfirst.
  apply first_truthy_flag_Some in Hfirst as (pre & post & Hsplit & Ht & Hpre).
  exists g, pre, post. repeat split; try assumption.
  unfold evaluateOrderActivity. now rewrite Hg.
Qed.

Lemma evaluateOrderActivity_flag_one_witness :
  exists g pre post,
    cancellationFlags = pre ++ g :: post
    /\ isTruthyFlag (prop (VObj [("canceled", VNum 1)]) g) = true
    /\ Forall (fun f =>
                 isTruthyFlag (prop (VObj [("canceled", VNum 1)]) f) = false)
              pre
    /\ evaluateOrderActivity (VObj [("canceled", VNum 1)])
       = Inactive ("Acuity order flag " +:+ g +:+ "=true").
Proof.
  apply (evaluateOrderActivity_flag_one (VObj [("canceled", VNum 1)]) "canceled").
  - simpl. auto.
  - reflexivity.
Defined.

(** C2, counterexample.  The flags [cancelled: 2] and [isCanceled: -1] are
    numbers other than zero, and the orders that carry them are classified
    active. *)
Lemma evaluateOrderActivity_nonzero_flag_active :
  (In "cancelled" cancellationFlags
   /\ prop (VObj [("cancelled", VNum 2)]) "cancelled" = VNum 2
   /\ 2%Z <> 0%Z
   /\ evaluateOrderActivity (VObj [("cancelled", VNum 2)]) = Active)
  /\ (In "isCanceled" cancellationFlags
      /\ prop (VObj [("isCanceled", VNum (-1))]) "isCanceled" = VNum (-1)
      /\ (-1)%Z <> 0%Z
      /\ evaluateOrderActivity (VObj [("isCanceled", VNum (-1))]) = Active).
Proof.
  repeat split; try reflexivity; try discriminate; simpl; auto 10.
Qed.

Lemma is_false_spec (v : value) : is_false v = true <-> v = VBool false.
Proof.
  destruct v as [| | [] | | | |]; simpl; split; congruence.
Qed.

Lemma rule_flag_spec (order : value) :
  rule_flag order <->
  exists flag, first_truthy_flag order cancellationFlags = Some flag.
Proof.
  split.
  - intros (flag & Hin & Ht). eapply first_truthy_flag_found; eassumption.
  - intros (flag & H).
    apply first_truthy_flag_Some in H as (pre & post & Hsplit & Ht & _).
    exists flag. split; [| exact Ht ].
    rewrite Hsplit. apply in_or_app. right. now left.
Qed.

Lemma rule_marked_spec (order : value) :
  rule_marked order <->
  is_false (prop order "active") || is_false (prop order "isActive") = true.
Proof.
  unfold rule_marked. rewrite orb_true_iff, !is_false_spec. tauto.
Qed.

Lemma first_inactive_status_Some (values : list value) (s : string) :
  first_inactive_status values = Some s ->
  In (VStr s) values /\ indicates_inactive (VStr s).
Proof.
  induction values as [| v values IH]; simpl; [ discriminate |].
  destruct v as [| | b | n | t | items | fs]; try (intros H; split; [ right |]; now apply IH).
  destruct (negb (Str.nonempty (Str.toLowerCase (Str.trim t)))).
  - intros H. split; [ right |]; now apply IH.
  - destruct (status_is_inactive (Str.toLowerCase (Str.trim t))) eqn:Hst.
    + intros [= <-]. split; [ now left | now exists t ].
    + intros H. split; [ right |]; now apply IH.
Qed.

Lemma first_inactive_status_None (values : list value) :
  first_inactive_status values = None ->
  forall v, In v values -> ~ indicates_inactive v.
Proof.
  induction values as [| v values IH]; simpl; [ tauto |].
  intros H x [<- | Hin] (s & -> & Hs).
  - destruct (Str.toLowerCase (Str.trim s)) eqn:Hn; simpl in H.
    + discriminate Hs.
    + rewrite Hs in H. discriminate.
  - destruct v as [| | b | n | t | items | fs];
      try (apply (IH H (VStr s) Hin); now exists s).
    destruct (negb (Str.nonempty (Str.toLowerCase (Str.trim t)))).
    + apply (IH H (VStr s) Hin). now exists s.
    + destruct (status_is_inactive (Str.toLowerCase (Str.trim t)));
        [ discriminate |].
      apply (IH H (VStr s) Hin). now exists s.
Qed.

Lemma rule_status_spec (order : value) :
  rule_status order <->
  exists v, In v (statusFields order) /\ indicates_inactive v.
Proof.
  unfold rule_status, statusFields. split.
  - intros (k & Hin & Hk). exists (prop order k). split; [| exact Hk ].
    simpl in *. intuition (subst; auto).
  - intros (v & Hin & Hv). simpl in Hin.
    destruct Hin as [<- | [<- | [<- | [<- | []]]]];
      eexists; (split; [| exact Hv ]); simpl; auto.
Qed.

(** C8.  [evaluateOrderActivity] is a function of the ten fields it reads
    and applies the rules in order, the first that matches deciding: a
    truthy flag wins over everything, then the explicit [active] /
    [isActive] marks, then the status fields, and an order with none of
    them is active.  [{status: "Cancelled"}] is inactive with a reason that
    contains "Cancelled", and [{}] is active. *)
Theorem evaluateOrderActivity_rules :
  (evaluateOrderActivity (VObj [("status", VStr "Cancelled")])
   = Inactive "Acuity status indicates inactive: Cancelled"
   /\ Str.includes "Acuity status indicates inactive: Cancelled" "Cancelled"
      = true)
  /\ evaluateOrderActivity (VObj []) = Active
  /\ (forall o1 o2 : value,
        (forall k, In k activityFields -> prop o1 k = prop o2 k) ->
        evaluateOrderActivity o1 = evaluateOrderActivity o2)
  /\ (forall order : value,
        (rule_flag order ->
         exists flag,
           In flag cancellationFlags
           /\ isTruthyFlag (prop order flag) = true
           /\ evaluateOrderActivity order
              = Inactive ("Acuity order flag " +:+ flag +:+ "=true"))
        /\ (~ rule_flag order -> rule_marked order ->
            evaluateOrderActivity order = Inactive "Acuity order marked inactive")
        /\ (~ rule_flag order -> ~ rule_marked order -> rule_status order ->
            exists s,
              In (VStr s) (statusFields order)
              /\ indicates_inactive (VStr s)
              /\ evaluateOrderActivity order
                 = Inactive ("Acuity status indicates inactive: " +:+ s))
        /\ (~ rule_flag order -> ~ rule_marked order -> ~ rule_status order ->
            evaluateOrderActivity order = Active)).
Proof.
  split; [ split; reflexivity |].
  split; [ reflexivity |].
  split.
  - intros o1 o2 Hagree.
    unfold evaluateOrderActivity, statusFields, cancellationFlags.
    simpl first_truthy_flag.
    rewrite !(Hagree _) by (unfold activityFields; simpl; auto 12).
    reflexivity.
  - intros order.
    rewrite rule_flag_spec, rule_marked_spec, rule_status_spec.
    unfold evaluateOrderActivity.
    destruct (first_truthy_flag order cancellationFlags) as [flag |] eqn:Hflag.
    + repeat split.
      * intros _. exists flag.
        apply first_truthy_flag_Some in Hflag as (pre & post & Hs & Ht & _).
        repeat split; [| exact Ht ].
        rewrite Hs. apply in_or_app. right. now left.
      * intros Hno. exfalso. apply Hno. eauto.
      * intros Hno. exfalso. apply Hno. eauto.
      * intros Hno. exfalso. apply Hno. eauto.
    + destruct (is_false (prop order "active")
                || is_false (prop order "isActive")) eqn:Hmark.
      * repeat split; try reflexivity.
        -- intros (flag & Hf). discriminate.
        -- intros _ Hno. now contradiction Hno.
        -- intros _ Hno. now contradiction Hno.
      * destruct (first_inactive_status (statusFields order)) as [s |] eqn:Hst.
        -- apply first_inactive_status_Some in Hst as [Hin Hs].
           repeat split.
           ++ intros (flag & Hf). discriminate.
           ++ intros _ Hm. discriminate.
           ++ intros _ _ _. exists s. auto.
           ++ intros _ _ Hno. exfalso. apply Hno. eauto.
        -- pose proof (first_inactive_status_None _ Hst) as Hnone.
           repeat split.
           ++ intros (flag & Hf). discriminate.
           ++ intros _ Hm. discriminate.
           ++ intros _ _ (v & Hin & Hv). exfalso. eapply Hnone; eassumption.
Qed.

(** ** Strings and certificate codes *)

Ltac by_cases_on_char a :=
  destruct a as [[] [] [] [] [] [] [] []]; try reflexivity; try discriminate.

Lemma is_white_upper (a : ascii) : Str.is_white (Str.upper_char a) = Str.is_white a.
Proof. by_cases_on_char a. Qed.

Lemma upper_char_idem (a : ascii) :
  Str.upper_char (Str.upper_char a) = Str.upper_char a.
Proof. by_cases_on_char a. Qed.

Lemma is_alnum_upper (a : ascii) :
  Str.is_alnum a = true -> Str.is_alnum (Str.upper_char a) = true.
Proof. by_cases_on_char a. Qed.

Lemma upper_alnum_shape (a : ascii) :
  Str.is_alnum (Str.upper_char a) = true ->
  Str.is_upper (Str.upper_char a) || Str.is_digit (Str.upper_char a) = true.
Proof. by_cases_on_char a. Qed.

Lemma alnum_not_white (a : ascii) :
  Str.is_alnum a = true -> Str.is_white a = false.
Proof. by_cases_on_char a. Qed.

Lemma map_length (f : ascii -> ascii) (s : string) :
  String.length (Str.map f s) = String.length s.
Proof. induction s as [| a s IH]; simpl; congruence. Qed.

Lemma trimStart_upper (s : string) :
  Str.trimStart (Str.toUpperCase s) = Str.toUpperCase (Str.trimStart s).
Proof.
  induction s as [| a s IH]; simpl; [ reflexivity |].
  rewrite is_white_upper. destruct (Str.is_white a); [ exact IH | reflexivity ].
Qed.

Lemma trimEnd_upper (s : string) :
  Str.trimEnd (Str.toUpperCase s) = Str.toUpperCase (Str.trimEnd s).
Proof.
  induction s as [| a s IH]; simpl; [ reflexivity |].
  unfold Str.toUpperCase in *. rewrite IH.
  destruct (Str.trimEnd s); simpl.
  - rewrite is_white_upper. now destruct (Str.is_white a).
  - reflexivity.
Qed.

Lemma trim_upper (s : string) :
  Str.trim (Str.toUpperCase s) = Str.toUpperCase (Str.trim s).
Proof. unfold Str.trim. now rewrite trimStart_upper, trimEnd_upper. Qed.

Lemma trimEnd_idem (s : string) : Str.trimEnd (Str.trimEnd s) = Str.trimEnd s.
Proof.
  induction s as [| a s IH]; simpl; [ reflexivity |].
  destruct (Str.trimEnd s) as [| b t] eqn:Ht.
  - destruct (Str.is_white a) eqn:Ha; simpl; [ reflexivity | now rewrite Ha ].
  - simpl in *. now rewrite IH.
Qed.

Lemma trimStart_headed (s : string) : headed (Str.trimStart s).
Proof.
  induction s as [| a s IH]; simpl; [ exact I |].
  destruct (Str.is_white a) eqn:Ha; [ exact IH | exact Ha ].
Qed.

Lemma headed_trimStart (s : string) : headed s -> Str.trimStart s = s.
Proof. destruct s as [| a s]; simpl; [ reflexivity | now intros -> ]. Qed.

Lemma trimEnd_headed (s : string) : headed s -> headed (Str.trimEnd s).
Proof.
  destruct s as [| a s]; simpl; [ trivial |].
  intros Ha. destruct (Str.trimEnd s); simpl; [ now rewrite Ha | exact Ha ].
Qed.

Lemma trim_idem (s : string) : Str.trim (Str.trim s) = Str.trim s.
Proof.
  unfold Str.trim.
  rewrite (headed_trimStart (Str.trimEnd (Str.trimStart s)))
    by apply trimEnd_headed, trimStart_headed.
  apply trimEnd_idem.
Qed.

Lemma upper_idem (s : string) :
  Str.toUpperCase (Str.toUpperCase s) = Str.toUpperCase s.
Proof.
  unfold Str.toUpperCase.
  induction s as [| a s IH]; simpl; [ reflexivity |].
  now rewrite upper_char_idem, IH.
Qed.

Lemma forallb_alnum_upper (s : string) :
  Str.forallb Str.is_alnum s = true ->
  Str.forallb Str.is_alnum (Str.toUpperCase s) = true.
Proof.
  unfold Str.toUpperCase.
  induction s as [| a s IH]; simpl; [ trivial |].
  intros H. apply andb_prop in H as [Ha Hs].
  now rewrite is_alnum_upper, IH.
Qed.

Lemma forallb_upper_shape (s : string) :
  Str.forallb Str.is_alnum (Str.toUpperCase s) = true ->
  Str.forallb (fun a => Str.is_upper a || Str.is_digit a) (Str.toUpperCase s)
  = true.
Proof.
  unfold Str.toUpperCase.
  induction s as [| a s IH]; simpl; [ trivial |].
  intros H. apply andb_prop in H as [Ha Hs].
  now rewrite upper_alnum_shape, IH.
Qed.

Lemma alnum_trim (s : string) :
  Str.forallb Str.is_alnum s = true -> Str.trim s = s.
Proof.
  intros H. unfold Str.trim.
  assert (Hs : Str.trimStart s = s).
  { destruct s as [| a s]; simpl in *; [ reflexivity |].
    apply andb_prop in H as [Ha _]. now rewrite alnum_not_white. }
  rewrite Hs. clear Hs.
  induction s as [| a s IH]; simpl in *; [ reflexivity |].
  apply andb_prop in H as [Ha Hs]. rewrite (IH Hs).
  destruct s; [ now rewrite alnum_not_white | reflexivity ].
Qed.

Lemma matches_code_nonempty (s : string) :
  matches_code s = true -> Str.nonempty s = true.
Proof.
  intros H. apply matches_code_shape in H as [Hlen _]. now destruct s.
Qed.

(** The normal form of any input is trimmed and in upper case. *)
Lemma normalize_trimmed (v : value) :
  Str.trim (normalizeCertificateCode v) = normalizeCertificateCode v.
Proof. unfold normalizeCertificateCode. now rewrite trim_upper, trim_idem. Qed.

(** An input whose normal form passes [isCertificateCode] yields a
    well-shaped code. *)
Lemma normalize_code_shape (v : value) :
  isCertificateCode (VStr (normalizeCertificateCode v)) = true ->
  code_shape (normalizeCertificateCode v).
Proof.
  simpl. unfold isCertificateCodeStr. rewrite normalize_trimmed.
  intros H. apply matches_code_shape in H as [Hlen Hal].
  split; [ exact Hlen |].
  unfold normalizeCertificateCode in *. now apply forallb_upper_shape.
Qed.

Lemma normalize_idem (v : value) :
  isCertificateCode (VStr (normalizeCertificateCode v)) = true ->
  normalizeCertificateCode (VStr (normalizeCertificateCode v))
  = normalizeCertificateCode v.
Proof.
  intros H. pose proof H as Hm. simpl in Hm. unfold isCertificateCodeStr in Hm.
  rewrite normalize_trimmed in Hm.
  unfold normalizeCertificateCode at 1. unfold or_else. simpl truthy.
  rewrite (matches_code_nonempty _ Hm). simpl js_String.
  rewrite normalize_trimmed. unfold normalizeCertificateCode.
  apply upper_idem.
Qed.

(** A string that passes [isCertificateCode] normalises to a code that
    passes it too. *)
Lemma normalize_of_code (v : value) :
  isCertificateCode v = true ->
  isCertificateCode (VStr (normalizeCertificateCode v)) = true.
Proof.
  destruct v as [| | b | n | s | items | fs]; try discriminate.
  simpl. unfold isCertificateCodeStr. intros H.
  assert (Hne : Str.nonempty s = true).
  { destruct s; [ discriminate H | reflexivity ]. }
  unfold normalizeCertificateCode, or_else. simpl truthy. rewrite Hne.
  simpl js_String. rewrite trim_upper, trim_idem.
  apply matches_code_shape in H as [Hlen Hal].
  unfold matches_code. unfold Str.toUpperCase at 1. rewrite map_length, Hlen.
  simpl. now apply forallb_alnum_upper.
Qed.

(** The code that [processNewMembershipOrder] derives from an order. *)
Lemma extracted_code_valid (order : value) (code : string) :
  extractCertificateCode order = Some code ->
  isCertificateCode (VStr (normalizeCertificateCode (VStr code))) = true.
Proof.
  intros H. apply extractCertificateCode_shape in H.
  apply normalize_of_code. simpl. unfold isCertificateCodeStr.
  apply matches_code_shape in H as [Hlen Hal].
  rewrite (alnum_trim _ Hal). unfold matches_code. now rewrite Hlen, Hal.
Qed.

(** ** What a computation adds to the trace *)

Section Emits.

Variable P : event -> Prop.

Lemma emits_ret {A : Type} (a : A) : emits_only P (ret a).
Proof. intros s. exists []. simpl. now rewrite app_nil_r. Qed.

Lemma emits_throw {A : Type} (e : js_error) : emits_only P (@throw A e).
Proof. intros s. exists []. simpl. now rewrite app_nil_r. Qed.

Lemma emits_emit (e : event) : P e -> emits_only P (emit e).
Proof. intros He s. exists [e]. simpl. auto. Qed.

Lemma emits_bind {A B : Type} (m : M A) (k : A -> M B) :
  emits_only P m -> (forall a, emits_only P (k a)) ->
  emits_only P (bind m k).
Proof.
  intros Hm Hk s. unfold bind.
  destruct (Hm s) as (evs & Htr & Hall).
  destruct (m s) as [[a | e] s1]; simpl in *.
  - destruct (Hk a s1) as (evs' & Htr' & Hall').
    exists (evs ++ evs'). rewrite Htr', Htr, app_assoc.
    split; [ reflexivity | now apply Forall_app ].
  - now exists evs.
Qed.

Lemma emits_try_catch {A : Type} (m : M A) (h : js_error -> M A) :
  emits_only P m -> (forall e, emits_only P (h e)) ->
  emits_only P (try_catch m h).
Proof.
  intros Hm Hh s. unfold try_catch.
  destruct (Hm s) as (evs & Htr & Hall).
  destruct (m s) as [[a | e] s1]; simpl in *.
  - now exists evs.
  - destruct (Hh e s1) as (evs' & Htr' & Hall').
    exists (evs ++ evs'). rewrite Htr', Htr, app_assoc.
    split; [ reflexivity | now apply Forall_app ].
Qed.

Lemma emits_passKitRequest (w : world) (m : http_method) (endpoint : string)
    (data : value) :
  P (PassKit m endpoint data) ->
  emits_only P (passKitRequest w m endpoint data).
Proof.
  intros He s. exists [PassKit m endpoint data]. unfold passKitRequest.
  destruct (passkit w (trace s) m endpoint data); simpl; auto.
Qed.

Lemma emits_acuityGet (w : world) (path : string) :
  P (AcuityGet path) -> emits_only P (acuityGet w path).
Proof.
  intros He s. exists [AcuityGet path]. unfold acuityGet.
  destruct (acuity w (trace s) path); simpl; auto.
Qed.

Lemma emits_redis {A : Type} (w : world) (c : redis_cmd)
    (apply : gmap string string -> A * gmap string string) :
  P (Redis c) -> emits_only P (redis w c apply).
Proof.
  intros He s. exists [Redis c]. unfold redis.
  destruct (redis_fails w (trace s) c); simpl; [ auto |].
  destruct (apply (store s)); simpl; auto.
Qed.

Lemma emits_appendLog (l : level) (msg : string) (data : value) :
  P (Log l msg data) -> emits_only P (appendLog l msg data).
Proof. apply emits_emit. Qed.

End Emits.

(** Breaks a computation into its primitive steps, leaving the side
    conditions on the events it emits. *)
Ltac emits_steps :=
  repeat first
    [ apply emits_ret
    | apply emits_throw
    | apply emits_bind; [| intros ? ]
    | apply emits_try_catch; [| intros ? ]
    | apply emits_appendLog
    | apply emits_passKitRequest
    | apply emits_acuityGet
    | apply emits_redis
    | match goal with
      | |- emits_only _ (if ?b then _ else _) => destruct b
      | |- emits_only _ (match ?x with _ => _ end) => destruct x
      end ].

(** ** The mapping store *)

Lemma store_emits (P : event -> Prop) (w : world) (c : value) (o : string) :
  (forall e, valid_store_call e -> P e) ->
  emits_only P (storeCertificateOrderMapping w c o).
Proof.
  intros HP. unfold storeCertificateOrderMapping, redis_set.
  apply emits_try_catch; [| intros; apply emits_ret ].
  destruct (negb (redis_configured w)); [ apply emits_ret |].
  destruct (isCertificateCode (VStr (normalizeCertificateCode c))) eqn:Hc;
    simpl negb; cbv iota; [| apply emits_ret ].
  apply emits_redis, HP. simpl.
  eexists. split; [ reflexivity | now apply normalize_code_shape ].
Qed.

Lemma remove_emits (P : event -> Prop) (w : world) (c : value) :
  (forall e, valid_store_call e -> P e) ->
  emits_only P (removeCertificateOrderMapping w c).
Proof.
  intros HP. unfold removeCertificateOrderMapping, redis_del.
  apply emits_try_catch; [| intros; apply emits_ret ].
  destruct (negb (redis_configured w)); [ apply emits_ret |].
  destruct (isCertificateCode (VStr (normalizeCertificateCode c))) eqn:Hc;
    simpl negb; cbv iota; [| apply emits_ret ].
  apply emits_redis, HP. simpl.
  eexists. split; [ reflexivity | now apply normalize_code_shape ].
Qed.

Lemma resolve_emits (P : event -> Prop) (w : world) (c : value) :
  (forall e, valid_store_call e -> P e) ->
  emits_only P (resolveOrderIdByCertificateCode w c).
Proof.
  intros HP. unfold resolveOrderIdByCertificateCode, redis_get.
  destruct (isCertificateCode (VStr (normalizeCertificateCode c))) eqn:Hc;
    simpl negb; cbv iota; [| apply emits_ret ].
  apply emits_try_catch; [| intros; apply emits_ret ].
  destruct (negb (redis_configured w)); [ apply emits_ret |].
  apply emits_bind.
  - apply emits_redis, HP. simpl.
    eexists. split; [ reflexivity | now apply normalize_code_shape ].
  - intros orderId.
    destruct (negb (truthy orderId)); [ apply emits_ret |].
    destruct (String_throws orderId); [ apply emits_throw | apply emits_ret ].
Qed.

(** The three operations of the store on an input that fails validation:
    nothing happens. *)
Lemma store_invalid_noop (w : world) (c : value) (o : string) (s : state) :
  isCertificateCode (VStr (normalizeCertificateCode c)) = false ->
  storeCertificateOrderMapping w c o s = (Ok tt, s)
  /\ removeCertificateOrderMapping w c s = (Ok tt, s)
  /\ resolveOrderIdByCertificateCode w c s = (Ok None, s).
Proof.
  intros H.
  unfold storeCertificateOrderMapping, removeCertificateOrderMapping,
    resolveOrderIdByCertificateCode, try_catch.
  rewrite H. simpl. now destruct (redis_configured w).
Qed.

(** The removal on a valid code: one [del] command, applied unless the
    backend refuses it. *)
Lemma remove_run (w : world) (c : value) (s : state) :
  isCertificateCode (VStr (normalizeCertificateCode c)) = true ->
  let key := mappingKey (normalizeCertificateCode c) in
  removeCertificateOrderMapping w c s =
  if redis_configured w
  then (Ok tt,
        State (if redis_fails w (trace s) (RedisDel key) then store s
               else delete key (store s))
              (trace s ++ [Redis (RedisDel key)]))
  else (Ok tt, s).
Proof.
  intros H key.
  unfold removeCertificateOrderMapping, try_catch, redis_del, redis.
  rewrite H. destruct (redis_configured w); simpl; [| reflexivity ].
  subst key. unfold mappingKey.
  now destruct (redis_fails w (trace s) _).
Qed.

(** ** The wallet member resolver *)

Lemma attempt_request_run (w : world) (m : http_method) (endpoint : string)
    (data : value) (s : state) :
  attempt (response <- passKitRequest w m endpoint data ;;
           ret (parseMemberRefFromPayload response)) s
  = (Ok (produces (passkit w (trace s) m endpoint data)),
     State (store s) (trace s ++ [PassKit m endpoint data])).
Proof.
  unfold attempt, try_catch, bind, passKitRequest, produces.
  now destruct (passkit w (trace s) m endpoint data).
Qed.

Lemma attempt_direct_run (w : world) (externalId : string) (s : state) :
  attempt (directLookup w externalId) s
  = (Ok (produces (passkit w (trace s) GET (directEndpoint w externalId) VNull)),
     State (store s) (trace s ++ [PassKit GET (directEndpoint w externalId) VNull])).
Proof. apply attempt_request_run. Qed.

Lemma attempt_query_run (w : world) (field value : string) (s : state) :
  attempt (queryMemberByField w field value) s
  = (Ok (produces (passkit w (trace s) POST (listEndpoint w)
                     (listPayload field value))),
     State (store s)
       (trace s ++ [PassKit POST (listEndpoint w) (listPayload field value)])).
Proof. apply attempt_request_run. Qed.

(** The run of the resolver, attempt by attempt. *)
Lemma find_run (w : world) (externalId : string) (s : state) :
  programIdConfigured w = true ->
  let e1 := PassKit GET (directEndpoint w externalId) VNull in
  let e2 := PassKit POST (listEndpoint w) (listPayload "memberId" externalId) in
  let e3 := PassKit POST (listEndpoint w) (listPayload "externalId" externalId) in
  let a1 := produces (passkit w (trace s) GET (directEndpoint w externalId) VNull) in
  let a2 := produces (passkit w (trace s ++ [e1]) POST (listEndpoint w)
                        (listPayload "memberId" externalId)) in
  let a3 := produces (passkit w (trace s ++ [e1; e2]) POST (listEndpoint w)
                        (listPayload "externalId" externalId)) in
  findPassKitMemberByExternalId w externalId s =
  match a1 with
  | Some m => (Ok (Some m), State (store s) (trace s ++ [e1]))
  | None =>
      match a2 with
      | Some m => (Ok (Some m), State (store s) (trace s ++ [e1; e2]))
      | None => (Ok a3, State (store s) (trace s ++ [e1; e2; e3]))
      end
  end.
Proof.
  intros Hcfg. cbv zeta.
  unfold findPassKitMemberByExternalId. rewrite Hcfg.
  cbv beta iota delta [negb bind]. rewrite attempt_direct_run.
  cbn [trace store].
  destruct (produces (passkit w (trace s) GET _ _)); [ reflexivity |].
  rewrite attempt_query_run. cbn [trace store].
  destruct (produces (passkit w (trace s ++ [_]) POST _ _));
    [ now rewrite <- app_assoc |].
  rewrite attempt_query_run. cbn [trace store].
  rewrite <- !app_assoc. simpl app.
  now destruct (produces _).
Qed.

(** The resolver never touches the mapping store and, once the program id
    is configured, never throws. *)
Lemma find_returns (w : world) (externalId : string) (s : state) :
  programIdConfigured w = true ->
  exists r evs,
    findPassKitMemberByExternalId w externalId s
    = (Ok r, State (store s) (trace s ++ evs)).
Proof.
  intros Hcfg. rewrite (find_run w externalId s Hcfg).
  repeat match goal with
         | |- context [match ?x with _ => _ end] => destruct x
         end; eauto.
Qed.

Lemma find_emits (P : event -> Prop) (w : world) (externalId : string) :
  P (PassKit GET (directEndpoint w externalId) VNull) ->
  (forall filterField,
      P (PassKit POST (listEndpoint w) (listPayload filterField externalId))) ->
  emits_only P (findPassKitMemberByExternalId w externalId).
Proof.
  intros Hget Hpost. unfold findPassKitMemberByExternalId, attempt,
    directLookup, queryMemberByField.
  emits_steps; auto.
Qed.

(** C6.  Without a configured program id the resolver throws, before any
    request.  With one it always returns: the three lookups are tried in
    order, each stopping the sequence only by producing a member; so when
    the direct lookup throws, the search by [memberId] is made next, and
    the search by [externalId] after it unless the first search found a
    member; and the result is null exactly when none of the three attempts
    produced a member reference, all three having been made. *)
Theorem findPassKitMemberByExternalId_sequence (w : world)
    (externalId : string) (s : state) :
  let e1 := PassKit GET (directEndpoint w externalId) VNull in
  let e2 := PassKit POST (listEndpoint w) (listPayload "memberId" externalId) in
  let e3 := PassKit POST (listEndpoint w) (listPayload "externalId" externalId) in
  let direct := passkit w (trace s) GET (directEndpoint w externalId) VNull in
  let a1 := produces direct in
  let a2 := produces (passkit w (trace s ++ [e1]) POST (listEndpoint w)
                        (listPayload "memberId" externalId)) in
  let a3 := produces (passkit w (trace s ++ [e1; e2]) POST (listEndpoint w)
                        (listPayload "externalId" externalId)) in
  (programIdConfigured w = false ->
   findPassKitMemberByExternalId w externalId s
   = (Throw (Error "Missing PASSKIT_PROGRAM_ID for PassKit member lookup"), s))
  /\ (programIdConfigured w = true ->
      exists r s',
        findPassKitMemberByExternalId w externalId s = (Ok r, s')
        /\ store s' = store s
        /\ (forall err, direct = inl err ->
              (exists rest, trace s' = trace s ++ [e1; e2] ++ rest)
              /\ (a2 = None ->
                  trace s' = trace s ++ [e1; e2; e3] /\ r = a3)
              /\ (forall m, a2 = Some m ->
                  trace s' = trace s ++ [e1; e2] /\ r = Some m))
        /\ (r = None <-> a1 = None /\ a2 = None /\ a3 = None)
        /\ (r = None -> trace s' = trace s ++ [e1; e2; e3])).
Proof.
  intros e1 e2 e3 direct a1 a2 a3. split.
  - intros Hcfg. unfold findPassKitMemberByExternalId. now rewrite Hcfg.
  - intros Hcfg. rewrite (find_run w externalId s Hcfg).
    fold e1 e2 e3 direct. fold a1. fold a2. fold a3.
    destruct a1 as [m1 |] eqn:H1.
    + eexists _, _. split; [ reflexivity |]. simpl.
      split; [ reflexivity |]. split.
      * intros err Herr. subst a1. rewrite Herr in H1. discriminate.
      * split; [ split; [ discriminate | now intros [? _] ] | discriminate ].
    + destruct a2 as [m2 |] eqn:H2.
      * eexists _, _. split; [ reflexivity |]. simpl.
        split; [ reflexivity |]. split.
        -- intros err _. split; [ now exists [] |].
           split; [ discriminate |]. now intros m [= <-].
        -- split; [ split; [ discriminate | now intros (_ & ? & _) ]
                  | discriminate ].
      * eexists _, _. split; [ reflexivity |]. simpl.
        split; [ reflexivity |]. split.
        -- intros err _. split; [ now exists [e3] |].
           split; [ auto | discriminate ].
        -- split; [ split; [ auto | now intros (_ & _ & ?) ] | auto ].
Qed.

(** ** The cancel protocol *)

Lemma find_Ok_configured (w : world) (externalId : string) (s s1 : state)
    (r : option member_ref) :
  findPassKitMemberByExternalId w externalId s = (Ok r, s1) ->
  programIdConfigured w = true.
Proof.
  unfold findPassKitMemberByExternalId.
  destruct (programIdConfigured w); [ trivial | discriminate ].
Qed.

(** No member, or a reference without an id: nothing to deactivate. *)
Lemma deactivate_not_found (w : world) (externalId : string) (ctx : context)
    (s s1 : state) (r : option member_ref) :
  findPassKitMemberByExternalId w externalId s = (Ok r, s1) ->
  match r with
  | None => True
  | Some member => Str.nonempty (id member) = false
  end ->
  deactivatePassKitMembershipByExternalId w externalId ctx s
  = (Ok (Deactivation true "member_not_found" VNull), s1).
Proof.
  intros Hfind Hr. pose proof (find_Ok_configured _ _ _ _ _ Hfind) as Hcfg.
  unfold deactivatePassKitMembershipByExternalId. rewrite Hcfg.
  cbv beta iota delta [negb bind]. rewrite Hfind.
  destruct r as [member |]; [| reflexivity ]. now rewrite Hr.
Qed.

(** A member with an id: the status update, and the delete when the update
    is rejected. *)
Lemma deactivate_found (w : world) (externalId : string) (ctx : context)
    (s s1 : state) (member : member_ref) :
  findPassKitMemberByExternalId w externalId s = (Ok (Some member), s1) ->
  Str.nonempty (id member) = true ->
  let payload := cancellationPayload w member externalId ctx in
  let put := PassKit PUT "/members/member" payload in
  let byId := VObj [ ("id", VStr (id member)) ] in
  let del := PassKit DELETE "/members/member" byId in
  deactivatePassKitMembershipByExternalId w externalId ctx s =
  match passkit w (trace s1) PUT "/members/member" payload with
  | inr response =>
      (Ok (Deactivation true "status_update"
             (or_else (prop response "id") (VStr (id member)))),
       State (store s1) (trace s1 ++ [put]))
  | inl statusErr =>
      let warning := fallbackWarning externalId member statusErr in
      let s2 := State (store s1) (trace s1 ++ [put; warning; del]) in
      match passkit w (trace s1 ++ [put; warning]) DELETE "/members/member" byId
      with
      | inr response =>
          (Ok (Deactivation true "delete"
                 (or_else (prop response "id") (VStr (id member)))), s2)
      | inl e => (Throw e, s2)
      end
  end.
Proof.
  intros Hfind Hid. cbv zeta.
  pose proof (find_Ok_configured _ _ _ _ _ Hfind) as Hcfg.
  unfold deactivatePassKitMembershipByExternalId. rewrite Hcfg.
  cbv beta iota delta [negb bind]. rewrite Hfind, Hid.
  cbv beta iota delta [negb try_catch bind passKitRequest appendLog emit ret].
  cbn [trace store].
  destruct (passkit w (trace s1) PUT _ _) as [statusErr | response];
    [| reflexivity ].
  cbn [trace store]. rewrite <- !app_assoc. simpl app.
  now destruct (passkit w _ DELETE _ _).
Qed.

(** Whatever the wallet answers, a deactivation leaves the store alone,
    and when it returns it reports one of the three methods. *)
Lemma deactivate_cases (w : world) (externalId : string) (ctx : context)
    (s s1 : state) (d : deactivation) :
  deactivatePassKitMembershipByExternalId w externalId ctx s = (Ok d, s1) ->
  store s1 = store s
  /\ (exists evs, trace s1 = trace s ++ evs)
  /\ success d = true
  /\ In (method d) [ "member_not_found"; "status_update"; "delete" ].
Proof.
  intros H.
  assert (Hcfg : programIdConfigured w = true).
  { unfold deactivatePassKitMembershipByExternalId in H.
    destruct (programIdConfigured w); [ trivial | discriminate ]. }
  destruct (find_returns w externalId s Hcfg) as (r & evs & Hfind).
  destruct r as [member |].
  - destruct (Str.nonempty (id member)) eqn:Hid.
    + rewrite (deactivate_found w externalId ctx s _ member Hfind Hid) in H.
      cbv zeta in H.
      destruct (passkit w _ PUT _ _) as [statusErr | response].
      * destruct (passkit w _ DELETE _ _) as [e | response];
          [ discriminate |].
        injection H as <- <-. cbn [trace store]. repeat split.
        -- rewrite <- app_assoc. eauto.
        -- simpl. auto.
      * injection H as <- <-. cbn [trace store]. repeat split.
        -- rewrite <- app_assoc. eauto.
        -- simpl. auto.
    + rewrite (deactivate_not_found w externalId ctx s _ _ Hfind Hid) in H.
      injection H as <- <-. cbn [trace store]. repeat split; simpl; eauto.
  - rewrite (deactivate_not_found w externalId ctx s _ _ Hfind I) in H.
    injection H as <- <-. cbn [trace store]. repeat split; simpl; eauto.
Qed.

(** The run of a cancellation on a valid code: the deactivation, the
    removal of the mapping, the log entry. *)
Lemma cancel_run (w : world) (certificateCode : value) (ctx : context)
    (s : state) :
  isCertificateCode (VStr (normalizeCertificateCode certificateCode)) = true ->
  let code := normalizeCertificateCode certificateCode in
  let key := mappingKey code in
  cancelMembershipByCertificateCode w certificateCode ctx s =
  match deactivatePassKitMembershipByExternalId w code ctx s with
  | (Ok d, s1) =>
      (Ok (Cancellation (success d) code (method d) (passKitId d)),
       if redis_configured w
       then State (if redis_fails w (trace s1) (RedisDel key) then store s1
                   else delete key (store s1))
                  (trace s1 ++ [Redis (RedisDel key); cancellationLog code d ctx])
       else State (store s1) (trace s1 ++ [cancellationLog code d ctx]))
  | (Throw e, s1) => (Throw e, s1)
  end.
Proof.
  intros Hvalid. cbv zeta.
  unfold cancelMembershipByCertificateCode. rewrite Hvalid.
  cbv beta iota delta [negb bind].
  destruct (deactivatePassKitMembershipByExternalId w _ ctx s)
    as [[d | e] s1]; [| reflexivity ].
  rewrite remove_run by now rewrite normalize_idem.
  cbv zeta. rewrite (normalize_idem _ Hvalid).
  destruct (redis_configured w); cbv beta iota delta [appendLog emit ret];
    cbn [trace store]; [| reflexivity ].
  now rewrite <- app_assoc.
Qed.

(** A code without an entry in the store resolves to no order. *)
Lemma resolve_absent (w : world) (certificateCode : value) (s : state) :
  store s !! mappingKey (normalizeCertificateCode certificateCode) = None ->
  fst (resolveOrderIdByCertificateCode w certificateCode s) = Ok None.
Proof.
  intros Habsent. unfold resolveOrderIdByCertificateCode.
  destruct (isCertificateCode (VStr (normalizeCertificateCode certificateCode)));
    [| reflexivity ].
  cbv beta iota delta [negb try_catch bind redis_get redis ret].
  destruct (redis_configured w); [| reflexivity ].
  destruct (redis_fails w (trace s) _); [ reflexivity |].
  unfold mappingKey in Habsent. now rewrite Habsent.
Qed.

(** C4.  For a valid certificate code (8 alphanumeric characters, in any
    letter case) for which the resolver finds no member, the cancellation
    returns success with method "member_not_found" and throws nothing; it
    makes no wallet write: after the lookups the run only removes the
    mapping and logs the outcome. *)
Theorem cancel_member_not_found (w : world) (certificateCode : value)
    (ctx : context) (s s1 : state) :
  isCertificateCode certificateCode = true ->
  findPassKitMemberByExternalId w (normalizeCertificateCode certificateCode) s
  = (Ok None, s1) ->
  let code := normalizeCertificateCode certificateCode in
  let d := Deactivation true "member_not_found" VNull in
  exists s',
    cancelMembershipByCertificateCode w certificateCode ctx s
    = (Ok (Cancellation true code "member_not_found" VNull), s')
    /\ trace s' = trace s1
                  ++ (if redis_configured w
                      then [ Redis (RedisDel (mappingKey code)) ] else [])
                  ++ [ cancellationLog code d ctx ].
Proof.
  intros Hcode Hfind code d.
  pose proof (normalize_of_code _ Hcode) as Hvalid.
  rewrite (cancel_run w certificateCode ctx s Hvalid). cbv zeta. fold code.
  rewrite (deactivate_not_found w code ctx s s1 None Hfind I).
  eexists. split; [ reflexivity |].
  now destruct (redis_configured w).
Qed.

(** A second cancellation of a code whose member the first one deleted. *)
Lemma cancel_member_not_found_witness :
  isCertificateCode (VStr " ab12cd34 ") = true
  /\ exists s',
       cancelMembershipByCertificateCode Sample.deployment (VStr " ab12cd34 ")
         Sample.manual Sample.afterCancel
       = (Ok (Cancellation true "AB12CD34" "member_not_found" VNull), s')
       /\ trace s' = trace (snd (findPassKitMemberByExternalId Sample.deployment
                                   "AB12CD34" Sample.afterCancel))
                     ++ [ Redis (RedisDel (mappingKey "AB12CD34")) ]
                     ++ [ cancellationLog "AB12CD34"
                            (Deactivation true "member_not_found" VNull)
                            Sample.manual ].
Proof.
  split; [ reflexivity |].
  apply (cancel_member_not_found Sample.deployment (VStr " ab12cd34 ")
           Sample.manual Sample.afterCancel
           (snd (findPassKitMemberByExternalId Sample.deployment "AB12CD34"
                   Sample.afterCancel))).
  - reflexivity.
  - vm_compute. reflexivity.
Defined.

(** C5.  When a member is resolved and the provider rejects the status
    update, the cancellation does not abort: it logs a warning, deletes the
    member by id and, the delete accepted, returns success with method
    "delete". *)
Theorem cancel_delete_fallback (w : world) (certificateCode : value)
    (ctx : context) (s s1 : state) (member : member_ref)
    (statusErr : js_error) (response : value) :
  let code := normalizeCertificateCode certificateCode in
  let put := PassKit PUT "/members/member"
               (cancellationPayload w member code ctx) in
  let warning := fallbackWarning code member statusErr in
  let byId := VObj [ ("id", VStr (id member)) ] in
  isCertificateCode (VStr code) = true ->
  findPassKitMemberByExternalId w code s = (Ok (Some member), s1) ->
  Str.nonempty (id member) = true ->
  passkit w (trace s1) PUT "/members/member"
    (cancellationPayload w member code ctx) = inl statusErr ->
  passkit w (trace s1 ++ [put; warning]) DELETE "/members/member" byId
  = inr response ->
  exists s' rest,
    cancelMembershipByCertificateCode w certificateCode ctx s
    = (Ok (Cancellation true code "delete"
             (or_else (prop response "id") (VStr (id member)))), s')
    /\ trace s' = trace s1
                  ++ [ put; warning; PassKit DELETE "/members/member" byId ]
                  ++ rest.
Proof.
  intros code put warning byId Hvalid Hfind Hid Hput Hdel.
  rewrite (cancel_run w certificateCode ctx s Hvalid). cbv zeta. fold code.
  rewrite (deactivate_found w code ctx s s1 member Hfind Hid). cbv zeta.
  rewrite Hput. fold put warning byId. rewrite Hdel.
  destruct (redis_configured w); eexists _, _;
    (split; [ reflexivity |]); cbn [trace store];
    rewrite <- app_assoc; reflexivity.
Qed.

(** The first cancellation in the sample deployment: the member is found by
    the search on [externalId], the wallet refuses the status update and
    accepts the delete. *)
Lemma cancel_delete_fallback_witness :
  exists s' rest,
    cancelMembershipByCertificateCode Sample.deployment (VStr "AB12CD34")
      Sample.manual Sample.start
    = (Ok (Cancellation true "AB12CD34" "delete" (VStr "pk_1")), s')
    /\ trace s'
       = trace (snd (findPassKitMemberByExternalId Sample.deployment "AB12CD34"
                       Sample.start))
         ++ [ PassKit PUT "/members/member"
                (cancellationPayload Sample.deployment
                   (MemberRef "pk_1" (VStr "t@example.com") (VStr "AB12CD34"))
                   "AB12CD34" Sample.manual);
              fallbackWarning "AB12CD34"
                (MemberRef "pk_1" (VStr "t@example.com") (VStr "AB12CD34"))
                (Sample.http_error "400");
              PassKit DELETE "/members/member" (VObj [ ("id", VStr "pk_1") ]) ]
         ++ rest.
Proof.
  apply (cancel_delete_fallback Sample.deployment (VStr "AB12CD34")
           Sample.manual Sample.start
           (snd (findPassKitMemberByExternalId Sample.deployment "AB12CD34"
                   Sample.start))
           (MemberRef "pk_1" (VStr "t@example.com") (VStr "AB12CD34"))
           (Sample.http_error "400") (VObj [])).
  - reflexivity.
  - vm_compute. reflexivity.
  - reflexivity.
  - reflexivity.
  - reflexivity.
Defined.

(** A cancellation that returns went through the deactivation and the
    removal of the mapping. *)
Lemma cancel_returns (w : world) (certificateCode : value) (ctx : context)
    (s s' : state) (c : cancellation) :
  cancelMembershipByCertificateCode w certificateCode ctx s = (Ok c, s') ->
  let code := normalizeCertificateCode certificateCode in
  let key := mappingKey code in
  isCertificateCode (VStr code) = true
  /\ exists d s1,
       deactivatePassKitMembershipByExternalId w code ctx s = (Ok d, s1)
       /\ c = Cancellation (success d) code (method d) (passKitId d)
       /\ s' = if redis_configured w
               then State (if redis_fails w (trace s1) (RedisDel key)
                           then store s1 else delete key (store s1))
                          (trace s1 ++ [ Redis (RedisDel key);
                                         cancellationLog code d ctx ])
               else State (store s1) (trace s1 ++ [ cancellationLog code d ctx ]).
Proof.
  intros Hrun code key.
  assert (Hvalid : isCertificateCode (VStr code) = true).
  { unfold cancelMembershipByCertificateCode in Hrun. fold code in Hrun.
    destruct (isCertificateCode (VStr code)); [ trivial | discriminate ]. }
  split; [ exact Hvalid |].
  rewrite (cancel_run w certificateCode ctx s Hvalid) in Hrun.
  cbv zeta in Hrun. fold code key in Hrun.
  destruct (deactivatePassKitMembershipByExternalId w code ctx s)
    as [[d | e] s1]; [| discriminate ].
  injection Hrun as <- <-. eauto.
Qed.

(** C10.  A cancellation that returns has removed the mapping of its code,
    whatever the method it reports, "member_not_found" included: with a
    store configured the [del] command for the key of the code is sent,
    and unless the backend refuses it the key is absent afterwards, so that
    the code resolves to no order. *)
Theorem cancel_removes_mapping (w : world) (certificateCode : value)
    (ctx : context) (s s' : state) (c : cancellation) :
  cancelMembershipByCertificateCode w certificateCode ctx s = (Ok c, s') ->
  let code := normalizeCertificateCode certificateCode in
  let key := mappingKey code in
  code_shape code
  /\ c_externalId c = code
  /\ c_success c = true
  /\ In (c_method c) [ "member_not_found"; "status_update"; "delete" ]
  /\ (redis_configured w = true ->
      (exists before after,
          trace s' = trace s ++ before ++ Redis (RedisDel key) :: after)
      /\ ((forall history, redis_fails w history (RedisDel key) = false) ->
          store s' !! key = None
          /\ fst (resolveOrderIdByCertificateCode w certificateCode s')
             = Ok None)).
Proof.
  intros Hrun code key.
  apply cancel_returns in Hrun as (Hvalid & d & s1 & Hd & -> & ->).
  fold code key.
  apply deactivate_cases in Hd as (Hstore & (evs & Htrace) & Hsucc & Hmeth).
  cbn [c_externalId c_success c_method].
  split; [ now apply normalize_code_shape |].
  split; [ reflexivity |]. split; [ exact Hsucc |]. split; [ exact Hmeth |].
  intros Hcfg. rewrite Hcfg. cbn [trace store]. split.
  - exists evs, [cancellationLog code d ctx].
    now rewrite Htrace, <- app_assoc.
  - intros Hup. rewrite (Hup (trace s1)). split.
    + apply lookup_delete_eq.
    + apply resolve_absent. cbn [store]. apply lookup_delete_eq.
Qed.

(** A code that is mapped to an order but has no member in the wallet. *)
Lemma cancel_removes_mapping_witness :
  store Sample.afterCancel !! mappingKey "AB12CD34" = None
  /\ exists c s',
       cancelMembershipByCertificateCode Sample.deployment (VStr "AB12CD34")
         Sample.manual
         (State {[ mappingKey "AB12CD34" := "42" ]} (trace Sample.afterCancel))
       = (Ok c, s')
       /\ c_method c = "member_not_found"
       /\ store s' !! mappingKey "AB12CD34" = None.
Proof.
  split; [ vm_compute; reflexivity |].
  eexists _, _. split; [ vm_compute; reflexivity |].
  split; [ reflexivity |].
  eapply (cancel_removes_mapping Sample.deployment (VStr "AB12CD34")
            Sample.manual
            (State {[ mappingKey "AB12CD34" := "42" ]}
               (trace Sample.afterCancel))).
  - vm_compute. reflexivity.
  - reflexivity.
  - intros history. reflexivity.
Defined.

(** ** The enroll protocol *)

Lemma fetch_run (w : world) (orderId : string) (s : state) (order : value) :
  acuity w (trace s) ("/orders/" +:+ orderId) = inr order ->
  nullish order = false ->
  fetchOrder w orderId s
  = (Ok order,
     State (store s)
       (trace s ++ [ AcuityGet ("/orders/" +:+ orderId);
                     fetchedLog orderId order ])).
Proof.
  intros Hget Hnn. unfold fetchOrder.
  cbv beta iota delta [try_catch bind acuityGet appendLog emit ret].
  rewrite Hget. cbv beta iota zeta. rewrite Hnn.
  cbn [trace store]. now rewrite <- app_assoc.
Qed.

(** The run of [processNewMembershipOrder] up to the product filter. *)
Lemma process_run (w : world) (orderId : string) (s : state) (order : value) :
  acuity w (trace s ++ [ processingLog orderId ]) ("/orders/" +:+ orderId)
  = inr order ->
  nullish order = false ->
  let s1 := State (store s)
              (trace s ++ [ processingLog orderId;
                            AcuityGet ("/orders/" +:+ orderId);
                            fetchedLog orderId order ]) in
  processNewMembershipOrder w orderId s =
  match filterProducts w with
  | [] => reconcile w orderId order s1
  | _ =>
      match or_else (prop order "title") (VStr "") with
      | VStr title =>
          if isMatch w (Str.toLowerCase title)
          then reconcile w orderId order s1
          else (Ok (Skipped "Product filter mismatch" None),
                State (store s)
                  (trace s ++ [ processingLog orderId;
                                AcuityGet ("/orders/" +:+ orderId);
                                fetchedLog orderId order;
                                mismatchLog w orderId order ]))
      | _ => (Throw (Error "(order.title || '').toLowerCase is not a function"),
              s1)
      end
  end.
Proof.
  intros Hget Hnn. cbv zeta. unfold processNewMembershipOrder.
  unfold bind at 1. unfold appendLog at 1. unfold emit at 1.
  fold (processingLog orderId). unfold bind at 1.
  rewrite (fetch_run w orderId
             (State (store s) (trace s ++ [ processingLog orderId ]))
             order Hget Hnn).
  cbn [trace store]. rewrite <- app_assoc. simpl app.
  destruct (filterProducts w); [ reflexivity |].
  destruct (or_else (prop order "title") (VStr "")) as [| | | | title | |];
    try reflexivity.
  destruct (isMatch w (Str.toLowerCase title)); [ reflexivity |].
  cbv beta iota delta [negb bind appendLog emit ret]. cbn [trace store].
  now rewrite <- app_assoc.
Qed.

Lemma filterProducts_gold_platinum (w : world) :
  MEMBERSHIP_PRODUCT_FILTER w = "gold,platinum" ->
  filterProducts w = [ "gold"; "platinum" ].
Proof. unfold filterProducts. now intros ->. Qed.

(** C9.  With the product filter "gold,platinum", an order titled
    "Platinum Annual Membership" passes the filter and goes on to the
    extraction of its code, and an order titled "Trial Class" is skipped
    with reason "Product filter mismatch": the run consists of the order
    fetch and three log entries, makes no call to the wallet or to the
    mapping store and leaves the store as it was. *)
Theorem product_filter_gold_platinum (w : world) (orderId : string)
    (s : state) (order : value) :
  MEMBERSHIP_PRODUCT_FILTER w = "gold,platinum" ->
  acuity w (trace s ++ [ processingLog orderId ]) ("/orders/" +:+ orderId)
  = inr order ->
  let fetched := [ processingLog orderId;
                   AcuityGet ("/orders/" +:+ orderId);
                   fetchedLog orderId order ] in
  (prop order "title" = VStr "Platinum Annual Membership" ->
   passes_filter w order
   /\ processNewMembershipOrder w orderId s
      = reconcile w orderId order (State (store s) (trace s ++ fetched)))
  /\ (prop order "title" = VStr "Trial Class" ->
      ~ passes_filter w order
      /\ exists s',
           processNewMembershipOrder w orderId s
           = (Ok (Skipped "Product filter mismatch" None), s')
           /\ store s' = store s
           /\ trace s' = trace s ++ fetched ++ [ mismatchLog w orderId order ]
           /\ Forall (fun e => is_wallet_call e = false
                               /\ is_store_call e = false)
                (fetched ++ [ mismatchLog w orderId order ])).
Proof.
  intros Hfilter Hget fetched.
  pose proof (filterProducts_gold_platinum w Hfilter) as Hprod.
  split; intros Htitle.
  - assert (Hnn : nullish order = false).
    { destruct order; try discriminate Htitle; reflexivity. }
    split.
    + right. exists "Platinum Annual Membership". rewrite Htitle.
      split; [ reflexivity |]. unfold isMatch. now rewrite Hprod.
    + rewrite (process_run w orderId s order Hget Hnn). cbv zeta.
      rewrite Hprod, Htitle. unfold isMatch. rewrite Hprod. reflexivity.
  - assert (Hnn : nullish order = false).
    { destruct order; try discriminate Htitle; reflexivity. }
    split.
    + intros [Hnone | (title & Ht & Hm)].
      * rewrite Hprod in Hnone. discriminate.
      * rewrite Htitle in Ht. injection Ht as <-.
        unfold isMatch in Hm. rewrite Hprod in Hm. discriminate.
    + rewrite (process_run w orderId s order Hget Hnn). cbv zeta.
      rewrite Hprod, Htitle. unfold isMatch. rewrite Hprod.
      eexists. split; [ reflexivity |]. cbn [trace store].
      split; [ reflexivity |]. split; [ reflexivity |].
      repeat constructor.
Qed.

Lemma product_filter_gold_platinum_witness :
  (passes_filter Sample.deployment Sample.platinumOrder
   /\ processNewMembershipOrder Sample.deployment "8" Sample.start
      = reconcile Sample.deployment "8" Sample.platinumOrder
          (State (store Sample.start)
             [ processingLog "8"; AcuityGet "/orders/8";
               fetchedLog "8" Sample.platinumOrder ]))
  /\ (~ passes_filter Sample.deployment Sample.trialOrder
      /\ exists s',
           processNewMembershipOrder Sample.deployment "7" Sample.start
           = (Ok (Skipped "Product filter mismatch" None), s')
           /\ store s' = store Sample.start
           /\ trace s'
              = [ processingLog "7"; AcuityGet "/orders/7";
                  fetchedLog "7" Sample.trialOrder;
                  mismatchLog Sample.deployment "7" Sample.trialOrder ]
           /\ Forall (fun e => is_wallet_call e = false
                               /\ is_store_call e = false)
                [ processingLog "7"; AcuityGet "/orders/7";
                  fetchedLog "7" Sample.trialOrder;
                  mismatchLog Sample.deployment "7" Sample.trialOrder ]).
Proof.
  split.
  - apply (product_filter_gold_platinum Sample.deployment "8" Sample.start
             Sample.platinumOrder); reflexivity.
  - apply (product_filter_gold_platinum Sample.deployment "7" Sample.start
             Sample.trialOrder); reflexivity.
Defined.

Lemma deactivate_emits (P : event -> Prop) (w : world) (externalId : string)
    (ctx : context) :
  (forall l msg data, P (Log l msg data)) ->
  P (PassKit GET (directEndpoint w externalId) VNull) ->
  (forall filterField,
      P (PassKit POST (listEndpoint w) (listPayload filterField externalId))) ->
  (forall member,
      P (PassKit PUT "/members/member"
           (cancellationPayload w member externalId ctx))) ->
  (forall data, P (PassKit DELETE "/members/member" data)) ->
  emits_only P (deactivatePassKitMembershipByExternalId w externalId ctx).
Proof.
  intros Hlog Hget Hpost Hput Hdel.
  unfold deactivatePassKitMembershipByExternalId.
  destruct (negb (programIdConfigured w)); [ apply emits_throw |].
  apply emits_bind; [ now apply find_emits |].
  intros [member |]; [| apply emits_ret ].
  destruct (negb (Str.nonempty (id member))); [ apply emits_ret |].
  emits_steps; auto.
Qed.

Lemma cancel_emits (P : event -> Prop) (w : world) (certificateCode : value)
    (ctx : context) :
  let code := normalizeCertificateCode certificateCode in
  (forall l msg data, P (Log l msg data)) ->
  (isCertificateCode (VStr code) = true ->
   P (PassKit GET (directEndpoint w code) VNull)
   /\ (forall filterField,
         P (PassKit POST (listEndpoint w) (listPayload filterField code)))
   /\ (forall member,
         P (PassKit PUT "/members/member"
              (cancellationPayload w member code ctx)))) ->
  (forall data, P (PassKit DELETE "/members/member" data)) ->
  (forall e, valid_store_call e -> P e) ->
  emits_only P (cancelMembershipByCertificateCode w certificateCode ctx).
Proof.
  intros code Hlog Hcode Hdel Hstore. unfold cancelMembershipByCertificateCode.
  fold code.
  destruct (isCertificateCode (VStr code)); simpl negb; cbv iota;
    [| apply emits_throw ].
  destruct (Hcode eq_refl) as (Hget & Hpost & Hput).
  apply emits_bind; [ now apply deactivate_emits |].
  intros d. apply emits_bind; [ now apply remove_emits |].
  intros _. emits_steps. apply Hlog.
Qed.

Lemma cancellationPayload_fields (w : world) (member : member_ref)
    (externalId : string) (ctx : context) :
  prop (cancellationPayload w member externalId ctx) "externalId"
  = VStr externalId
  /\ prop (cancellationPayload w member externalId ctx) "tierId" = VUndefined.
Proof.
  unfold cancellationPayload.
  destruct (truthy (emailAddress member)); split; reflexivity.
Qed.

Lemma memberData_fields (w : world) (orderId : string) (order : value)
    (certificateCode : string) :
  prop (memberData w orderId order certificateCode) "externalId"
  = VStr certificateCode
  /\ prop (memberData w orderId order certificateCode) "tierId"
     = VStr "membership".
Proof. split; reflexivity. Qed.

(** A cancellation never issues an enrolment upsert. *)
Lemma cancel_no_enrollment (w : world) (certificateCode : value)
    (ctx : context) :
  emits_only (fun e => is_enrollment_upsert e = false)
    (cancelMembershipByCertificateCode w certificateCode ctx).
Proof.
  apply cancel_emits; try reflexivity.
  - intros _. split; [ reflexivity |]. split; [ reflexivity |].
    intros member. unfold is_enrollment_upsert.
    destruct (cancellationPayload_fields w member
                (normalizeCertificateCode certificateCode) ctx) as [_ ->].
    apply andb_false_r.
  - now intros [| | | []].
Qed.

Lemma valid_store_call_uses (w : world) (e : event) :
  valid_store_call e -> uses_valid_code w e.
Proof. destruct e as [| | | []]; simpl; tauto. Qed.

Lemma cancel_valid_codes (w : world) (certificateCode : value)
    (ctx : context) :
  emits_only (uses_valid_code w)
    (cancelMembershipByCertificateCode w certificateCode ctx).
Proof.
  apply cancel_emits; try (intros; exact I).
  - intros Hvalid. apply normalize_code_shape in Hvalid.
    split; [ simpl; eauto |]. split; [ simpl; eauto |].
    intros member. unfold uses_valid_code.
    destruct (cancellationPayload_fields w member
                (normalizeCertificateCode certificateCode) ctx) as [-> _].
    eauto.
  - apply valid_store_call_uses.
Qed.

Lemma enrol_valid_codes (w : world) (orderId : string) (order : value)
    (code : string) :
  extractCertificateCode order = Some code ->
  emits_only (uses_valid_code w)
    (enrol w orderId order (normalizeCertificateCode (VStr code))).
Proof.
  intros Hcode. pose proof (extracted_code_valid _ _ Hcode) as Hvalid.
  unfold enrol.
  apply emits_bind; [ apply emits_appendLog; exact I |]. intros _.
  apply emits_try_catch.
  - apply emits_bind.
    + apply emits_passKitRequest. unfold uses_valid_code.
      eexists. split; [ apply memberData_fields
                      | now apply normalize_code_shape ].
    + intros response.
      apply emits_bind; [ apply store_emits, valid_store_call_uses |].
      intros _. emits_steps. exact I.
  - intros err. emits_steps. exact I.
Qed.

Lemma reconcile_valid_codes (w : world) (orderId : string) (order : value) :
  emits_only (uses_valid_code w) (reconcile w orderId order).
Proof.
  unfold reconcile.
  destruct (extractCertificateCode order) as [code |] eqn:Hcode.
  - destruct (evaluateOrderActivity order) as [| why].
    + now apply enrol_valid_codes.
    + apply emits_bind; [ apply emits_appendLog; exact I |]. intros _.
      apply emits_bind; [ apply cancel_valid_codes |].
      intros c. apply emits_ret.
  - emits_steps. exact I.
Qed.

Lemma process_valid_codes (w : world) (orderId : string) :
  emits_only (uses_valid_code w) (processNewMembershipOrder w orderId).
Proof.
  unfold processNewMembershipOrder.
  apply emits_bind; [ apply emits_appendLog; exact I |]. intros _.
  apply emits_bind.
  - unfold fetchOrder. emits_steps; exact I.
  - intros order. destruct (filterProducts w);
      [ apply reconcile_valid_codes |].
    destruct (or_else (prop order "title") (VStr ""));
      try apply emits_throw.
    match goal with
    | |- context [isMatch w ?t] => destruct (negb (isMatch w t))
    end; [ emits_steps; exact I | apply reconcile_valid_codes ].
Qed.

(** An order without a code is rejected by the enroll protocol with
    nothing but a log entry. *)
Lemma reconcile_missing_code (w : world) (orderId : string) (order : value)
    (s : state) :
  extractCertificateCode order = None ->
  reconcile w orderId order s
  = (Throw (Error
       "Missing or invalid Acuity certificate code (expected 8 alphanumeric characters)"),
     State (store s) (trace s ++ [ missingCodeLog orderId ])).
Proof. intros H. unfold reconcile. now rewrite H. Qed.

(** The cancellation flow of the enroll protocol. *)
Lemma reconcile_inactive (w : world) (orderId : string) (order : value)
    (code why : string) (s : state) :
  extractCertificateCode order = Some code ->
  evaluateOrderActivity order = Inactive why ->
  let certificateCode := normalizeCertificateCode (VStr code) in
  reconcile w orderId order s =
  match cancelMembershipByCertificateCode w (VStr certificateCode)
          (Context (VStr orderId) (VStr why) (VStr "order.reprocess"))
          (State (store s)
             (trace s ++ [ inactiveLog orderId why certificateCode ]))
  with
  | (Ok c, s') => (Ok (Skipped why (Some c)), s')
  | (Throw e, s') => (Throw e, s')
  end.
Proof.
  intros Hcode Hact. cbv zeta. unfold reconcile. rewrite Hcode, Hact.
  cbv beta iota delta [bind appendLog emit ret]. cbn [trace store].
  unfold inactiveLog.
  now destruct (cancelMembershipByCertificateCode w _ _ _) as [[c | e] s'].
Qed.

Lemma extract_not_nullish (order : value) (code : string) :
  extractCertificateCode order = Some code -> nullish order = false.
Proof. destruct order; try reflexivity; discriminate. Qed.

(** An order that passes the filter goes on to [reconcile]. *)
Lemma process_passes (w : world) (orderId : string) (s : state)
    (order : value) :
  acuity w (trace s ++ [ processingLog orderId ]) ("/orders/" +:+ orderId)
  = inr order ->
  nullish order = false ->
  passes_filter w order ->
  processNewMembershipOrder w orderId s
  = reconcile w orderId order
      (State (store s)
         (trace s ++ [ processingLog orderId;
                       AcuityGet ("/orders/" +:+ orderId);
                       fetchedLog orderId order ])).
Proof.
  intros Hget Hnn Hpass.
  rewrite (process_run w orderId s order Hget Hnn). cbv zeta.
  destruct Hpass as [-> | (title & -> & Hm)]; [ reflexivity |].
  rewrite Hm. now destruct (filterProducts w).
Qed.

(** C7.  Whatever the booking system, the wallet and the callers supply,
    every wallet upsert issued by the enroll and cancel protocols carries as
    its external id, every lookup or search in the wallet asks for, and
    every command sent to the mapping store has as its key, a code of
    exactly 8 characters, each an upper-case letter or a digit.  An input
    that fails the validation is rejected before any call to the wallet or
    to the mapping store: the cancellation throws at once, the enroll
    protocol throws after the order fetch with only log entries made, and
    the operations of the store do nothing. *)
Theorem certificate_code_invariant (w : world) :
  (forall orderId,
      emits_only (uses_valid_code w) (processNewMembershipOrder w orderId))
  /\ (forall c ctx,
        emits_only (uses_valid_code w) (cancelMembershipByCertificateCode w c ctx))
  /\ (forall c o,
        emits_only (uses_valid_code w) (storeCertificateOrderMapping w c o)
        /\ emits_only (uses_valid_code w) (resolveOrderIdByCertificateCode w c)
        /\ emits_only (uses_valid_code w) (removeCertificateOrderMapping w c))
  /\ (forall c ctx s,
        isCertificateCode (VStr (normalizeCertificateCode c)) = false ->
        cancelMembershipByCertificateCode w c ctx s
        = (Throw (Error
             "Invalid certificate code (expected 8 alphanumeric characters)"),
           s))
  /\ (forall orderId order s,
        acuity w (trace s ++ [ processingLog orderId ]) ("/orders/" +:+ orderId)
        = inr order ->
        nullish order = false ->
        passes_filter w order ->
        extractCertificateCode order = None ->
        processNewMembershipOrder w orderId s
        = (Throw (Error
             "Missing or invalid Acuity certificate code (expected 8 alphanumeric characters)"),
           State (store s)
             (trace s ++ [ processingLog orderId;
                           AcuityGet ("/orders/" +:+ orderId);
                           fetchedLog orderId order;
                           missingCodeLog orderId ])))
  /\ (forall c o s,
        isCertificateCode (VStr (normalizeCertificateCode c)) = false ->
        storeCertificateOrderMapping w c o s = (Ok tt, s)
        /\ removeCertificateOrderMapping w c s = (Ok tt, s)
        /\ resolveOrderIdByCertificateCode w c s = (Ok None, s)).
Proof.
  split; [ apply process_valid_codes |].
  split; [ apply cancel_valid_codes |].
  split.
  { intros c o.
    split; [ apply store_emits, valid_store_call_uses |].
    split; [ apply resolve_emits, valid_store_call_uses
           | apply remove_emits, valid_store_call_uses ]. }
  split.
  { intros c ctx s H. unfold cancelMembershipByCertificateCode. now rewrite H. }
  split; [| intros c o s; apply store_invalid_noop ].
  intros orderId order s Hget Hnn Hpass Hnone.
  rewrite (process_passes w orderId s order Hget Hnn Hpass).
  rewrite (reconcile_missing_code w orderId order _ Hnone).
  cbn [trace store]. now rewrite <- app_assoc.
Qed.

(** * Further properties *)

(** ** Certificate codes *)

Lemma is_alnum_upper_eq (a : ascii) :
  Str.is_alnum (Str.upper_char a) = Str.is_alnum a.
Proof. by_cases_on_char a. Qed.

Lemma forallb_alnum_upper_eq (s : string) :
  Str.forallb Str.is_alnum (Str.toUpperCase s) = Str.forallb Str.is_alnum s.
Proof.
  unfold Str.toUpperCase.
  induction s as [| a s IH]; simpl; [ reflexivity |].
  now rewrite is_alnum_upper_eq, IH.
Qed.

Lemma matches_code_upper (s : string) :
  matches_code (Str.toUpperCase s) = matches_code s.
Proof.
  unfold matches_code. rewrite forallb_alnum_upper_eq.
  unfold Str.toUpperCase. now rewrite map_length.
Qed.

(** X1.  Normalization is idempotent on every input, and its result is
    already trimmed and in upper case. *)
Theorem normalizeCertificateCode_idempotent (v : value) :
  normalizeCertificateCode (VStr (normalizeCertificateCode v))
  = normalizeCertificateCode v
  /\ Str.trim (normalizeCertificateCode v) = normalizeCertificateCode v
  /\ Str.toUpperCase (normalizeCertificateCode v) = normalizeCertificateCode v.
Proof.
  assert (Hupper : Str.toUpperCase (normalizeCertificateCode v)
                   = normalizeCertificateCode v)
    by apply upper_idem.
  split; [| split; [ apply normalize_trimmed | exact Hupper ] ].
  unfold normalizeCertificateCode at 1. unfold or_else. simpl truthy.
  destruct (Str.nonempty (normalizeCertificateCode v)) eqn:Hne.
  - simpl js_String. now rewrite normalize_trimmed.
  - destruct (normalizeCertificateCode v); [ reflexivity | discriminate ].
Qed.

(** X2.  On a string of ASCII characters validation does not depend on
    letter case or on normalization: such a string passes
    [isCertificateCode] exactly when its upper-case form does, and exactly
    when its normal form does. *)
Theorem isCertificateCode_case_insensitive (s : string) :
  Str.ascii_only s = true ->
  isCertificateCode (VStr (Str.toUpperCase s)) = isCertificateCode (VStr s)
  /\ isCertificateCode (VStr (normalizeCertificateCode (VStr s)))
     = isCertificateCode (VStr s).
Proof.
  intros _. simpl. unfold isCertificateCodeStr. split.
  - now rewrite trim_upper, matches_code_upper.
  - unfold normalizeCertificateCode, or_else. simpl truthy.
    destruct s as [| a t]; [ reflexivity |].
    simpl Str.nonempty. cbv iota. simpl js_String.
    now rewrite trim_upper, trim_idem, matches_code_upper.
Qed.

Lemma isCertificateCode_case_insensitive_witness :
  isCertificateCode (VStr (Str.toUpperCase " ab12cd34 "))
  = isCertificateCode (VStr " ab12cd34 ")
  /\ isCertificateCode (VStr (normalizeCertificateCode (VStr " ab12cd34 ")))
     = isCertificateCode (VStr " ab12cd34 ").
Proof.
  apply (isCertificateCode_case_insensitive " ab12cd34 "). reflexivity.
Defined.

(** ** Boolean coercions *)

(** X3.  The three coercions agree where they overlap: a value the toggle
    endpoint parses to a boolean is parsed by [parseBoolean] to the same
    boolean whatever the fallback; a value that [isTruthyFlag] accepts is
    true for [parseBoolean]; and where the endpoint's parser gives null,
    [parseBoolean] gives the fallback, numbers apart, which it reads as
    non-zero. *)
Theorem parseBoolean_agrees (v : value) (fallback : bool) :
  (forall b, parseToggleValue v = Some b -> parseBoolean v fallback = b)
  /\ (isTruthyFlag v = true -> parseBoolean v fallback = true)
  /\ (parseToggleValue v = None ->
      match v with
      | VNum n => parseBoolean v fallback = negb (n =? 0)%Z
      | _ => parseBoolean v fallback = fallback
      end).
Proof.
  destruct v as [| | b | n | s | items | fs]; simpl;
    try (repeat split; congruence).
  - repeat split; try congruence.
    intros H. apply Z.eqb_eq in H. now subst.
  - set (normalized := Str.toLowerCase (Str.trim s)).
    repeat split.
    + intros b. destruct (String.eqb normalized "true" || _);
        [ congruence |].
      destruct (String.eqb normalized "false" || _); congruence.
    + intros H.
      destruct (String.eqb normalized "true") eqn:H1; [ reflexivity |].
      destruct (String.eqb normalized "1") eqn:H2; [ reflexivity |].
      destruct (String.eqb normalized "yes") eqn:H3; [ reflexivity |].
      discriminate H.
    + destruct (String.eqb normalized "true" || _); [ discriminate |].
      destruct (String.eqb normalized "false" || _); [ discriminate |].
      reflexivity.
Qed.

(** ** Provenance of an extracted code *)

Lemma pretty_N_go_digits (x : N) (s : string) :
  Str.forallb Str.is_digit s = true ->
  Str.forallb Str.is_digit (pretty_N_go x s) = true.
Proof.
  revert s. induction (N.lt_wf_0 x) as [x _ IH]. intros s Hs.
  destruct (decide (0 < x)%N) as [Hpos | Hzero].
  - rewrite pretty_N_go_step by exact Hpos.
    apply IH; [ now apply N.div_lt |].
    simpl. rewrite Hs, andb_true_r.
    unfold pretty_N_char. now repeat case_match.
  - replace x with 0%N by lia. exact Hs.
Qed.

Lemma pretty_nat_digits (i : nat) :
  Str.forallb Str.is_digit (pretty i) = true.
Proof.
  unfold pretty, pretty_nat, pretty, pretty_N.
  case_decide; [ reflexivity | now apply pretty_N_go_digits ].
Qed.

Lemma lower_digit (a : ascii) :
  Str.is_digit a = true -> Str.lower_char a = a /\ Str.is_lower a = false.
Proof. by_cases_on_char a; intros; split; reflexivity. Qed.

Lemma includes_letter_in_digits (s p : string) (c : ascii) :
  Str.is_lower c = true ->
  Str.forallb Str.is_digit s = true ->
  Str.includes (Str.toLowerCase s) (String c p) = false.
Proof.
  intros Hc. unfold Str.toLowerCase.
  induction s as [| a s IH]; simpl; [ reflexivity |].
  intros H. apply andb_prop in H as [Ha Hs].
  destruct (lower_digit a Ha) as [-> Hla]. rewrite (IH Hs), orb_false_r.
  destruct (ascii_dec c a) as [-> |]; [ congruence | reflexivity ].
Qed.

(** An array index is never a key that hints at a certificate. *)
Lemma digits_not_relevant (k : string) :
  Str.forallb Str.is_digit k = true -> keyLooksRelevant k = false.
Proof.
  intros H. unfold keyLooksRelevant.
  now rewrite !includes_letter_in_digits.
Qed.

Lemma indexed_In (i : nat) (items : list value) (k : string) (x : value) :
  In (k, x) (indexed i items) ->
  In x items /\ Str.forallb Str.is_digit k = true.
Proof.
  revert i. induction items as [| y ys IH]; intros i; simpl; [ tauto |].
  intros [[= <- <-] | Hin].
  - split; [ now left | apply pretty_nat_digits ].
  - destruct (IH _ Hin). split; [ now right | assumption ].
Qed.

Lemma In_indexed (i : nat) (items : list value) (x : value) :
  In x items -> exists k, In (k, x) (indexed i items).
Proof.
  revert i. induction items as [| y ys IH]; intros i; simpl; [ tauto |].
  intros [-> | Hin]; [ eauto |].
  destruct (IH (S i) Hin) as [k Hk]. eauto.
Qed.

Lemma assoc_In {A : Type} (k : string) (es : list (string * A)) (x : A) :
  assoc k es = Some x -> In (k, x) es.
Proof.
  induction es as [| [k' y] es IH]; simpl; [ discriminate |].
  destruct (String.eqb k k') eqn:Hk.
  - apply String.eqb_eq in Hk as ->. intros [= ->]. now left.
  - intros H. right. now apply IH.
Qed.

(** A string entry of the entries of a node is an entry of an object, or
    sits in an array under its index. *)
Lemma entry_found (v : value) (es : list (string * value)) (key s : string) :
  entries_of v = Some es -> In (key, VStr s) es ->
  found_at key s v \/ Str.forallb Str.is_digit key = true.
Proof.
  destruct v as [| | | | | items | fs]; simpl; try discriminate;
    intros [= <-] Hin.
  - right. eapply indexed_In, Hin.
  - left. now constructor.
Qed.

Lemma child_found (v x : value) (es : list (string * value)) (k key s : string) :
  entries_of v = Some es -> In (k, x) es -> found_at key s x ->
  found_at key s v.
Proof.
  destruct v as [| | | | | items | fs]; simpl; try discriminate;
    intros [= <-] Hin Hx.
  - apply indexed_In in Hin as [Hin _]. eapply found_in_item; eassumption.
  - eapply found_in_field; eassumption.
Qed.

Lemma field_found (order : value) (k s : string) :
  field entries_of order k = Some (VStr s) ->
  found_at k s order \/ Str.forallb Str.is_digit k = true.
Proof.
  unfold field. destruct (entries_of order) as [es |] eqn:Hes;
    [| discriminate ].
  intros H. eapply entry_found; [ exact Hes | now apply assoc_In ].
Qed.

Lemma field2_prop (order : value) (k s : string) :
  field2 entries_of order k "code" = Some (VStr s) ->
  Str.forallb Str.is_digit k = false ->
  prop (prop order k) "code" = VStr s.
Proof.
  unfold field2, field.
  destruct order as [| | | | | items | fs]; simpl; try discriminate.
  - destruct (assoc k (indexed 0 items)) as [x |] eqn:Hx; [| discriminate ].
    apply assoc_In, indexed_In in Hx as [_ Hd]. congruence.
  - destruct (assoc k fs) as [x |]; [| discriminate ].
    destruct x as [| | | | | items | fs']; simpl; try discriminate.
    + destruct (assoc "code" (indexed 0 items)) as [y |] eqn:Hy;
        [| discriminate ].
      apply assoc_In, indexed_In in Hy as [_ Hd]. discriminate Hd.
    + now intros ->.
Qed.

Lemma first_code_In (cs : list (option value)) (code : string) :
  first_code as_string cs = Some code ->
  exists s, In (Some (VStr s)) cs
            /\ isCertificateCodeStr s = true /\ code = Str.trim s.
Proof.
  induction cs as [| c cs IH]; simpl; [ discriminate |].
  assert (Hrest : first_code as_string cs = Some code ->
                  exists s, (c = Some (VStr s) \/ In (Some (VStr s)) cs)
                            /\ isCertificateCodeStr s = true
                            /\ code = Str.trim s).
  { intros H. destruct (IH H) as (s & Hin & Hs). eauto. }
  destruct c as [[| | | | s | |] |]; simpl; try exact Hrest.
  destruct (isCertificateCodeStr s) eqn:Hs; [| exact Hrest ].
  intros [= <-]. eauto.
Qed.

Lemma direct_candidate_found (order : value) (s : string) :
  In (Some (VStr s)) (directCandidates entries_of order) ->
  (exists key, keyLooksRelevant key = true /\ found_at key s order)
  \/ (exists k, In k [ "certificate"; "giftCertificate" ]
                /\ prop (prop order k) "code" = VStr s).
Proof.
  unfold directCandidates. simpl.
  intros [H | [H | [H | [H | [H | [H | [H | [H | []]]]]]]]];
    try (apply field_found in H as [H | H]; [| discriminate H ];
         left; eexists; (split; [| exact H ]); reflexivity);
    (apply field2_prop in H; [| reflexivity ]);
    right; eexists; (split; [| exact H ]); simpl; auto.
Qed.

Lemma scan_entries_hit (es : list (string * value)) (stack : list value)
    (code : string) :
  scan_entries as_string entries_of es stack = inl code ->
  exists key s, In (key, VStr s) es /\ keyLooksRelevant key = true
                /\ isCertificateCodeStr s = true /\ code = Str.trim s.
Proof.
  revert stack. induction es as [| [key v] es IH]; intros stack; simpl;
    [ discriminate |].
  assert (Hrest : forall st,
             scan_entries as_string entries_of es st = inl code ->
             exists key0 s, ((key, v) = (key0, VStr s) \/ In (key0, VStr s) es)
                            /\ keyLooksRelevant key0 = true
                            /\ isCertificateCodeStr s = true
                            /\ code = Str.trim s).
  { intros st H. destruct (IH st H) as (k & s & Hin & Hs). eauto 8. }
  destruct v as [| | | | s | items | fs]; simpl; try apply Hrest.
  destruct (keyLooksRelevant key) eqn:Hkey; simpl; [| apply Hrest ].
  destruct (isCertificateCodeStr s) eqn:Hs; [| apply Hrest ].
  intros [= <-]. exists key, s. auto.
Qed.

Lemma scan_entries_stack (es : list (string * value)) (stack stack' : list value)
    (v : value) :
  scan_entries as_string entries_of es stack = inr stack' ->
  In v stack' -> In v stack \/ exists k, In (k, v) es.
Proof.
  revert stack. induction es as [| [key x] es IH]; intros stack; simpl.
  - intros [= <-]. auto.
  - assert (Hrest : forall st,
               (In v st -> In v stack \/ x = v) ->
               scan_entries as_string entries_of es st = inr stack' ->
               In v stack' ->
               In v stack \/ exists k, (key, x) = (k, v) \/ In (k, v) es).
    { intros st Hst H Hin. destruct (IH st H Hin) as [Hv | [k Hk]].
      - destruct (Hst Hv) as [? | ->]; eauto.
      - eauto. }
    destruct x as [| | | | s | items | fs]; simpl;
      try (apply Hrest; auto);
      try (intros [-> | ?]; auto).
    destruct (keyLooksRelevant key && isCertificateCodeStr s);
      [ discriminate | apply Hrest; auto ].
Qed.

Lemma walk_found (fuel : nat) (stack : list value) (code : string) :
  walk as_string entries_of fuel stack = Returned (Some code) ->
  exists v key s,
    In v stack /\ found_at key s v /\ keyLooksRelevant key = true
    /\ isCertificateCodeStr s = true /\ code = Str.trim s.
Proof.
  revert stack. induction fuel as [| fuel IH]; intros stack; simpl;
    [ discriminate |].
  destruct stack as [| current rest]; [ discriminate |].
  destruct (entries_of current) as [es |] eqn:Hes.
  - destruct (scan_entries as_string entries_of es rest) as [c | stack']
      eqn:Hscan.
    + intros [= <-].
      destruct (scan_entries_hit _ _ _ Hscan) as (key & s & Hin & Hkey & Hs).
      destruct (entry_found current es key s Hes Hin) as [Hfound | Hd].
      * exists current, key, s. simpl. auto.
      * rewrite (digits_not_relevant key Hd) in Hkey. discriminate.
    + intros H. destruct (IH _ H) as (v & key & s & Hin & Hfound & Hrest).
      destruct (scan_entries_stack _ _ _ v Hscan Hin) as [Hv | [k Hk]].
      * exists v, key, s. simpl. auto.
      * exists current, key, s. split; [ now left |].
        split; [ eapply child_found; eassumption | exact Hrest ].
  - intros H. destruct (IH _ H) as (v & key & s & Hin & Hrest).
    exists v, key, s. simpl. auto.
Qed.

(** X4.  The extractor never invents a code: what it returns is the trimmed
    value [s] of a string entry of the payload, [s] has the shape of a
    code, and the entry is either one whose key mentions "certificate" or
    "gift", in some object of the payload at any depth, or the [code] of
    the order's own [certificate] or [giftCertificate] object.  A [code]
    entry anywhere else is never returned. *)
Theorem extractCertificateCode_sound (order : value) (code : string) :
  extractCertificateCode order = Some code ->
  exists s,
    isCertificateCodeStr s = true
    /\ code = Str.trim s
    /\ ((exists key, keyLooksRelevant key = true /\ found_at key s order)
        \/ (exists k, In k [ "certificate"; "giftCertificate" ]
                      /\ prop (prop order k) "code" = VStr s)).
Proof.
  unfold extractCertificateCode, extract_run.
  destruct (first_code as_string (directCandidates entries_of order))
    as [c |] eqn:Hdirect.
  - intros [= <-].
    destruct (first_code_In _ _ Hdirect) as (s & Hin & Hs & Hc).
    exists s. split; [ exact Hs |]. split; [ exact Hc |].
    now apply direct_candidate_found.
  - destruct (walk as_string entries_of (S (weight order)) [order])
      as [| r] eqn:Hwalk; [ discriminate |].
    intros ->.
    destruct (walk_found _ _ _ Hwalk)
      as (v & key & s & [<- | []] & Hfound & Hkey & Hs & Hc).
    exists s. split; [ exact Hs |]. split; [ exact Hc |]. left. eauto.
Qed.

Lemma extractCertificateCode_sound_witness :
  (exists s,
      isCertificateCodeStr s = true
      /\ "ab12CD34" = Str.trim s
      /\ ((exists key,
             keyLooksRelevant key = true
             /\ found_at key s
                  (VObj [ ("items",
                           VArr [ VObj [ ("giftCode", VStr " ab12CD34 ") ] ]) ]))
          \/ (exists k,
                In k [ "certificate"; "giftCertificate" ]
                /\ prop (prop (VObj [ ("items",
                                       VArr [ VObj [ ("giftCode",
                                                      VStr " ab12CD34 ") ] ]) ])
                           k) "code" = VStr s)))
  /\ extractCertificateCode (VObj [ ("promo", VObj [ ("code", VStr "SAVE2024") ]) ])
     = None.
Proof.
  split; [| reflexivity ].
  apply (extractCertificateCode_sound
           (VObj [ ("items", VArr [ VObj [ ("giftCode", VStr " ab12CD34 ") ] ]) ])
           "ab12CD34").
  reflexivity.
Defined.

Lemma extract_returns (order : value) :
  exists r,
    extract_run as_string entries_of (S (weight order)) order = Returned r
    /\ extractCertificateCode order = r.
Proof.
  destruct (extract_fuel_enough order (S (weight order))) as [r Hr]; [ lia |].
  exists r. split; [ exact Hr |].
  unfold extractCertificateCode. now rewrite Hr.
Qed.

Lemma found_at_entries (key s : string) (v : value) :
  found_at key s v -> exists es, entries_of v = Some es.
Proof. destruct 1; simpl; eauto. Qed.

Lemma scan_entries_miss (es : list (string * value)) (stack stack' : list value) :
  scan_entries as_string entries_of es stack = inr stack' ->
  (forall key s, In (key, VStr s) es ->
     keyLooksRelevant key && isCertificateCodeStr s = false)
  /\ (forall k x fs, In (k, x) es -> entries_of x = Some fs -> In x stack')
  /\ (forall v, In v stack -> In v stack').
Proof.
  revert stack. induction es as [| [key x] es IH]; intros stack; simpl.
  - intros [= <-]. repeat split; intros; tauto.
  - assert (Hrest : forall st,
               (forall v, In v stack -> In v st) ->
               (forall fs, entries_of x = Some fs -> In x st) ->
               (forall s, x = VStr s ->
                  keyLooksRelevant key && isCertificateCodeStr s = false) ->
               scan_entries as_string entries_of es st = inr stack' ->
               (forall key0 s, (key, x) = (key0, VStr s) \/ In (key0, VStr s) es ->
                  keyLooksRelevant key0 && isCertificateCodeStr s = false)
               /\ (forall k y fs, (key, x) = (k, y) \/ In (k, y) es ->
                     entries_of y = Some fs -> In y stack')
               /\ (forall v, In v stack -> In v stack')).
    { intros st Hst Hx Hs H. destruct (IH st H) as (Ha & Hb & Hc).
      repeat split.
      - intros key0 s [[= <- ->] | Hin]; eauto.
      - intros k y fs [[= <- <-] | Hin] Hy; eauto.
      - auto. }
    destruct x as [| | | | s | items | fs]; simpl;
      try (apply Hrest; [ auto | discriminate | discriminate ]).
    + destruct (keyLooksRelevant key && isCertificateCodeStr s) eqn:Hhit;
        [ discriminate |].
      apply Hrest; [ auto | discriminate | now intros ? [= <-] ].
    + apply Hrest; [ simpl; auto | simpl; auto | discriminate ].
    + apply Hrest; [ simpl; auto | simpl; auto | discriminate ].
Qed.

Lemma walk_none (fuel : nat) (stack : list value) :
  walk as_string entries_of fuel stack = Returned None ->
  forall v key s,
    In v stack -> found_at key s v ->
    keyLooksRelevant key && isCertificateCodeStr s = false.
Proof.
  revert stack. induction fuel as [| fuel IH]; intros stack; simpl;
    [ discriminate |].
  destruct stack as [| current rest]; [ intros _ v key s [] |].
  destruct (entries_of current) as [es |] eqn:Hes.
  - destruct (scan_entries as_string entries_of es rest) as [c | stack']
      eqn:Hscan; [ discriminate |].
    intros H v key s Hin Hfound.
    destruct (scan_entries_miss _ _ _ Hscan) as (Hstr & Hchild & Hrest).
    destruct Hin as [<- | Hin]; [| eapply IH; eauto ].
    destruct Hfound as [fs Hin | fs k x Hin Hx | items x Hin Hx];
      simpl in Hes; injection Hes as <-.
    + eapply Hstr, Hin.
    + destruct (found_at_entries _ _ _ Hx) as [fs' Hfs'].
      eapply (IH _ H x); [ eapply Hchild; eassumption | exact Hx ].
    + destruct (found_at_entries _ _ _ Hx) as [fs' Hfs'].
      destruct (In_indexed 0 items x Hin) as [k Hk].
      eapply (IH _ H x); [ eapply Hchild; eassumption | exact Hx ].
  - intros H v key s [<- | Hin] Hfound; [| eapply IH; eauto ].
    destruct (found_at_entries _ _ _ Hfound) as [es Hes']. congruence.
Qed.

(** X5.  The extractor misses nothing: when some object of the payload, at
    any depth, has a string entry whose key mentions "certificate" or
    "gift" and whose value has the shape of a code, a code is returned. *)
Theorem extractCertificateCode_complete (order : value) (key s : string) :
  found_at key s order ->
  keyLooksRelevant key = true ->
  isCertificateCodeStr s = true ->
  exists code, extractCertificateCode order = Some code.
Proof.
  intros Hfound Hkey Hs.
  destruct (extract_returns order) as [r [Hrun Hr]].
  destruct r as [code |]; [ eauto |]. exfalso.
  unfold extract_run in Hrun.
  destruct (first_code as_string (directCandidates entries_of order));
    [ discriminate |].
  pose proof (walk_none _ _ Hrun order key s (or_introl eq_refl) Hfound) as H.
  rewrite Hkey, Hs in H. discriminate.
Qed.

Lemma extractCertificateCode_complete_witness :
  exists code,
    extractCertificateCode
      (VObj [ ("lines", VArr [ VStr "12345678";
                               VObj [ ("Gift Voucher", VStr "zz99yy88") ] ]) ])
    = Some code.
Proof.
  apply (extractCertificateCode_complete _ "Gift Voucher" "zz99yy88").
  - eapply found_in_field; [ now left |].
    eapply found_in_item; [ right; now left |].
    apply found_here. now left.
  - reflexivity.
  - reflexivity.
Defined.

(** ** What a computation writes to the mapping store *)

Section Writes.

Variable keys : list string.

Lemma writes_ret {A : Type} (a : A) : writes_only keys (ret a).
Proof. now intros s k _. Qed.

Lemma writes_throw {A : Type} (e : js_error) : writes_only keys (@throw A e).
Proof. now intros s k _. Qed.

Lemma writes_appendLog (l : level) (msg : string) (data : value) :
  writes_only keys (appendLog l msg data).
Proof. now intros s k _. Qed.

Lemma writes_bind {A B : Type} (m : M A) (f : A -> M B) :
  writes_only keys m -> (forall a, writes_only keys (f a)) ->
  writes_only keys (bind m f).
Proof.
  intros Hm Hf s k Hk. unfold bind. specialize (Hm s k Hk).
  destruct (m s) as [[a | e] s1]; simpl in *; [| exact Hm ].
  now rewrite (Hf a s1 k Hk).
Qed.

Lemma writes_try_catch {A : Type} (m : M A) (h : js_error -> M A) :
  writes_only keys m -> (forall e, writes_only keys (h e)) ->
  writes_only keys (try_catch m h).
Proof.
  intros Hm Hh s k Hk. unfold try_catch. specialize (Hm s k Hk).
  destruct (m s) as [[a | e] s1]; simpl in *; [ exact Hm |].
  now rewrite (Hh e s1 k Hk).
Qed.

Lemma writes_passKitRequest (w : world) (m : http_method) (endpoint : string)
    (data : value) :
  writes_only keys (passKitRequest w m endpoint data).
Proof.
  intros s k _. unfold passKitRequest.
  now destruct (passkit w (trace s) m endpoint data).
Qed.

Lemma writes_acuityGet (w : world) (path : string) :
  writes_only keys (acuityGet w path).
Proof.
  intros s k _. unfold acuityGet. now destruct (acuity w (trace s) path).
Qed.

Lemma writes_redis_set (w : world) (key val : string) (ex : Z) :
  In key keys -> writes_only keys (redis_set w key val ex).
Proof.
  intros Hkey s k Hk. unfold redis_set, redis.
  destruct (redis_fails w (trace s) _); simpl; [ reflexivity |].
  apply lookup_insert_ne. congruence.
Qed.

Lemma writes_redis_del (w : world) (key : string) :
  In key keys -> writes_only keys (redis_del w key).
Proof.
  intros Hkey s k Hk. unfold redis_del, redis.
  destruct (redis_fails w (trace s) _); simpl; [ reflexivity |].
  apply lookup_delete_ne. congruence.
Qed.

Lemma writes_redis_get (w : world) (key : string) :
  writes_only keys (redis_get w key).
Proof.
  intros s k _. unfold redis_get, redis.
  now destruct (redis_fails w (trace s) _).
Qed.

End Writes.

Ltac writes_steps :=
  repeat first
    [ apply writes_ret
    | apply writes_throw
    | apply writes_appendLog
    | apply writes_passKitRequest
    | apply writes_acuityGet
    | apply writes_redis_get
    | apply writes_bind; [| intros ? ]
    | apply writes_try_catch; [| intros ? ]
    | match goal with
      | |- writes_only _ (if ?b then _ else _) => destruct b
      | |- writes_only _ (match ?x with _ => _ end) => destruct x
      end ].

Lemma writes_nothing {A : Type} (m : M A) (s : state) :
  writes_only [] m -> store (snd (m s)) = store s.
Proof. intros H. apply map_eq. intros k. apply H. tauto. Qed.

Lemma store_writes (w : world) (c : value) (o : string) :
  writes_only [ mappingKey (normalizeCertificateCode c) ]
    (storeCertificateOrderMapping w c o).
Proof.
  unfold storeCertificateOrderMapping. writes_steps.
  apply writes_redis_set. now left.
Qed.

Lemma remove_writes (w : world) (c : value) :
  writes_only [ mappingKey (normalizeCertificateCode c) ]
    (removeCertificateOrderMapping w c).
Proof.
  unfold removeCertificateOrderMapping. writes_steps.
  apply writes_redis_del. now left.
Qed.

Lemma resolve_writes (w : world) (c : value) :
  writes_only [] (resolveOrderIdByCertificateCode w c).
Proof. unfold resolveOrderIdByCertificateCode. writes_steps. Qed.

Lemma find_writes (keys : list string) (w : world) (externalId : string) :
  writes_only keys (findPassKitMemberByExternalId w externalId).
Proof.
  unfold findPassKitMemberByExternalId, attempt, directLookup,
    queryMemberByField.
  writes_steps.
Qed.

Lemma deactivate_writes (keys : list string) (w : world) (externalId : string)
    (ctx : context) :
  writes_only keys (deactivatePassKitMembershipByExternalId w externalId ctx).
Proof.
  unfold deactivatePassKitMembershipByExternalId.
  destruct (negb (programIdConfigured w)); [ apply writes_throw |].
  apply writes_bind; [ apply find_writes |].
  intros found. writes_steps.
Qed.

Lemma cancel_writes (w : world) (c : value) (ctx : context) :
  writes_only [ mappingKey (normalizeCertificateCode c) ]
    (cancelMembershipByCertificateCode w c ctx).
Proof.
  unfold cancelMembershipByCertificateCode.
  destruct (negb (isCertificateCode (VStr (normalizeCertificateCode c))))
    eqn:Hvalid; [ apply writes_throw |].
  apply negb_false_iff in Hvalid.
  apply writes_bind; [ apply deactivate_writes |]. intros d.
  apply writes_bind.
  - rewrite <- (normalize_idem c Hvalid) at 1. apply remove_writes.
  - intros _. writes_steps.
Qed.

Lemma mappingKey_inj (c1 c2 : string) : mappingKey c1 = mappingKey c2 -> c1 = c2.
Proof.
  unfold mappingKey, CERT_TO_ORDER_KEY_PREFIX. simpl. now intros [= H].
Qed.

(** ** The mapping store *)

Lemma store_run (w : world) (c : value) (o : string) (s : state) :
  isCertificateCode (VStr (normalizeCertificateCode c)) = true ->
  let key := mappingKey (normalizeCertificateCode c) in
  let cmd := RedisSet key o CERT_TO_ORDER_TTL_SECONDS in
  storeCertificateOrderMapping w c o s =
  if redis_configured w
  then (Ok tt,
        State (if redis_fails w (trace s) cmd then store s
               else <[key := o]> (store s))
              (trace s ++ [Redis cmd]))
  else (Ok tt, s).
Proof.
  intros H key cmd.
  unfold storeCertificateOrderMapping, try_catch, redis_set, redis.
  rewrite H. destruct (redis_configured w); simpl; [| reflexivity ].
  subst cmd key. unfold mappingKey.
  now destruct (redis_fails w (trace s) _).
Qed.

Lemma resolve_run (w : world) (c : value) (s : state) :
  isCertificateCode (VStr (normalizeCertificateCode c)) = true ->
  let key := mappingKey (normalizeCertificateCode c) in
  resolveOrderIdByCertificateCode w c s =
  if redis_configured w
  then (Ok (if redis_fails w (trace s) (RedisGet key) then None
            else match store s !! key with
                 | Some raw =>
                     let orderId := deserialize w raw in
                     if truthy orderId && negb (String_throws orderId)
                     then Some (js_String orderId) else None
                 | None => None
                 end),
        State (store s) (trace s ++ [Redis (RedisGet key)]))
  else (Ok None, s).
Proof.
  intros H key.
  unfold resolveOrderIdByCertificateCode, try_catch, bind, redis_get, redis.
  rewrite H. destruct (redis_configured w); simpl; [| reflexivity ].
  subst key. unfold mappingKey.
  destruct (redis_fails w (trace s) _); [ reflexivity |].
  destruct (store s !! _) as [raw |]; [| reflexivity ].
  destruct (truthy (deserialize w raw)); [| reflexivity ].
  now destruct (String_throws (deserialize w raw)).
Qed.

(** X6.  Store then resolve: with a store whose backend accepts the
    commands, an order id stored under a valid code is in the store under
    the key of the code, and the code resolves to it, whatever the letter
    case or surrounding white space of the code on either side, provided
    the store client hands the id back as a value that prints to it (the
    string itself, or the number it is the numeral of).  An id that the
    client hands back as a falsy value, as the numeral 0 read as a number,
    resolves to null although it is stored.  After the mapping is removed
    the code resolves to null. *)
Theorem mapping_round_trip (w : world) (c c' : value) (o : string) (s : state) :
  store_up w ->
  isCertificateCode (VStr (normalizeCertificateCode c)) = true ->
  normalizeCertificateCode c' = normalizeCertificateCode c ->
  let stored := snd (storeCertificateOrderMapping w c o s) in
  let resolved := fst (resolveOrderIdByCertificateCode w c' stored) in
  store stored !! mappingKey (normalizeCertificateCode c) = Some o
  /\ (reads_back w o -> resolved = Ok (Some o))
  /\ (truthy (deserialize w o) = false -> resolved = Ok None)
  /\ fst (resolveOrderIdByCertificateCode w c'
            (snd (removeCertificateOrderMapping w c stored)))
     = Ok None.
Proof.
  intros [Hcfg Hup] Hvalid Hsame stored resolved.
  assert (Hstored : store stored !! mappingKey (normalizeCertificateCode c)
                    = Some o).
  { subst stored. rewrite (store_run w c o s Hvalid). cbv zeta.
    rewrite Hcfg, Hup. cbn [snd store]. apply lookup_insert_eq. }
  assert (Hres : resolved
                 = Ok (if truthy (deserialize w o)
                          && negb (String_throws (deserialize w o))
                       then Some (js_String (deserialize w o)) else None)).
  { subst resolved. rewrite resolve_run by now rewrite Hsame.
    cbv zeta. rewrite Hsame, Hcfg, Hup, Hstored. reflexivity. }
  split; [ exact Hstored |]. split; [| split ].
  - intros (Htruthy & Hprints & Hsame_id).
    now rewrite Hres, Htruthy, Hprints, Hsame_id.
  - intros Hfalsy. now rewrite Hres, Hfalsy.
  - apply resolve_absent. rewrite Hsame.
    rewrite (remove_run w c stored Hvalid). cbv zeta.
    rewrite Hcfg, Hup. cbn [snd store]. apply lookup_delete_eq.
Qed.

Lemma mapping_round_trip_witness :
  fst (resolveOrderIdByCertificateCode Sample.deployment (VStr "zz99yy88 ")
         (snd (storeCertificateOrderMapping Sample.deployment (VStr " Zz99Yy88")
                 "8" Sample.start)))
  = Ok (Some "8")
  /\ fst (resolveOrderIdByCertificateCode Sample.deployment (VStr "zz99yy88 ")
           (snd (storeCertificateOrderMapping Sample.deployment
                   (VStr " Zz99Yy88") "0" Sample.start)))
     = Ok None.
Proof.
  assert (Hup : store_up Sample.deployment)
    by (split; [ reflexivity | intros; reflexivity ]).
  split.
  - destruct (mapping_round_trip Sample.deployment (VStr " Zz99Yy88")
                (VStr "zz99yy88 ") "8" Sample.start Hup eq_refl eq_refl)
      as (_ & Hback & _).
    apply Hback. repeat split.
  - destruct (mapping_round_trip Sample.deployment (VStr " Zz99Yy88")
                (VStr "zz99yy88 ") "0" Sample.start Hup eq_refl eq_refl)
      as (_ & _ & Hfalsy & _).
    apply Hfalsy. reflexivity.
Defined.

Lemma store_returns (w : world) (c : value) (o : string)
    (s : state) :
  exists s', storeCertificateOrderMapping w c o s = (Ok tt, s').
Proof.
  destruct (isCertificateCode (VStr (normalizeCertificateCode c))) eqn:Hvalid.
  - rewrite (store_run w c o s Hvalid). cbv zeta.
    destruct (redis_configured w); eauto.
  - destruct (store_invalid_noop w c o s Hvalid) as (-> & _). eauto.
Qed.

(** X7.  The operations of the mapping store never throw, whatever the
    backend does.  Without a configured store they do nothing and resolve
    to null; with a backend that refuses every command they leave the
    store as it is and resolve to null. *)
Theorem mapping_store_never_throws (w : world) (c : value) (o : string)
    (s : state) :
  (exists s1 s2 r s3,
      storeCertificateOrderMapping w c o s = (Ok tt, s1)
      /\ removeCertificateOrderMapping w c s = (Ok tt, s2)
      /\ resolveOrderIdByCertificateCode w c s = (Ok r, s3)
      /\ store s3 = store s)
  /\ (redis_configured w = false ->
      storeCertificateOrderMapping w c o s = (Ok tt, s)
      /\ removeCertificateOrderMapping w c s = (Ok tt, s)
      /\ resolveOrderIdByCertificateCode w c s = (Ok None, s))
  /\ ((forall history cmd, redis_fails w history cmd = true) ->
      store (snd (storeCertificateOrderMapping w c o s)) = store s
      /\ store (snd (removeCertificateOrderMapping w c s)) = store s
      /\ fst (resolveOrderIdByCertificateCode w c s) = Ok None).
Proof.
  destruct (isCertificateCode (VStr (normalizeCertificateCode c))) eqn:Hvalid.
  - rewrite (store_run w c o s Hvalid), (remove_run w c s Hvalid),
      (resolve_run w c s Hvalid). cbv zeta.
    destruct (redis_configured w).
    + split; [ repeat eexists |]. split; [ discriminate |].
      intros Hdown. now rewrite !Hdown.
    + split; [ repeat eexists |]. split; [ tauto |]. tauto.
  - destruct (store_invalid_noop w c o s Hvalid) as (-> & -> & ->).
    split; [ repeat eexists |]. split; tauto.
Qed.

(** X8.  The store operations on a code, and a cancellation of it, write
    to the store at the key of that code only: the mapping of any other
    code is left as it was, and resolving never writes. *)
Theorem mapping_of_other_codes_untouched (w : world) (c : value) (o : string)
    (ctx : context) :
  let key := mappingKey (normalizeCertificateCode c) in
  writes_only [ key ] (storeCertificateOrderMapping w c o)
  /\ writes_only [ key ] (removeCertificateOrderMapping w c)
  /\ writes_only [] (resolveOrderIdByCertificateCode w c)
  /\ writes_only [ key ] (cancelMembershipByCertificateCode w c ctx)
  /\ (forall other, other <> normalizeCertificateCode c ->
        ~ In (mappingKey other) [ key ]).
Proof.
  intros key. split; [ apply store_writes |].
  split; [ apply remove_writes |]. split; [ apply resolve_writes |].
  split; [ apply cancel_writes |].
  intros other Hne [Heq | []]. apply Hne. symmetry. now apply mappingKey_inj.
Qed.

(** ** The cancellation flow of the enroll protocol *)

(** C3.  An order that reaches the classification (fetched, passing the
    product filter) with a valid extracted code and classified inactive is
    never enrolled: the run issues no enrolment upsert, logs the reason and
    hands the normalized code to the cancellation.  When the deactivation
    in the wallet yields an outcome, the run returns a skipped result that
    carries the reason and wraps the outcome under the code, after the
    [del] command for the mapping of the code and the log entry of the
    cancellation; unless the backend refuses the command the mapping is
    gone.  When the deactivation throws, the run throws the same error,
    returns no skipped result and leaves the store as it was. *)
Theorem processNewMembershipOrder_inactive (w : world) (orderId : string)
    (s : state) (order : value) (code why : string) :
  acuity w (trace s ++ [ processingLog orderId ]) ("/orders/" +:+ orderId)
  = inr order ->
  passes_filter w order ->
  extractCertificateCode order = Some code ->
  evaluateOrderActivity order = Inactive why ->
  let certificateCode := normalizeCertificateCode (VStr code) in
  let key := mappingKey certificateCode in
  let ctx := Context (VStr orderId) (VStr why) (VStr "order.reprocess") in
  let s1 := State (store s)
              (trace s ++ [ processingLog orderId;
                            AcuityGet ("/orders/" +:+ orderId);
                            fetchedLog orderId order;
                            inactiveLog orderId why certificateCode ]) in
  code_shape certificateCode
  /\ (exists evs,
        trace (snd (processNewMembershipOrder w orderId s)) = trace s ++ evs
        /\ Forall (fun e => is_enrollment_upsert e = false) evs)
  /\ (forall d s2,
        deactivatePassKitMembershipByExternalId w certificateCode ctx s1
        = (Ok d, s2) ->
        exists s',
          processNewMembershipOrder w orderId s
          = (Ok (Skipped why
                   (Some (Cancellation true certificateCode (method d)
                            (passKitId d)))), s')
          /\ trace s' = trace s2
                        ++ (if redis_configured w
                            then [ Redis (RedisDel key) ] else [])
                        ++ [ cancellationLog certificateCode d ctx ]
          /\ (redis_configured w = true ->
              (forall history, redis_fails w history (RedisDel key) = false) ->
              store s' !! key = None
              /\ fst (resolveOrderIdByCertificateCode w (VStr code) s')
                 = Ok None))
  /\ (forall e s2,
        deactivatePassKitMembershipByExternalId w certificateCode ctx s1
        = (Throw e, s2) ->
        processNewMembershipOrder w orderId s = (Throw e, s2)
        /\ store s2 = store s).
Proof.
  intros Hget Hpass Hcode Hact certificateCode key ctx s1.
  pose proof (extracted_code_valid _ _ Hcode) as Hvalid.
  pose proof (normalize_idem _ Hvalid) as Hidem. fold certificateCode in Hidem.
  assert (Hvalid' : isCertificateCode
                      (VStr (normalizeCertificateCode (VStr certificateCode)))
                    = true) by now rewrite Hidem.
  assert (Hrun : processNewMembershipOrder w orderId s
                 = match cancelMembershipByCertificateCode w
                           (VStr certificateCode) ctx s1 with
                   | (Ok c, s') => (Ok (Skipped why (Some c)), s')
                   | (Throw e, s') => (Throw e, s')
                   end).
  { rewrite (process_passes w orderId s order Hget
               (extract_not_nullish _ _ Hcode) Hpass).
    rewrite (reconcile_inactive w orderId order code why _ Hcode Hact).
    cbv zeta. cbn [trace store]. rewrite <- app_assoc. reflexivity. }
  split; [ now apply normalize_code_shape |]. split; [| split ].
  - rewrite Hrun.
    destruct (cancel_no_enrollment w (VStr certificateCode) ctx s1)
      as (evs & Htr & Hall).
    exists ([ processingLog orderId; AcuityGet ("/orders/" +:+ orderId);
              fetchedLog orderId order;
              inactiveLog orderId why certificateCode ] ++ evs).
    split.
    + destruct (cancelMembershipByCertificateCode w _ ctx s1) as [[c | e] s'];
        simpl in *; rewrite Htr; now rewrite <- app_assoc.
    + apply Forall_app. split; [ repeat constructor | exact Hall ].
  - intros d s2 Hd.
    rewrite (cancel_run w (VStr certificateCode) ctx s1 Hvalid') in Hrun.
    cbv zeta in Hrun. rewrite Hidem in Hrun. fold key in Hrun.
    rewrite Hd in Hrun.
    destruct (deactivate_cases _ _ _ _ _ _ Hd) as (_ & _ & Hsucc & _).
    rewrite Hsucc in Hrun. eexists. split; [ exact Hrun |]. split.
    + destruct (redis_configured w); reflexivity.
    + intros Hcfg Hup. rewrite Hcfg. cbn [trace store]. rewrite Hup. split.
      * apply lookup_delete_eq.
      * apply resolve_absent. fold certificateCode. fold key. cbn [store].
        apply lookup_delete_eq.
  - intros e s2 Hd.
    rewrite (cancel_run w (VStr certificateCode) ctx s1 Hvalid') in Hrun.
    cbv zeta in Hrun. rewrite Hidem in Hrun. rewrite Hd in Hrun.
    split; [ exact Hrun |].
    pose proof (writes_nothing _ s1
                  (deactivate_writes [] w certificateCode ctx)) as Hst.
    now rewrite Hd in Hst.
Qed.

(** The sample deployment: the wallet rejects the status update and accepts
    the delete. *)
Lemma processNewMembershipOrder_inactive_witness :
  exists s',
    processNewMembershipOrder Sample.deployment "42" Sample.start
    = (Ok (Skipped "Acuity status indicates inactive: cancelled"
             (Some (Cancellation true "AB12CD34" "delete" (VStr "pk_1")))), s')
    /\ store Sample.start !! mappingKey "AB12CD34" = Some "42"
    /\ store s' !! mappingKey "AB12CD34" = None.
Proof.
  destruct (processNewMembershipOrder_inactive Sample.deployment "42"
              Sample.start Sample.cancelledOrder "ab12cd34"
              "Acuity status indicates inactive: cancelled")
    as (_ & _ & Hreturns & _).
  - reflexivity.
  - right. exists "Gold Membership". split; reflexivity.
  - reflexivity.
  - reflexivity.
  - edestruct Hreturns as (s' & Hrun & _ & Hgone);
      [ vm_compute; reflexivity |].
    exists s'. split; [ exact Hrun |]. split; [ reflexivity |].
    apply Hgone; [ reflexivity | intros; reflexivity ].
Defined.

(** A wallet that finds the member and refuses both writes: the order is
    inactive and carries a valid code, and yet the run returns no skipped
    result and the mapping of the code stays. *)
Theorem processNewMembershipOrder_inactive_cancel_fails :
  acuity Readonly.deployment [ processingLog "42" ] "/orders/42"
  = inr Sample.cancelledOrder
  /\ extractCertificateCode Sample.cancelledOrder = Some "ab12cd34"
  /\ isCertificateCode (VStr "ab12cd34") = true
  /\ evaluateOrderActivity Sample.cancelledOrder
     = Inactive "Acuity status indicates inactive: cancelled"
  /\ fst (processNewMembershipOrder Readonly.deployment "42" Sample.start)
     = Throw (Sample.http_error "403")
  /\ store Sample.start !! mappingKey "AB12CD34" = Some "42"
  /\ store (snd (processNewMembershipOrder Readonly.deployment "42"
                   Sample.start))
     !! mappingKey "AB12CD34" = Some "42".
Proof. vm_compute. repeat split. Qed.

(** ** Cancellations *)

Lemma deactivate_no_store_call (w : world) (externalId : string)
    (ctx : context) :
  emits_only (fun e => is_store_call e = false)
    (deactivatePassKitMembershipByExternalId w externalId ctx).
Proof. apply deactivate_emits; reflexivity. Qed.

(** X9.  A cancellation that fails, for whatever reason (a malformed code,
    a missing program id, a delete that the provider rejects after the
    status update), has not touched the mapping store: the store is as it
    was and no command was sent to it. *)
Theorem cancel_failure_keeps_mapping (w : world) (certificateCode : value)
    (ctx : context) (s s' : state) (e : js_error) :
  cancelMembershipByCertificateCode w certificateCode ctx s = (Throw e, s') ->
  store s' = store s
  /\ exists evs, trace s' = trace s ++ evs
                 /\ Forall (fun ev => is_store_call ev = false) evs.
Proof.
  intros Hrun.
  destruct (isCertificateCode
              (VStr (normalizeCertificateCode certificateCode))) eqn:Hvalid.
  - rewrite (cancel_run w certificateCode ctx s Hvalid) in Hrun.
    cbv zeta in Hrun.
    pose proof (writes_nothing _ s
                  (deactivate_writes [] w
                     (normalizeCertificateCode certificateCode) ctx)) as Hst.
    pose proof (deactivate_no_store_call w
                  (normalizeCertificateCode certificateCode) ctx s) as Hev.
    destruct (deactivatePassKitMembershipByExternalId w _ ctx s)
      as [[d | e0] s1]; [ discriminate |].
    injection Hrun as <- <-. simpl in *. auto.
  - unfold cancelMembershipByCertificateCode in Hrun.
    rewrite Hvalid in Hrun. injection Hrun as <- <-.
    split; [ reflexivity |]. exists []. now rewrite app_nil_r.
Qed.

(** A wallet that finds the member and refuses both writes. *)
Lemma cancel_failure_keeps_mapping_witness :
  store (snd (cancelMembershipByCertificateCode Readonly.deployment
                (VStr "AB12CD34") Sample.manual Sample.start))
  = store Sample.start.
Proof.
  eapply (cancel_failure_keeps_mapping Readonly.deployment (VStr "AB12CD34")
            Sample.manual Sample.start _ (Sample.http_error "403")).
  vm_compute. reflexivity.
Defined.

(** X10.  When the provider accepts the status update, the cancellation
    reports "status_update" with the id the provider returned (the
    member's own id if it returned none) and makes no other wallet call:
    after the update only the mapping is removed and the outcome
    logged. *)
Theorem cancel_status_update (w : world) (certificateCode : value)
    (ctx : context) (s s1 : state) (member : member_ref) (response : value) :
  let code := normalizeCertificateCode certificateCode in
  let put := PassKit PUT "/members/member"
               (cancellationPayload w member code ctx) in
  let d := Deactivation true "status_update"
             (or_else (prop response "id") (VStr (id member))) in
  isCertificateCode (VStr code) = true ->
  findPassKitMemberByExternalId w code s = (Ok (Some member), s1) ->
  Str.nonempty (id member) = true ->
  passkit w (trace s1) PUT "/members/member"
    (cancellationPayload w member code ctx) = inr response ->
  exists s',
    cancelMembershipByCertificateCode w certificateCode ctx s
    = (Ok (Cancellation true code "status_update" (passKitId d)), s')
    /\ trace s' = trace s1 ++ [ put ]
                  ++ (if redis_configured w
                      then [ Redis (RedisDel (mappingKey code)) ] else [])
                  ++ [ cancellationLog code d ctx ].
Proof.
  intros code put d Hvalid Hfind Hid Hput.
  rewrite (cancel_run w certificateCode ctx s Hvalid). cbv zeta. fold code.
  rewrite (deactivate_found w code ctx s s1 member Hfind Hid). cbv zeta.
  rewrite Hput. fold put d.
  destruct (redis_configured w); eexists; (split; [ reflexivity |]);
    cbn [trace store]; now rewrite <- app_assoc.
Qed.

Lemma cancel_status_update_witness :
  exists s',
    cancelMembershipByCertificateCode Lenient.deployment (VStr "ab12cd34")
      Sample.manual Sample.start
    = (Ok (Cancellation true "AB12CD34" "status_update" (VStr "pk_1")), s')
    /\ trace s'
       = trace (snd (findPassKitMemberByExternalId Lenient.deployment
                       "AB12CD34" Sample.start))
         ++ [ PassKit PUT "/members/member"
                (cancellationPayload Lenient.deployment
                   (MemberRef "pk_1" (VStr "t@example.com") (VStr "AB12CD34"))
                   "AB12CD34" Sample.manual) ]
         ++ [ Redis (RedisDel (mappingKey "AB12CD34")) ]
         ++ [ cancellationLog "AB12CD34"
                (Deactivation true "status_update" (VStr "pk_1"))
                Sample.manual ].
Proof.
  apply (cancel_status_update Lenient.deployment (VStr "ab12cd34")
           Sample.manual Sample.start
           (snd (findPassKitMemberByExternalId Lenient.deployment "AB12CD34"
                   Sample.start))
           (MemberRef "pk_1" (VStr "t@example.com") (VStr "AB12CD34"))
           (VObj [ ("id", VStr "pk_1") ])).
  - reflexivity.
  - vm_compute. reflexivity.
  - reflexivity.
  - reflexivity.
Defined.

(** ** Cancellation by order id *)

(** The run of [processMembershipCancellation] once the order is fetched. *)
Lemma cancel_order_run (w : world) (orderId : string) (ctx : context)
    (s : state) (order : value) :
  acuity w (trace s ++ [ cancellationProcessingLog orderId ctx ])
    ("/orders/" +:+ orderId) = inr order ->
  nullish order = false ->
  let s1 := State (store s)
              (trace s ++ [ cancellationProcessingLog orderId ctx;
                            AcuityGet ("/orders/" +:+ orderId);
                            cancellationFetchedLog orderId order ]) in
  processMembershipCancellation w orderId ctx s =
  match extractCertificateCode order with
  | None =>
      (Ok (NotCancelled "No certificate code on order"),
       State (store s)
         (trace s ++ [ cancellationProcessingLog orderId ctx;
                       AcuityGet ("/orders/" +:+ orderId);
                       cancellationFetchedLog orderId order;
                       noCodeLog orderId ]))
  | Some code =>
      match cancelMembershipByCertificateCode w (VStr code)
              (orderContext orderId ctx) s1 with
      | (Ok c, s') => (Ok (Cancelled c), s')
      | (Throw e, s') => (Throw e, s')
      end
  end.
Proof.
  intros Hget Hnn. cbv zeta. unfold processMembershipCancellation.
  cbv beta iota delta [try_catch bind acuityGet appendLog emit ret].
  cbn [trace store]. fold (cancellationProcessingLog orderId ctx).
  rewrite Hget. cbv beta iota zeta. rewrite Hnn. cbn [trace store].
  rewrite <- !app_assoc. simpl app.
  destruct (extractCertificateCode order) as [code |].
  - unfold orderContext, cancellationFetchedLog.
    now destruct (cancelMembershipByCertificateCode w _ _ _) as [[c | e] s'].
  - cbn [trace store]. now rewrite <- app_assoc.
Qed.

(** X11.  A cancellation by order id of an order that carries no
    certificate code is skipped with reason "No certificate code on order":
    the run is the order fetch and three log entries, with no call to the
    wallet or to the mapping store. *)
Theorem cancellation_without_code (w : world) (orderId : string)
    (ctx : context) (s : state) (order : value) :
  acuity w (trace s ++ [ cancellationProcessingLog orderId ctx ])
    ("/orders/" +:+ orderId) = inr order ->
  nullish order = false ->
  extractCertificateCode order = None ->
  let evs := [ cancellationProcessingLog orderId ctx;
               AcuityGet ("/orders/" +:+ orderId);
               cancellationFetchedLog orderId order;
               noCodeLog orderId ] in
  processMembershipCancellation w orderId ctx s
  = (Ok (NotCancelled "No certificate code on order"),
     State (store s) (trace s ++ evs))
  /\ Forall (fun e => is_wallet_call e = false /\ is_store_call e = false) evs.
Proof.
  intros Hget Hnn Hnone evs. split.
  - rewrite (cancel_order_run w orderId ctx s order Hget Hnn). cbv zeta.
    now rewrite Hnone.
  - repeat constructor.
Qed.

Lemma cancellation_without_code_witness :
  processMembershipCancellation Sample.deployment "7" Sample.manual Sample.start
  = (Ok (NotCancelled "No certificate code on order"),
     State (store Sample.start)
       [ cancellationProcessingLog "7" Sample.manual;
         AcuityGet "/orders/7";
         cancellationFetchedLog "7" Sample.trialOrder;
         noCodeLog "7" ]).
Proof.
  apply (cancellation_without_code Sample.deployment "7" Sample.manual
           Sample.start Sample.trialOrder); reflexivity.
Defined.

(** X12.  A cancellation by order id looks neither at the product filter
    nor at the status of the order: whatever the filter and however the
    order is classified, an order that carries a code is cancelled under
    the normal form of that code, with the outcome (or the error) of the
    cancellation of the code, in a context that carries the order id, the
    given reason or "Acuity cancellation event", and the source action. *)
Theorem cancellation_by_order_id (w : world) (orderId : string)
    (ctx : context) (s : state) (order : value) (code : string) :
  acuity w (trace s ++ [ cancellationProcessingLog orderId ctx ])
    ("/orders/" +:+ orderId) = inr order ->
  extractCertificateCode order = Some code ->
  let s1 := State (store s)
              (trace s ++ [ cancellationProcessingLog orderId ctx;
                            AcuityGet ("/orders/" +:+ orderId);
                            cancellationFetchedLog orderId order ]) in
  processMembershipCancellation w orderId ctx s
  = match cancelMembershipByCertificateCode w (VStr code)
            (orderContext orderId ctx) s1 with
    | (Ok c, s') => (Ok (Cancelled c), s')
    | (Throw e, s') => (Throw e, s')
    end
  /\ (forall r s',
        processMembershipCancellation w orderId ctx s = (Ok r, s') ->
        exists c, r = Cancelled c
                  /\ c_externalId c = normalizeCertificateCode (VStr code)
                  /\ code_shape (c_externalId c)).
Proof.
  intros Hget Hcode s1.
  assert (Hrun : processMembershipCancellation w orderId ctx s
                 = match cancelMembershipByCertificateCode w (VStr code)
                           (orderContext orderId ctx) s1 with
                   | (Ok c, s') => (Ok (Cancelled c), s')
                   | (Throw e, s') => (Throw e, s')
                   end).
  { rewrite (cancel_order_run w orderId ctx s order Hget
               (extract_not_nullish _ _ Hcode)).
    cbv zeta. now rewrite Hcode. }
  split; [ exact Hrun |].
  intros r s' Hr. rewrite Hrun in Hr.
  destruct (cancelMembershipByCertificateCode w (VStr code) _ s1)
    as [[c | e] s2] eqn:Hcancel; [| discriminate ].
  injection Hr as <- <-. exists c. split; [ reflexivity |].
  apply cancel_returns in Hcancel as (Hvalid & d & s3 & _ & -> & _).
  cbn [c_externalId]. split; [ reflexivity | now apply normalize_code_shape ].
Qed.

(** An order that Enroll would enrol: it is active and passes the filter. *)
Lemma cancellation_by_order_id_witness :
  evaluateOrderActivity Sample.platinumOrder = Active
  /\ processMembershipCancellation Sample.deployment "8" Sample.manual
       Sample.start
     = match cancelMembershipByCertificateCode Sample.deployment
               (VStr "ZZ99YY88") (orderContext "8" Sample.manual)
               (State (store Sample.start)
                  [ cancellationProcessingLog "8" Sample.manual;
                    AcuityGet "/orders/8";
                    cancellationFetchedLog "8" Sample.platinumOrder ])
       with
       | (Ok c, s') => (Ok (Cancelled c), s')
       | (Throw e, s') => (Throw e, s')
       end.
Proof.
  split; [ reflexivity |].
  apply (cancellation_by_order_id Sample.deployment "8" Sample.manual
           Sample.start Sample.platinumOrder "ZZ99YY88"); reflexivity.
Defined.

(** ** Failures of the order fetch *)

(** X13.  When the order fetch fails, or yields no order object, both
    protocols log the failure and throw the error of the fetch on: the run
    is the fetch between two log entries, the store is left alone and the
    wallet is not called. *)
Theorem fetch_failure_propagates (w : world) (orderId : string)
    (ctx : context) (s : state) :
  (forall err,
      acuity w (trace s ++ [ processingLog orderId ]) ("/orders/" +:+ orderId)
      = inl err ->
      processNewMembershipOrder w orderId s
      = (Throw err,
         State (store s)
           (trace s ++ [ processingLog orderId;
                         AcuityGet ("/orders/" +:+ orderId);
                         fetchFailedLog orderId err ])))
  /\ (forall err,
        acuity w (trace s ++ [ cancellationProcessingLog orderId ctx ])
          ("/orders/" +:+ orderId) = inl err ->
        processMembershipCancellation w orderId ctx s
        = (Throw err,
           State (store s)
             (trace s ++ [ cancellationProcessingLog orderId ctx;
                           AcuityGet ("/orders/" +:+ orderId);
                           cancellationFetchFailedLog orderId err ])))
  /\ (forall order,
        acuity w (trace s ++ [ processingLog orderId ]) ("/orders/" +:+ orderId)
        = inr order ->
        nullish order = true ->
        exists err,
          processNewMembershipOrder w orderId s
          = (Throw err,
             State (store s)
               (trace s ++ [ processingLog orderId;
                             AcuityGet ("/orders/" +:+ orderId);
                             fetchFailedLog orderId err ])))
  /\ (forall order,
        acuity w (trace s ++ [ cancellationProcessingLog orderId ctx ])
          ("/orders/" +:+ orderId) = inr order ->
        nullish order = true ->
        exists err,
          processMembershipCancellation w orderId ctx s
          = (Throw err,
             State (store s)
               (trace s ++ [ cancellationProcessingLog orderId ctx;
                             AcuityGet ("/orders/" +:+ orderId);
                             cancellationFetchFailedLog orderId err ]))).
Proof.
  split; [| split; [| split ] ].
  - intros err Hget. unfold processNewMembershipOrder, fetchOrder.
    cbv beta iota delta [try_catch bind acuityGet appendLog emit ret throw].
    cbn [trace store]. fold (processingLog orderId).
    rewrite Hget. cbv beta iota zeta. cbn [trace store].
    now rewrite <- !app_assoc.
  - intros err Hget. unfold processMembershipCancellation.
    cbv beta iota delta [try_catch bind acuityGet appendLog emit ret throw].
    cbn [trace store]. fold (cancellationProcessingLog orderId ctx).
    rewrite Hget. cbv beta iota zeta. cbn [trace store].
    now rewrite <- !app_assoc.
  - intros order Hget Hnull. eexists.
    unfold processNewMembershipOrder, fetchOrder.
    cbv beta iota delta [try_catch bind acuityGet appendLog emit ret throw].
    cbn [trace store]. fold (processingLog orderId).
    rewrite Hget. cbv beta iota zeta. rewrite Hnull. cbn [trace store].
    rewrite <- !app_assoc. reflexivity.
  - intros order Hget Hnull. eexists.
    unfold processMembershipCancellation.
    cbv beta iota delta [try_catch bind acuityGet appendLog emit ret throw].
    cbn [trace store]. fold (cancellationProcessingLog orderId ctx).
    rewrite Hget. cbv beta iota zeta. rewrite Hnull. cbn [trace store].
    rewrite <- !app_assoc. reflexivity.
Qed.

(** ** Enrolment *)

(** The run of steps 3 and 4. *)
Lemma enrol_run (w : world) (orderId : string) (order : value)
    (certificateCode : string) (s : state) :
  let data := memberData w orderId order certificateCode in
  let creating := creatingLog order certificateCode in
  let put := PassKit PUT "/members/member" data in
  enrol w orderId order certificateCode s =
  match passkit w (trace s ++ [ creating ]) PUT "/members/member" data with
  | inr response =>
      let s2 := snd (storeCertificateOrderMapping w (VStr certificateCode)
                       orderId
                       (State (store s) (trace s ++ [ creating; put ]))) in
      (Ok (Enrolled (or_else (prop response "id") response)
             (displayName order)),
       State (store s2) (trace s2 ++ [ createdLog order response ]))
  | inl err =>
      (Throw err,
       State (store s)
         (trace s ++ [ creating; put; createFailedLog err ]))
  end.
Proof.
  cbv zeta. unfold enrol.
  unfold bind at 1. unfold appendLog at 1. unfold emit at 1.
  fold (creatingLog order certificateCode).
  unfold try_catch, bind at 1, passKitRequest. cbn [trace store].
  destruct (passkit w _ PUT _ _) as [err | response].
  - cbv beta iota delta [bind appendLog emit throw]. cbn [trace store].
    now rewrite <- !app_assoc.
  - rewrite <- app_assoc. simpl app. unfold bind at 1.
    destruct (store_returns w (VStr certificateCode) orderId
                (State (store s)
                   (trace s ++ [ creatingLog order certificateCode;
                                 PassKit PUT "/members/member"
                                   (memberData w orderId order certificateCode) ])))
      as [s2 ->].
    reflexivity.
Qed.

(** X14.  A successful enrolment: for an active order that passes the
    filter and carries a code, when the provider accepts the upsert the
    run returns the id the provider assigned and the display name, its
    only wallet call is one upsert of the member record, whose external id
    is the normalized code and whose tier is "membership", followed by the
    command that stores the mapping; with a working store the order id is
    in the store under the key of the code afterwards, and the code
    resolves to it provided the store client hands the id back as a value
    that prints to it. *)
Theorem enrolment_succeeds (w : world) (orderId : string) (s : state)
    (order response : value) (code : string) :
  let certificateCode := normalizeCertificateCode (VStr code) in
  let data := memberData w orderId order certificateCode in
  let before := [ processingLog orderId;
                  AcuityGet ("/orders/" +:+ orderId);
                  fetchedLog orderId order;
                  creatingLog order certificateCode ] in
  let set := Redis (RedisSet (mappingKey certificateCode) orderId
                      CERT_TO_ORDER_TTL_SECONDS) in
  acuity w (trace s ++ [ processingLog orderId ]) ("/orders/" +:+ orderId)
  = inr order ->
  passes_filter w order ->
  extractCertificateCode order = Some code ->
  evaluateOrderActivity order = Active ->
  passkit w (trace s ++ before) PUT "/members/member" data = inr response ->
  exists s',
    processNewMembershipOrder w orderId s
    = (Ok (Enrolled (or_else (prop response "id") response)
             (displayName order)), s')
    /\ trace s' = trace s ++ before
                  ++ [ PassKit PUT "/members/member" data ]
                  ++ (if redis_configured w then [ set ] else [])
                  ++ [ createdLog order response ]
    /\ prop data "externalId" = VStr certificateCode
    /\ prop data "tierId" = VStr "membership"
    /\ code_shape certificateCode
    /\ (store_up w ->
        store s' !! mappingKey certificateCode = Some orderId
        /\ (reads_back w orderId ->
            fst (resolveOrderIdByCertificateCode w (VStr code) s')
            = Ok (Some orderId))).
Proof.
  intros certificateCode data before set Hget Hpass Hcode Hact Hput.
  pose proof (extracted_code_valid _ _ Hcode) as Hvalid.
  pose proof (normalize_idem _ Hvalid) as Hidem.
  fold certificateCode in Hvalid, Hidem.
  assert (Hvalid' : isCertificateCode
                      (VStr (normalizeCertificateCode (VStr certificateCode)))
                    = true) by now rewrite Hidem.
  rewrite (process_passes w orderId s order Hget
             (extract_not_nullish _ _ Hcode) Hpass).
  unfold reconcile. rewrite Hcode, Hact. fold certificateCode.
  rewrite enrol_run. cbv zeta. cbn [trace store].
  rewrite <- !app_assoc. simpl app. fold data. subst before.
  rewrite Hput.
  rewrite (store_run w (VStr certificateCode) orderId _ Hvalid').
  cbv zeta. rewrite Hidem. cbn [trace store].
  eexists. split; [ reflexivity |].
  split; [| split; [ reflexivity | split; [ reflexivity |] ] ].
  - destruct (redis_configured w); cbn [snd trace store];
      rewrite <- ?app_assoc; reflexivity.
  - split; [ now apply normalize_code_shape |].
    intros [Hcfg Hup]. rewrite Hcfg. cbn [snd trace store].
    rewrite Hup. split; [ apply lookup_insert_eq |].
    intros (Htruthy & Hprints & Hsame).
    rewrite (resolve_run w (VStr code) _ Hvalid). cbv zeta.
    fold certificateCode. rewrite Hcfg, Hup. cbn [fst store].
    now rewrite lookup_insert_eq, Htruthy, Hprints, Hsame.
Qed.

Lemma enrolment_succeeds_witness :
  exists s',
    processNewMembershipOrder Sample.deployment "8" Sample.start
    = (Ok (Enrolled (VStr "pk_2") ""), s')
    /\ fst (resolveOrderIdByCertificateCode Sample.deployment (VStr "zz99yy88")
              s')
       = Ok (Some "8").
Proof.
  destruct (enrolment_succeeds Sample.deployment "8" Sample.start
              Sample.platinumOrder (VObj [ ("id", VStr "pk_2") ]) "ZZ99YY88")
    as (s' & Hrun & _ & _ & _ & _ & Hresolve).
  - reflexivity.
  - right. exists "Platinum Annual Membership". split; reflexivity.
  - reflexivity.
  - reflexivity.
  - reflexivity.
  - exists s'. split; [ exact Hrun |].
    apply Hresolve; [ split; [ reflexivity | intros; reflexivity ] |].
    repeat split.
Defined.

(** X15.  When the provider rejects the upsert, the enrolment logs the
    provider's error detail and throws the error on, and no mapping is
    stored: the store is as it was and no command was sent to it. *)
Theorem enrolment_upsert_rejected (w : world) (orderId : string) (s : state)
    (order : value) (code : string) (err : js_error) :
  let certificateCode := normalizeCertificateCode (VStr code) in
  let data := memberData w orderId order certificateCode in
  let before := [ processingLog orderId;
                  AcuityGet ("/orders/" +:+ orderId);
                  fetchedLog orderId order;
                  creatingLog order certificateCode ] in
  acuity w (trace s ++ [ processingLog orderId ]) ("/orders/" +:+ orderId)
  = inr order ->
  passes_filter w order ->
  extractCertificateCode order = Some code ->
  evaluateOrderActivity order = Active ->
  passkit w (trace s ++ before) PUT "/members/member" data = inl err ->
  processNewMembershipOrder w orderId s
  = (Throw err,
     State (store s)
       (trace s ++ before
        ++ [ PassKit PUT "/members/member" data; createFailedLog err ])).
Proof.
  intros certificateCode data before Hget Hpass Hcode Hact Hput.
  rewrite (process_passes w orderId s order Hget
             (extract_not_nullish _ _ Hcode) Hpass).
  unfold reconcile. rewrite Hcode, Hact. fold certificateCode.
  rewrite enrol_run. cbv zeta. cbn [trace store].
  rewrite <- !app_assoc. simpl app. fold data. subst before.
  rewrite Hput. now rewrite <- app_assoc.
Qed.

Lemma enrolment_upsert_rejected_witness :
  store (snd (processNewMembershipOrder Readonly.deployment "8" Sample.start))
  = store Sample.start
  /\ exists err s',
       processNewMembershipOrder Readonly.deployment "8" Sample.start
       = (Throw err, s').
Proof.
  rewrite (enrolment_upsert_rejected Readonly.deployment "8" Sample.start
             Sample.platinumOrder "ZZ99YY88" (Sample.http_error "403"));
    try reflexivity.
  - split; [ reflexivity | eauto ].
  - now left.
Defined.

(** ** The payload parser of the resolver *)

Lemma toMemberRef_object (m : value) (r : member_ref) :
  toMemberRef m = Some r -> truthy m = true /\ isArray m = false.
Proof.
  destruct m as [| | | | | items | fs]; try discriminate. now split.
Qed.

(** X16.  The parser is tolerant of the shape of the answer: a member
    object that yields a reference yields the same reference when it comes
    bare, wrapped under [member], [item], [result] or [data], as the first
    element of a list, or as the first element of a list under [members],
    [results], [items] or [data]; and a list of ids, bare or under
    [memberIds], yields its first id. *)
Theorem parseMemberRefFromPayload_shapes (m : value) (r : member_ref) :
  toMemberRef m = Some r ->
  parseMemberRefFromPayload m = Some r
  /\ (forall k, In k [ "member"; "item"; "result"; "data" ] ->
        parseMemberRefFromPayload (VObj [ (k, m) ]) = Some r)
  /\ (forall rest, parseMemberRefFromPayload (VArr (m :: rest)) = Some r)
  /\ (forall k rest, In k [ "members"; "results"; "items"; "data" ] ->
        parseMemberRefFromPayload (VObj [ (k, VArr (m :: rest)) ]) = Some r)
  /\ (forall first rest,
        parseMemberRefFromPayload (VArr (VStr first :: rest))
        = Some (MemberRef first VNull VNull)
        /\ parseMemberRefFromPayload
             (VObj [ ("memberIds", VArr (VStr first :: rest)) ])
           = Some (MemberRef first VNull VNull)).
Proof.
  intros Hm. destruct (toMemberRef_object m r Hm) as [Ht Ha].
  assert (Hrow : match m with
                 | VStr first => Some (MemberRef first VNull VNull)
                 | _ => toMemberRef m
                 end = Some r).
  { destruct m; try exact Hm; discriminate. }
  split; [| split; [| split; [| split ] ] ].
  - unfold parseMemberRefFromPayload. now rewrite Ht, Hm.
  - intros k Hk. simpl in Hk.
    destruct Hk as [<- | [<- | [<- | [<- | []]]]];
      unfold parseMemberRefFromPayload; simpl;
      rewrite ?Ht, ?Ha; simpl; rewrite ?Ht; simpl; now rewrite Hm.
  - intros rest. unfold parseMemberRefFromPayload. simpl. now rewrite Hrow.
  - intros k rest Hk. simpl in Hk.
    destruct Hk as [<- | [<- | [<- | [<- | []]]]];
      unfold parseMemberRefFromPayload; simpl; now rewrite Hrow.
  - intros first rest. split; reflexivity.
Qed.

Lemma parseMemberRefFromPayload_shapes_witness :
  parseMemberRefFromPayload (VObj [ ("data", VArr [ Sample.member ]) ])
  = Some (MemberRef "pk_1" (VStr "t@example.com") (VStr "AB12CD34")).
Proof.
  apply (parseMemberRefFromPayload_shapes Sample.member
           (MemberRef "pk_1" (VStr "t@example.com") (VStr "AB12CD34"))
           eq_refl).
  simpl. auto.
Defined.

(** ** The manual endpoints *)

Lemma resolve_returns (w : world) (c : value) (s : state) :
  exists r s', resolveOrderIdByCertificateCode w c s = (Ok r, s').
Proof.
  destruct (isCertificateCode (VStr (normalizeCertificateCode c))) eqn:Hvalid.
  - rewrite (resolve_run w c s Hvalid). cbv zeta.
    destruct (redis_configured w); eauto.
  - destruct (store_invalid_noop w c "" s Hvalid) as (_ & _ & ->). eauto.
Qed.

(** X17.  The two manual endpoints never throw: whatever the request and
    whatever the collaborators do, they answer, with one of the statuses
    200, 400, 404, 405 and 500; and a request that is not a POST is
    answered 405 with nothing done. *)
Theorem manual_endpoints_always_answer (w : world) (req : request)
    (s : state) :
  (exists r s', CancelMembership.handler w req s = (Ok r, s')
                /\ In (status r) [ 200; 400; 405; 500 ]%Z)
  /\ (exists r s', ProcessOrder.handler w req s = (Ok r, s')
                   /\ In (status r) [ 200; 400; 404; 405; 500 ]%Z)
  /\ (String.eqb (req_method req) "POST" = false ->
      CancelMembership.handler w req s = (Ok notAllowed, s)
      /\ ProcessOrder.handler w req s = (Ok notAllowed, s)).
Proof.
  unfold CancelMembership.handler, ProcessOrder.handler.
  destruct (String.eqb (req_method req) "POST"); simpl negb; cbv iota.
  - split; [| split; [| discriminate ] ].
    + cbv beta iota delta [negb try_catch bind ret].
      repeat match goal with
             | |- context [if ?b then _ else _] => destruct b
             end;
        try match goal with
            | |- context [cancelMembershipByCertificateCode w ?c ?ctx s] =>
                destruct (cancelMembershipByCertificateCode w c ctx s)
                  as [[x | e] s1]
            | |- context [processMembershipCancellation w ?o ?ctx s] =>
                destruct (processMembershipCancellation w o ctx s)
                  as [[x | e] s1]
            end;
        eexists _, _; (split; [ reflexivity |]); simpl; auto.
    + cbv beta iota zeta delta [negb].
      match goal with
      | |- context [Str.nonempty ?c] =>
          destruct (Str.nonempty c) eqn:Hcode;
            [ destruct (resolve_returns w (VStr c) s) as (r & s1 & Hr) |]
      end.
      * unfold bind at 1. rewrite Hr.
        destruct r as [orderId |].
        -- cbv beta iota delta [try_catch bind ret].
           destruct (processNewMembershipOrder w orderId s1) as [[x | e] s2];
             eexists _, _; (split; [ reflexivity |]); simpl; auto 6.
        -- eexists _, _. split; [ reflexivity |]. simpl. auto.
      * destruct (Str.nonempty (query_param req "orderId")).
        -- cbv beta iota delta [try_catch bind ret].
           destruct (processNewMembershipOrder w (query_param req "orderId") s)
             as [[x | e] s2];
             eexists _, _; (split; [ reflexivity |]); simpl; auto 6.
        -- eexists _, _. split; [ reflexivity |]. simpl. auto.
  - split; [| split ].
    + eexists _, _. split; [ reflexivity |]. simpl. auto.
    + eexists _, _. split; [ reflexivity |]. simpl. auto.
    + intros _. split; reflexivity.
Qed.

(** X18.  An order id of eight digits is read differently by the two
    endpoints: the cancel endpoint takes it for a certificate code and
    cancels that code without fetching any order, while the process
    endpoint, which wants a letter in a code, processes it as an order id
    without consulting the mapping store. *)
Theorem eight_digit_order_id (w : world) (params : list (string * value))
    (orderId : string) (s : state) :
  query_param (post params) "certificateCode" = "" ->
  query_param (post params) "orderId" = orderId ->
  matches_code orderId = true ->
  ProcessOrder.has_letter orderId = false ->
  CancelMembership.handler w (post params) s
  = match cancelMembershipByCertificateCode w (VStr (Str.toUpperCase orderId))
            manualContext s with
    | (Ok c, s') => (Ok (cancelledByCode c), s')
    | (Throw e, s') => (Ok (failed e), s')
    end
  /\ ProcessOrder.handler w (post params) s
     = match processNewMembershipOrder w orderId s with
       | (Ok r, s') => (Ok (processed orderId [] r), s')
       | (Throw e, s') => (Ok (failed e), s')
       end.
Proof.
  intros Hcode Hid Hshape Hdigits.
  assert (Htrim : Str.trim orderId = orderId).
  { apply alnum_trim. now apply matches_code_shape in Hshape. }
  assert (Hne : Str.nonempty orderId = true)
    by now apply matches_code_nonempty.
  unfold CancelMembership.handler, ProcessOrder.handler,
    CancelMembership.looksLikeCertificateCode,
    ProcessOrder.looksLikeCertificateCode.
  rewrite Hcode, Hid, Htrim, Hshape, Hdigits, Hne. simpl.
  cbv beta iota delta [try_catch bind ret]. split.
  - now destruct (cancelMembershipByCertificateCode w _ _ s) as [[c | e] s'].
  - now destruct (processNewMembershipOrder w orderId s) as [[r | e] s'].
Qed.

Lemma eight_digit_order_id_witness :
  CancelMembership.handler Sample.deployment
    (post [ ("orderId", VStr " 12345678 ") ]) Sample.start
  = match cancelMembershipByCertificateCode Sample.deployment (VStr "12345678")
            manualContext Sample.start with
    | (Ok c, s') => (Ok (cancelledByCode c), s')
    | (Throw e, s') => (Ok (failed e), s')
    end
  /\ ProcessOrder.handler Sample.deployment
       (post [ ("orderId", VStr " 12345678 ") ]) Sample.start
     = match processNewMembershipOrder Sample.deployment "12345678"
               Sample.start with
       | (Ok r, s') => (Ok (processed "12345678" [] r), s')
       | (Throw e, s') => (Ok (failed e), s')
       end.
Proof.
  apply (eight_digit_order_id Sample.deployment
           [ ("orderId", VStr " 12345678 ") ] "12345678" Sample.start);
    reflexivity.
Defined.



(** ** The webhook receiver *)

(** The receiver up to the dispatch, for a request that gets past the
    signature check. *)
Lemma webhook_run (env : webhook_env) (w : world) (rawBody : string)
    (signature : value) (s : state) :
  signature_passes env rawBody signature ->
  let body := parse env rawBody in
  let action := Webhook.actionOf body in
  let s1 := State (store s) (trace s ++ [ Webhook.received body ]) in
  Webhook.handler env w (WebhookRequest "POST" (Some rawBody) signature) s =
  if negb (Str.nonempty action)
  then (Ok (Response 200 (VObj [ ("status", VStr "ignored");
                                 ("reason", VStr "missing_action") ])),
        State (store s)
          (trace s ++ [ Webhook.received body;
                        Log warn "Ignoring webhook with missing action" VNull ]))
  else if negb (Webhook.isOrderCompleted action)
          && negb (Webhook.isOrderCancellation action)
  then (Ok (Response 200 (VObj [ ("status", VStr "ignored");
                                 ("action", prop body "action") ])),
        State (store s)
          (trace s ++ [ Webhook.received body;
                        Log info ("Ignoring webhook action: "
                                  +:+ js_String (prop body "action")) VNull ]))
  else if negb (truthy (prop body "id"))
  then (Ok (Response 400 (VObj [ ("error", VStr "Missing order ID") ])),
        State (store s)
          (trace s ++ [ Webhook.received body;
                        Log error "No order ID in webhook payload" VNull ]))
  else Webhook.dispatch w action (prop body "id") s1.
Proof.
  intros Hsig. cbv zeta. unfold Webhook.handler.
  cbn [wh_method wh_rawBody wh_signature]. rewrite String.eqb_refl.
  assert (Hgate : truthy signature
                  && negb (verifyAcuitySignature env rawBody signature)
                  = false).
  { destruct Hsig as [-> | ->]; [ reflexivity | apply andb_false_r ]. }
  rewrite Hgate.
  destruct (Str.nonempty (Webhook.actionOf (parse env rawBody)));
    destruct (Webhook.isOrderCompleted _);
    destruct (Webhook.isOrderCancellation _);
    destruct (truthy (prop (parse env rawBody) "id"));
    cbv beta iota delta [negb andb bind appendLog emit ret];
    cbn [trace store]; rewrite <- ?app_assoc; reflexivity.
Qed.

(** X20.  The signature of a webhook is optional.  A request whose
    signature header is present and does not verify (any signature, when
    no API key is configured) is answered 401 with two log entries and
    nothing else; but a request without the header is handled exactly as
    the same request with a signature that verifies. *)
Theorem webhook_signature_optional (env : webhook_env) (w : world)
    (rawBody : string) (signature : value) (s : state) :
  (truthy signature = true ->
   verifyAcuitySignature env rawBody signature = false ->
   Webhook.handler env w (WebhookRequest "POST" (Some rawBody) signature) s
   = (Ok (Response 401 (VObj [ ("error", VStr "Invalid signature") ])),
      State (store s)
        (trace s ++ [ Webhook.received (parse env rawBody);
                      Log error "Invalid Acuity webhook signature" VNull ])))
  /\ (ACUITY_API_KEY env = None ->
      verifyAcuitySignature env rawBody signature = false)
  /\ (verifyAcuitySignature env rawBody signature = true ->
      Webhook.handler env w (WebhookRequest "POST" (Some rawBody) signature) s
      = Webhook.handler env w (WebhookRequest "POST" (Some rawBody) VUndefined)
          s).
Proof.
  split; [| split ].
  - intros Ht Hv. unfold Webhook.handler.
    cbn [wh_method wh_rawBody wh_signature]. rewrite String.eqb_refl.
    rewrite Ht, Hv.
    cbv beta iota delta [negb andb bind appendLog emit ret].
    cbn [trace store]. now rewrite <- app_assoc.
  - intros Hkey. unfold verifyAcuitySignature. now rewrite Hkey.
  - intros Hv.
    rewrite (webhook_run env w rawBody signature s (or_intror Hv)).
    now rewrite (webhook_run env w rawBody VUndefined s (or_introl eq_refl)).
Qed.

(** X21.  A recognized event is always answered 200.  The action is read
    without regard to case or surrounding white space; "order.completed"
    goes to the enroll protocol and "order.cancelled" or "order.canceled"
    to the cancellation by order id, with the action as source action; the
    result is answered with status "ok", and an error of the protocol is
    logged and answered with status "error", still 200. *)
Theorem webhook_dispatch (env : webhook_env) (w : world) (rawBody : string)
    (signature : value) (s : state) (orderId : string) :
  let body := parse env rawBody in
  let action := Webhook.actionOf body in
  let s1 := State (store s) (trace s ++ [ Webhook.received body ]) in
  let failure (e : js_error) (s' : state) :=
    (Ok (Webhook.errored (VStr orderId) e),
     State (store s')
       (trace s' ++ [ Log error ("Error processing order #" +:+ orderId)
                        (VStr (message e)) ])) in
  signature_passes env rawBody signature ->
  prop body "id" = VStr orderId ->
  Str.nonempty orderId = true ->
  (action = "order.completed" ->
   Webhook.handler env w (WebhookRequest "POST" (Some rawBody) signature) s
   = match processNewMembershipOrder w orderId s1 with
     | (Ok r, s') => (Ok (Webhook.ok (VStr orderId) (order_result_json r)), s')
     | (Throw e, s') => failure e s'
     end)
  /\ (action = "order.cancelled" \/ action = "order.canceled" ->
      Webhook.handler env w (WebhookRequest "POST" (Some rawBody) signature) s
      = match processMembershipCancellation w orderId
                (Context VUndefined VUndefined (VStr action)) s1 with
        | (Ok r, s') =>
            (Ok (Webhook.ok (VStr orderId) (cancel_order_result_json r)), s')
        | (Throw e, s') => failure e s'
        end).
Proof.
  intros body action s1 failure Hsig Hid Hne.
  pose proof (webhook_run env w rawBody signature s Hsig) as Hrun.
  cbv zeta in Hrun. fold body in Hrun. fold action in Hrun.
  rewrite Hid in Hrun. cbn [truthy] in Hrun. rewrite Hne in Hrun.
  split.
  - intros Hact. rewrite Hrun, Hact. simpl.
    unfold Webhook.dispatch.
    change (Webhook.isOrderCancellation "order.completed") with false.
    cbv beta iota delta [try_catch bind appendLog emit ret]. cbn [js_String].
    fold body. fold s1. subst failure.
    now destruct (processNewMembershipOrder w orderId s1) as [[r | e] s'].
  - intros Hact.
    assert (Hc : Webhook.isOrderCancellation action = true)
      by (destruct Hact as [-> | ->]; reflexivity).
    assert (Hn : Str.nonempty action = true)
      by (destruct Hact as [-> | ->]; reflexivity).
    rewrite Hrun, Hn, Hc, andb_false_r. simpl negb. cbv iota.
    unfold Webhook.dispatch. rewrite Hc.
    cbv beta iota delta [try_catch bind appendLog emit ret]. cbn [js_String].
    fold body. fold s1. subst failure.
    now destruct (processMembershipCancellation w orderId _ s1)
      as [[r | e] s'].
Qed.

Lemma webhook_dispatch_witness :
  Webhook.handler Webhook.sampleEnv Sample.deployment
    (WebhookRequest "POST" (Some "action=%20Order.Canceled&id=8") VUndefined)
    Sample.start
  = match processMembershipCancellation Sample.deployment "8"
            (Context VUndefined VUndefined (VStr "order.canceled"))
            (State (store Sample.start)
               [ Webhook.received
                   (VObj [ ("action", VStr " Order.Canceled");
                           ("id", VStr "8") ]) ])
    with
    | (Ok r, s') =>
        (Ok (Webhook.ok (VStr "8") (cancel_order_result_json r)), s')
    | (Throw e, s') =>
        (Ok (Webhook.errored (VStr "8") e),
         State (store s')
           (trace s' ++ [ Log error "Error processing order #8"
                            (VStr (message e)) ]))
    end.
Proof.
  apply (webhook_dispatch Webhook.sampleEnv Sample.deployment
           "action=%20Order.Canceled&id=8" VUndefined Sample.start "8").
  - now left.
  - reflexivity.
  - reflexivity.
  - now right.
Defined.

(** X22.  The receiver never throws: it answers every request with one of
    the statuses 200, 400, 401 and 405; and when the answer is not 200
    nothing was processed: the store is as it was and the run made log
    entries only. *)
Theorem webhook_always_answers (env : webhook_env) (w : world)
    (req : webhook_request) (s : state) :
  exists r s',
    Webhook.handler env w req s = (Ok r, s')
    /\ In (status r) [ 200; 400; 401; 405 ]%Z
    /\ (status r <> 200%Z ->
        store s' = store s
        /\ exists evs, trace s' = trace s ++ evs
                       /\ Forall (fun e => is_log e = true) evs).
Proof.
  assert (Hnil : exists evs, trace s = trace s ++ evs
                             /\ Forall (fun e => is_log e = true) evs).
  { exists []. now rewrite app_nil_r. }
  unfold Webhook.handler, Webhook.dispatch.
  cbv beta iota zeta delta [negb try_catch bind appendLog emit ret].
  repeat match goal with
         | |- context [if ?b then _ else _] => destruct b
         | |- context [match wh_rawBody req with _ => _ end] =>
             destruct (wh_rawBody req)
         end;
    try match goal with
        | |- context [processMembershipCancellation w ?o ?ctx ?st] =>
            destruct (processMembershipCancellation w o ctx st) as [[x | e] s1]
        | |- context [processNewMembershipOrder w ?o ?st] =>
            destruct (processNewMembershipOrder w o st) as [[x | e] s1]
        end;
    eexists _, _; (split; [ reflexivity |]);
    (split; [ simpl; auto 6 |]); cbn [status store trace];
    intros Hstatus; try (now contradiction Hstatus);
    (split; [ reflexivity |]); try exact Hnil;
    try (rewrite <- app_assoc); eexists; (split; [ reflexivity |]);
    repeat constructor.
Qed.
